(** * LogoHunter: scoring engine, candidate ranking and image hand-off

    A shallow embedding of the parts of [logo_hunter/scoring.py],
    [logo_hunter/rules/dimensions/penalty.py],
    [logohunter/rules/dimensions/bonus.py] and [logo_hunter/hunter.py]
    that decide how a candidate is scored, deduplicated, ranked, fetched
    and encoded, followed by the properties proved of them.

    Python values are modelled as the interpreter has them: [int] is [Z],
    [float] is an IEEE-754 binary64 value ([spec_float] with precision 53
    and maximal exponent 1024), [str] is a list of code points, [bytes] is
    a list of bytes, and a raised exception is the [Raise] branch of the
    [Exc] monad. *)

From Stdlib Require Import ZArith NArith QArith Qround List String Ascii Bool Lia.
From Stdlib Require Import Strings.Byte.
From Stdlib Require Import Permutation Sorted SpecFloat.
Import ListNotations.
Open Scope list_scope.
Open Scope Z_scope.

(* ===================================================================== *)
(** * Python built-ins used by the program                                *)
(* ===================================================================== *)

Module Py.

(** Exceptions derived from [Exception], which is what the program's
    [except Exception] handlers catch. *)
Inductive exn : Type :=
| ValueError
| OverflowError
| ZeroDivisionError
| UnicodeDecodeError
| UnicodeEncodeError
| IndexError
| HTTPError
| OSError.

Inductive Exc (A : Type) : Type :=
| Ok (a : A)
| Raise (e : exn).

Arguments Ok {A} a.
Arguments Raise {A} e.

Definition bind {A B : Type} (m : Exc A) (k : A -> Exc B) : Exc B :=
  match m with
  | Ok a => k a
  | Raise e => Raise e
  end.

(** [try: body except Exception as e: handler e] *)
Definition try_except {A : Type} (body : Exc A) (handler : exn -> Exc A) : Exc A :=
  match body with
  | Ok a => Ok a
  | Raise e => handler e
  end.

Declare Scope exc_scope.
Delimit Scope exc_scope with exc.
Notation "x <- m ;; k" := (bind m (fun x => k))
  (at level 61, m at next level, right associativity) : exc_scope.
Notation "' p <- m ;; k" := (bind m (fun x => let p := x in k))
  (at level 61, p pattern, m at next level, right associativity) : exc_scope.
Open Scope exc_scope.

(** ** [str]: a sequence of code points *)

Definition str : Type := list N.

(** An ASCII literal of the source. *)
Definition lit (s : string) : str :=
  List.map N_of_ascii (list_ascii_of_string s).

Definition str_eqb (a b : str) : bool :=
  if list_eq_dec N.eq_dec a b then true else false.

Fixpoint startswith (s prefix : str) : bool :=
  match prefix, s with
  | [], _ => true
  | p :: prefix', c :: s' => (c =? p)%N && startswith s' prefix'
  | _ :: _, [] => false
  end.

(** [sub in s] *)
Fixpoint contains (s sub : str) : bool :=
  startswith s sub ||
  match s with
  | [] => false
  | _ :: s' => contains s' sub
  end.

(** [str.lower] and [str.upper] on the ASCII letters.  Code points above
    127 are left as they are: none of them lowercases to a letter of
    [any] or [svg] or uppercases to a letter of [JPEG], the only
    strings the results are compared with. *)
Definition lower_char (c : N) : N :=
  if ((65 <=? c) && (c <=? 90))%N then (c + 32)%N else c.

Definition upper_char (c : N) : N :=
  if ((97 <=? c) && (c <=? 122))%N then (c - 32)%N else c.

Definition lower (s : str) : str := List.map lower_char s.
Definition upper (s : str) : str := List.map upper_char s.

(** [s.split(sep)] for a one-character separator, and [re.split] on a
    character class: the pieces between the separators, empty ones kept. *)
Fixpoint split_on (is_sep : N -> bool) (s : str) : list str :=
  match s with
  | [] => [[]]
  | c :: s' =>
      if is_sep c then [] :: split_on is_sep s'
      else match split_on is_sep s' with
           | [] => [[c]]
           | piece :: pieces => (c :: piece) :: pieces
           end
  end.

(** ** Digits

    [str.isdigit], [int] and the pattern [\d] follow the Unicode
    character database for code points above 127.  The database is a
    parameter: [unicode_digit c] is [None] when [c.isdigit()] is false,
    [Some None] when [c] is a digit that is no decimal (a superscript,
    which [int] refuses and [\d] does not match), and [Some (Some d)]
    when [c] is a decimal digit of value [d].

    [int_max_str_digits] is the interpreter's limit on the length of a
    decimal string [int] converts ([sys.get_int_max_str_digits()], 4300
    by default), 0 when there is none. *)
Section Digits.

Variable unicode_digit : N -> option (option Z).
Variable int_max_str_digits : nat.

Definition isdigit (c : N) : bool :=
  if (c <? 128)%N then ((48 <=? c) && (c <=? 57))%N
  else match unicode_digit c with
       | Some _ => true
       | None => false
       end.

Definition decimal_value (c : N) : option Z :=
  if (c <? 128)%N then
    if ((48 <=? c) && (c <=? 57))%N then Some (Z.of_N (c - 48)) else None
  else match unicode_digit c with
       | Some (Some d) => Some d
       | _ => None
       end.

Definition is_decimal (c : N) : bool :=
  match decimal_value c with
  | Some _ => true
  | None => false
  end.

Fixpoint int_of_digits (acc : Z) (s : str) : Exc Z :=
  match s with
  | [] => Ok acc
  | c :: s' =>
      match decimal_value c with
      | Some d => int_of_digits (10 * acc + d) s'
      | None => Raise ValueError
      end
  end.

(** [int(s)] for a string of digit characters (the program never passes
    it signs, blanks or underscores): the empty string, a digit that is
    no decimal, and a string longer than the limit (which the
    interpreter looks at above 640 digits only) raise [ValueError]. *)
Definition int_of_str (s : str) : Exc Z :=
  match s with
  | [] => Raise ValueError
  | _ :: _ =>
      if ((640 <? List.length s) && (0 <? int_max_str_digits)
          && (int_max_str_digits <? List.length s))%nat
      then Raise ValueError
      else int_of_digits 0 s
  end.

(** [\d{n}] at the head of [s]: the [n] digits and what follows them. *)
Fixpoint take_digits (n : nat) (s : str) : option (str * str) :=
  match n with
  | O => Some ([], s)
  | S n' =>
      match s with
      | c :: s' =>
          if is_decimal c then
            match take_digits n' s' with
            | Some (ds, rest) => Some (c :: ds, rest)
            | None => None
            end
          else None
      | [] => None
      end
  end.

End Digits.

(** The first alternative that succeeds, as a backtracking matcher tries
    them. *)
Fixpoint first_some {A B : Type} (f : A -> option B) (l : list A) : option B :=
  match l with
  | [] => None
  | a :: l' =>
      match f a with
      | Some b => Some b
      | None => first_some f l'
      end
  end.

(** The default [""] of [attributes.get(name, "")]. *)
Definition empty : option str := Some [].

(** [x or y] on ints, and the truth value of a [str] that may be [None]. *)
Definition int_or (x y : Z) : Z := if x =? 0 then y else x.

Definition truthy (v : option str) : bool :=
  match v with
  | Some (_ :: _) => true
  | _ => false
  end.

(** [try: return body / except: return default] *)
Definition value_or {A : Type} (body : Exc A) (default : A) : A :=
  match body with
  | Ok a => a
  | Raise _ => default
  end.

(** ** [bytes] and the strict UTF-8 codec *)

Definition bytes : Type := list byte.

Definition byte_of_N (n : N) : byte :=
  match Byte.of_N n with
  | Some b => b
  | None => x00
  end.

Definition is_cont (b : N) : bool := ((128 <=? b) && (b <=? 191))%N.

Definition in_range (lo hi b : N) : bool := ((lo <=? b) && (b <=? hi))%N.

(** [bytes.decode("utf-8")]: shortest form only, no surrogates, nothing
    above U+10FFFF. *)
Fixpoint decode_utf8_N (bs : list N) : Exc str :=
  match bs with
  | [] => Ok []
  | b0 :: r0 =>
      if (b0 <? 128)%N then
        s <- decode_utf8_N r0 ;; Ok (b0 :: s)
      else if in_range 194 223 b0 then
        match r0 with
        | b1 :: r1 =>
            if is_cont b1 then
              s <- decode_utf8_N r1 ;;
              Ok (((b0 - 192) * 64 + (b1 - 128))%N :: s)
            else Raise UnicodeDecodeError
        | _ => Raise UnicodeDecodeError
        end
      else if in_range 224 239 b0 then
        match r0 with
        | b1 :: b2 :: r2 =>
            if (if (b0 =? 224)%N then in_range 160 191 b1
                else if (b0 =? 237)%N then in_range 128 159 b1
                else is_cont b1) && is_cont b2 then
              s <- decode_utf8_N r2 ;;
              Ok (((b0 - 224) * 4096 + (b1 - 128) * 64 + (b2 - 128))%N :: s)
            else Raise UnicodeDecodeError
        | _ => Raise UnicodeDecodeError
        end
      else if in_range 240 244 b0 then
        match r0 with
        | b1 :: b2 :: b3 :: r3 =>
            if (if (b0 =? 240)%N then in_range 144 191 b1
                else if (b0 =? 244)%N then in_range 128 143 b1
                else is_cont b1) && is_cont b2 && is_cont b3 then
              s <- decode_utf8_N r3 ;;
              Ok (((b0 - 240) * 262144 + (b1 - 128) * 4096
                   + (b2 - 128) * 64 + (b3 - 128))%N :: s)
            else Raise UnicodeDecodeError
        | _ => Raise UnicodeDecodeError
        end
      else Raise UnicodeDecodeError
  end.

Definition decode_utf8 (bs : bytes) : Exc str :=
  decode_utf8_N (List.map Byte.to_N bs).

(** [str.encode("utf-8")]: a lone surrogate or a value that is no code
    point raises. *)
Definition encode_char (c : N) : Exc (list N) :=
  if (c <? 128)%N then Ok [c]
  else if (c <? 2048)%N then Ok [192 + c / 64; 128 + c mod 64]%N
  else if in_range 55296 57343 c then Raise UnicodeEncodeError
  else if (c <? 65536)%N then
    Ok [224 + c / 4096; 128 + (c / 64) mod 64; 128 + c mod 64]%N
  else if (c <? 1114112)%N then
    Ok [240 + c / 262144; 128 + (c / 4096) mod 64;
        128 + (c / 64) mod 64; 128 + c mod 64]%N
  else Raise UnicodeEncodeError.

Fixpoint encode_utf8_N (s : str) : Exc (list N) :=
  match s with
  | [] => Ok []
  | c :: s' =>
      bs <- encode_char c ;;
      rest <- encode_utf8_N s' ;;
      Ok (bs ++ rest)
  end.

Definition encode_utf8 (s : str) : Exc bytes :=
  bs <- encode_utf8_N s ;; Ok (List.map byte_of_N bs).

(** ** [float]: IEEE-754 binary64 *)

Definition prec : Z := 53.
Definition emax : Z := 1024.
Definition float : Type := spec_float.

Definition is_finite (f : float) : bool :=
  match f with
  | S754_zero _ | S754_finite _ _ _ => true
  | S754_infinity _ | S754_nan => false
  end.

(** An [int] as the unrounded pair mantissa, exponent 0. *)
Definition int_exact (z : Z) : float :=
  match z with
  | Z0 => S754_zero false
  | Zpos p => S754_finite false p 0
  | Zneg p => S754_finite true p 0
  end.

(** The conversion an [int] operand of a mixed operation goes through:
    round to nearest even, [OverflowError] beyond the largest float. *)
Definition float_of_int (z : Z) : Exc float :=
  let f := binary_normalize prec emax z 0 false in
  if is_finite f then Ok f else Raise OverflowError.

(** A decimal literal [num/den] of the source ([0.67] is
    [float_lit 67 100]): the float nearest to it. *)
Definition float_lit (num den : Z) : float :=
  SFdiv prec emax (int_exact num) (int_exact den).

Definition float_mul (x y : float) : float := SFmul prec emax x y.
Definition float_add (x y : float) : float := SFadd prec emax x y.
Definition float_ltb (x y : float) : bool := SFltb x y.

(** [a / b] on two ints: the correctly rounded quotient. *)
Definition int_true_div (a b : Z) : Exc float :=
  if b =? 0 then Raise ZeroDivisionError
  else
    let q := SFdiv prec emax (int_exact a) (int_exact b) in
    if is_finite q then Ok q else Raise OverflowError.

(** [int(f)]: truncation toward zero; infinities and NaN raise. *)
Definition int_of_float (f : float) : Exc Z :=
  match f with
  | S754_zero _ => Ok 0
  | S754_finite s m e => Ok (cond_Zopp s (Z.shiftl (Zpos m) e))
  | S754_infinity _ => Raise OverflowError
  | S754_nan => Raise ValueError
  end.

(** [n * f] for an int and a float. *)
Definition int_mul_float (n : Z) (f : float) : Exc float :=
  fn <- float_of_int n ;; Ok (float_mul fn f).

(** Comparison of an int with a float, which Python decides on the exact
    values. *)
Definition int_compare_float (z : Z) (f : float) : option comparison :=
  match f with
  | S754_nan => None
  | S754_infinity s => Some (if s then Gt else Lt)
  | S754_zero _ => Some (z ?= 0)
  | S754_finite s m e =>
      let v := cond_Zopp s (Zpos m) in
      Some (match e with
            | Zneg p => (z * 2 ^ Zpos p ?= v)
            | _ => (z ?= v * 2 ^ e)
            end)
  end.

Definition int_le_float (z : Z) (f : float) : bool :=
  match int_compare_float z f with
  | Some Lt | Some Eq => true
  | _ => false
  end.

Definition int_lt_float (z : Z) (f : float) : bool :=
  match int_compare_float z f with
  | Some Lt => true
  | _ => false
  end.

(** The exact value of a finite float. *)
Definition float_to_Q (f : float) : Q :=
  match f with
  | S754_finite s m e =>
      match e with
      | Zneg p => cond_Zopp s (Zpos m) # (2 ^ p)
      | _ => inject_Z (cond_Zopp s (Zpos m * 2 ^ e))
      end
  | _ => 0%Q
  end.

(** Truncation of a rational toward zero. *)
Definition Qtrunc (q : Q) : Z := Z.quot (Qnum q) (Zpos (Qden q)).

(** A number that is an [int] or a [float], as the rule modules compute
    with. *)
Inductive num : Type :=
| NInt (n : Z)
| NFloat (f : float).

(** [max(a, x)] of an int and a float: the first argument unless the
    second is greater. *)
Definition max_int_float (a : Z) (x : float) : num :=
  if int_lt_float a x then NFloat x else NInt a.

(** [z <= t] *)
Definition int_le_num (z : Z) (t : num) : bool :=
  match t with
  | NInt n => z <=? n
  | NFloat f => int_le_float z f
  end.

(** [p + x] for a float [x] *)
Definition num_add_float (p : num) (x : float) : Exc float :=
  match p with
  | NInt n => fn <- float_of_int n ;; Ok (float_add fn x)
  | NFloat f => Ok (float_add f x)
  end.

(** [p > 0] *)
Definition num_is_positive (p : num) : bool :=
  match p with
  | NInt n => 0 <? n
  | NFloat f => float_ltb (S754_zero false) f
  end.

(** [range(a, b)] *)
Definition range (a b : Z) : list Z :=
  List.map (fun i => a + Z.of_nat i) (seq 0 (Z.to_nat (b - a))).

(** [n ** 0.5] for an int [n]: the C library's [pow] at exponent one
    half, taken as the IEEE square root. *)
Definition int_pow_half (n : Z) : Exc float :=
  fn <- float_of_int n ;; Ok (SFsqrt prec emax fn).

(** ** [sorted(l, key=key, reverse=True)]

    The sort is stable, also when reversed: elements with equal keys keep
    the order they had in [l].  Modelled as the insertion sort with that
    behaviour. *)
Fixpoint insert_reverse {A : Type} (key : A -> Z) (x : A) (l : list A) : list A :=
  match l with
  | [] => [x]
  | y :: l' => if key x <? key y then y :: insert_reverse key x l' else x :: l
  end.

Fixpoint sorted_reverse {A : Type} (key : A -> Z) (l : list A) : list A :=
  match l with
  | [] => []
  | x :: l' => insert_reverse key x (sorted_reverse key l')
  end.

(** ** [dict] with [str] keys

    Insertion-ordered: assigning to a key that is present replaces its
    value where it stands, a new key goes to the end. *)
Definition dict (V : Type) : Type := list (str * V).

Fixpoint dict_set {V : Type} (k : str) (v : V) (d : dict V) : dict V :=
  match d with
  | [] => [(k, v)]
  | (k', v') :: d' =>
      if str_eqb k' k then (k', v) :: d' else (k', v') :: dict_set k v d'
  end.

Definition dict_values {V : Type} (d : dict V) : list V := List.map snd d.

Fixpoint dict_lookup {V : Type} (k : str) (d : dict V) : option V :=
  match d with
  | [] => None
  | (k', v') :: d' => if str_eqb k' k then Some v' else dict_lookup k d'
  end.

(** [d.get(k, default)] *)
Definition dict_get {V : Type} (k : str) (default : V) (d : dict V) : V :=
  match dict_lookup k d with
  | Some v => v
  | None => default
  end.

End Py.

(* ===================================================================== *)
(** * The image library's objects                                         *)
(* ===================================================================== *)

Module PIL.

(** A decoded raster image: its mode ([RGB], [RGBA], [P], ...), its size
    in pixels and its pixel store. *)
Record Image : Type := {
  mode : Py.str;
  size : Z * Z;
  pixels : list N
}.

End PIL.

(* ===================================================================== *)
(** * scoring.py                                                          *)
(* ===================================================================== *)

Module Scoring.
Import Py.

(** What a rule function hands back: a [bool], an [int], a [float], or
    any other object. *)
Inductive value : Type :=
| VBool (b : bool)
| VInt (n : Z)
| VFloat (f : float)
| VObject.

(** The keyword arguments every rule is called with. *)
Record Context : Type := {
  img : option PIL.Image;
  width : Z;
  height : Z;
  url : str;
  alt_text : str;
  css_classes : str;
  element_id : str;
  parent_classes : list str;
  kwargs : dict str
}.

Definition rule_func : Type := Context -> Exc value.

(** An entry of [ScoringEngine.rules]: (rule_func, rule_label, rule_value). *)
Definition rule_entry : Type := (rule_func * str * Z)%type.

(** The [isinstance] cascade of [calculate_score]. *)
Definition score_contribution (rule_value : Z) (rule_applies : value) : Exc Z :=
  match rule_applies with
  | VBool b => Ok (if b then rule_value else 0)
  | VInt n => Ok (rule_value * n)
  | VFloat f => p <- int_mul_float rule_value f ;; int_of_float p
  | VObject => Ok 0
  end.

(** (total_score, rule_details) *)
Definition state : Type := (Z * list (str * Z))%type.

(** One turn of the loop over [self.rules], with its [try]/[except]. *)
Definition apply_rule (ctx : Context) (st : state) (entry : rule_entry) : Exc state :=
  let '(rule, rule_label, rule_value) := entry in
  let '(total_score, rule_details) := st in
  try_except
    (rule_applies <- rule ctx ;;
     contribution <- score_contribution rule_value rule_applies ;;
     if negb (contribution =? 0)
     then Ok (total_score + contribution,
              rule_details ++ [(rule_label, contribution)])
     else Ok st)
    (fun _ => Ok st).

Fixpoint for_rules (ctx : Context) (rules : list rule_entry) (st : state) : Exc state :=
  match rules with
  | [] => Ok st
  | entry :: rest => st' <- apply_rule ctx st entry ;; for_rules ctx rest st'
  end.

Definition calculate_score (rules : list rule_entry) (ctx : Context) : Exc state :=
  for_rules ctx rules (0, []).

End Scoring.

(* ===================================================================== *)
(** * rules/dimensions/penalty.py                                         *)
(* ===================================================================== *)

Module DimensionsPenalty.
Import Py Scoring.

Definition very_small_images (c : Context) : Exc value :=
  if (width c =? 0) || (height c =? 0) then Ok (VInt 0)
  else
    let max_dimension := Z.max (width c) (height c) in
    if max_dimension <? 16 then Ok (VFloat (float_lit 1 1))
    else if max_dimension <? 24 then Ok (VFloat (float_lit 67 100))
    else if max_dimension <? 32 then Ok (VFloat (float_lit 33 100))
    else Ok (VBool false).

Definition extremely_wide_aspect_ratio (c : Context) : Exc value :=
  if (width c =? 0) || (height c =? 0) then Ok (VInt 0)
  else
    aspect_ratio <-
      int_true_div (Z.max (width c) (height c)) (Z.min (width c) (height c)) ;;
    if float_ltb (float_lit 8 1) aspect_ratio then Ok (VFloat (float_lit 1 1))
    else if float_ltb (float_lit 6 1) aspect_ratio then Ok (VFloat (float_lit 75 100))
    else if float_ltb (float_lit 5 1) aspect_ratio then Ok (VFloat (float_lit 5 10))
    else Ok (VBool false).

Definition social_dimensions : list (Z * Z) :=
  [(1200, 630); (1200, 628); (1024, 512); (1200, 675);
   (1080, 1080); (1080, 1920); (1200, 1200)].

Fixpoint social_media_loop (width height : Z) (dims : list (Z * Z)) : Exc value :=
  match dims with
  | [] => Ok (VBool false)
  | (social_w, social_h) :: rest =>
      w_tolerance <- int_mul_float social_w (float_lit 5 100) ;;
      h_tolerance <- int_mul_float social_h (float_lit 5 100) ;;
      if int_le_float (Z.abs (width - social_w)) w_tolerance
         && int_le_float (Z.abs (height - social_h)) h_tolerance
      then
        aspect_ratio <- int_true_div (Z.max width height) (Z.min width height) ;;
        if float_ltb (float_lit 15 10) aspect_ratio
        then Ok (VFloat (float_lit 1 1))
        else Ok (VFloat (float_lit 33 100))
      else social_media_loop width height rest
  end.

Definition social_media_dimensions (c : Context) : Exc value :=
  if (width c =? 0) || (height c =? 0) then Ok (VInt 0)
  else social_media_loop (width c) (height c) social_dimensions.

Definition banner_dimensions_list : list (Z * Z) :=
  [(728, 90); (300, 250); (336, 280); (320, 50); (468, 60);
   (234, 60); (120, 600); (160, 600); (300, 600)].

Fixpoint banner_loop (width height : Z) (dims : list (Z * Z)) : Exc value :=
  match dims with
  | [] => Ok (VBool false)
  | (banner_w, banner_h) :: rest =>
      w_scaled <- int_mul_float banner_w (float_lit 1 10) ;;
      h_scaled <- int_mul_float banner_h (float_lit 1 10) ;;
      let w_tolerance := max_int_float 5 w_scaled in
      let h_tolerance := max_int_float 5 h_scaled in
      if int_le_num (Z.abs (width - banner_w)) w_tolerance
         && int_le_num (Z.abs (height - banner_h)) h_tolerance
      then Ok (VBool true)
      else banner_loop width height rest
  end.

Definition banner_dimensions (c : Context) : Exc value :=
  if (width c =? 0) || (height c =? 0) then Ok (VInt 0)
  else banner_loop (width c) (height c) banner_dimensions_list.

(** The nested helper of [odd_dimensions]. *)
Definition is_odd_dimension (n : Z) : Exc bool :=
  if 100 <? n then
    root <- int_pow_half n ;;
    k <- int_of_float root ;;
    Ok (forallb (fun i => negb (n mod i =? 0)) (range 2 (k + 1)))
  else Ok false.

Definition pair_eqb (a b : Z * Z) : bool :=
  (fst a =? fst b) && (snd a =? snd b).

Definition odd_dimensions (c : Context) : Exc value :=
  if (width c =? 0) || (height c =? 0) then Ok (VInt 0)
  else
    let penalty := NInt 0 in
    odd_w <- is_odd_dimension (width c) ;;
    odd <- (if odd_w then Ok true else is_odd_dimension (height c)) ;;
    penalty <- (if odd then p <- num_add_float penalty (float_lit 5 10) ;; Ok (NFloat p)
                else Ok penalty) ;;
    penalty <-
      (if (width c =? 150) && (height c =? 150)
       then p <- num_add_float penalty (float_lit 1 1) ;; Ok (NFloat p)
       else if existsb (pair_eqb (width c, height c))
                 [(120, 120); (240, 240); (360, 360)]
       then p <- num_add_float penalty (float_lit 75 100) ;; Ok (NFloat p)
       else Ok penalty) ;;
    if num_is_positive penalty
    then Ok (match penalty with NInt n => VInt n | NFloat f => VFloat f end)
    else Ok (VBool false).

End DimensionsPenalty.

(* ===================================================================== *)
(** * rules/dimensions/bonus.py                                           *)
(* ===================================================================== *)

Module DimensionsBonus.
Import Py Scoring.

Definition standard_sizes : list (Z * Z) :=
  [(128, 128); (152, 152); (167, 167); (180, 180);
   (192, 192); (256, 256); (512, 512)].

Definition apple_touch_icon_sizes (c : Context) : Exc value :=
  if (width c =? 0) || (height c =? 0) then Ok (VInt 0)
  else
    let current_size := (width c, height c) in
    if existsb (DimensionsPenalty.pair_eqb current_size) standard_sizes
    then Ok (VFloat (float_lit 1 1))
    else
      let tolerance := 2 in
      if existsb (fun std => (Z.abs (width c - fst std) <=? tolerance)
                             && (Z.abs (height c - snd std) <=? tolerance))
                 standard_sizes
      then Ok (VFloat (float_lit 8 10))
      else Ok (VInt 0).

End DimensionsBonus.

(* ===================================================================== *)
(** * hunter.py                                                           *)
(* ===================================================================== *)

Module Hunter.
Import Py.

Record Icon : Type := {
  url : str;
  width : Z;
  height : Z;
  format : str;
  alt_text : str;
  css_classes : str;
  element_id : str;
  parent_classes : list str;
  score : Z;
  rule_details : list (str * Z)
}.

(** An element of the parsed document: its attributes, a value-less
    attribute reading as [None]. *)
Record Node : Type := {
  tag : str;
  attributes : dict (option str)
}.

(** What the HTTP client hands back: whether [raise_for_status] raises,
    [headers.get("Content-Type", "")] and the body. *)
Record Response : Type := {
  status_error : bool;
  content_type : str;
  content : bytes
}.

(** [Image.Image | str]: a decoded raster image or SVG markup. *)
Inductive Logo : Type :=
| Raster (image : PIL.Image)
| Svg (text : str).

(** ** _extract_dimensions *)

Section ExtractDimensions.

Variable unicode_digit : N -> option (option Z).
Variable int_max_str_digits : nat.

(** The character class of [re.split(r"[x×]", ...)]. *)
Definition is_x_or_times (c : N) : bool := ((c =? 120) || (c =? 215))%N.

(** [int("".join(c for c in part if c.isdigit()))] *)
Definition digits_int (part : str) : Exc Z :=
  int_of_str unicode_digit int_max_str_digits (List.filter (isdigit unicode_digit) part).

Definition size_key (size_str : str) : Z :=
  match split_on is_x_or_times size_str with
  | [m0; m1] =>
      value_or (w <- digits_int m0 ;; h <- digits_int m1 ;; Ok (w * h)) 0
  | _ => 0
  end.

(** SIZE_REGEX, [(?P<width>\d{2,4})x(?P<height>\d{2,4})] with
    IGNORECASE, tried at the head of [s]: both groups greedy, the longest
    count first. *)
Definition SIZE_REGEX_match (s : str) : option (str * str) :=
  first_some
    (fun n =>
       match take_digits unicode_digit n s with
       | Some (w, c :: rest) =>
           if ((c =? 120) || (c =? 88))%N then
             first_some
               (fun m =>
                  match take_digits unicode_digit m rest with
                  | Some (h, _) => Some (w, h)
                  | None => None
                  end)
               [4; 3; 2]%nat
           else None
       | _ => None
       end)
    [4; 3; 2]%nat.

(** [SIZE_REGEX.search(s)]: the match at the leftmost position. *)
Fixpoint SIZE_REGEX_search (s : str) : option (str * str) :=
  match SIZE_REGEX_match s with
  | Some m => Some m
  | None =>
      match s with
      | [] => None
      | _ :: s' => SIZE_REGEX_search s'
      end
  end.

(** The [sizes] branch: [Some] when it returns, [None] when control falls
    through to the href branch. *)
Definition dimensions_from_sizes (sizes : option str) : option (Z * Z) :=
  match sizes with
  | Some s =>
      if truthy sizes && negb (str_eqb (lower s) (lit "any")) then
        let size_list := sorted_reverse size_key (split_on (N.eqb 32) s) in
        match size_list with
        | first :: _ =>
            match split_on is_x_or_times first with
            | [m0; m1] =>
                match (width <- digits_int m0 ;;
                       height <- digits_int m1 ;;
                       Ok (width, height)) with
                | Ok wh => Some wh
                | Raise _ => None
                end
            | _ => None
            end
        | [] => None
        end
      else None
  | None => None
  end.

Definition dimensions_from_href (href : option str) : Z * Z :=
  match href with
  | Some h =>
      if truthy href then
        match SIZE_REGEX_search h with
        | Some (wd, hd) =>
            value_or (width <- int_of_str unicode_digit int_max_str_digits wd ;;
                      height <- int_of_str unicode_digit int_max_str_digits hd ;;
                      Ok (width, height)) (0, 0)
        | None => (0, 0)
        end
      else (0, 0)
  | None => (0, 0)
  end.

(** [attributes.get("href", "") or attributes.get("content", "")] *)
Definition href_or_content (element : Node) : option str :=
  let h := dict_get (lit "href") empty (attributes element) in
  if truthy h then h
  else dict_get (lit "content") empty (attributes element).

Definition _extract_dimensions (element : Node) : Z * Z :=
  let sizes := dict_get (lit "sizes") empty (attributes element) in
  match dimensions_from_sizes sizes with
  | Some wh => wh
  | None => dimensions_from_href (href_or_content element)
  end.

End ExtractDimensions.

(** ** _validate_icon *)

Definition _validate_icon (icon : Icon) (image : PIL.Image) : bool :=
  value_or
    (let '(width, height) := PIL.size image in
     rejected <-
       (if (0 <? width) && (0 <? height) then
          aspect_ratio <- int_true_div (Z.max width height) (Z.min width height) ;;
          Ok (float_ltb (float_lit 2 1) aspect_ratio)
        else Ok false) ;;
     if rejected : bool then Ok false
     else if Z.max width height <? 16 then Ok false
     else if str_eqb (lower (format icon)) (lit "svg") then Ok true
     else if 2048 * 2048 <? width * height then Ok false
     else Ok true)
    false.

(** ** find_logo_urls and find_logo_candidates *)

Section Ranking.

(** The collaborators: the HTTP client's [get], the image decoder
    [Image.open], the rule table of the process-wide scoring engine, and
    the two discovery steps ([_find_icons_from_html] on the fetched root
    page, empty when the fetch fails, and [_get_fallback_icons]). *)
Variable client_get : str -> Exc Response.
Variable image_open : bytes -> Exc PIL.Image.
Variable rules : list Scoring.rule_entry.
Variable html_icons_of : str -> list Icon.
Variable fallback_icons_of : str -> list Icon.

Definition _calculate_score_with_rules (icon : Icon) : Exc (Z * list (str * Z)) :=
  try_except
    (response <- client_get (url icon) ;;
     let img_data := content response in
     let content_type := content_type response in
     '(svg_content, img, actual_width, actual_height) <-
       (if contains content_type (lit "svg") then
          svg_content <- decode_utf8 img_data ;;
          Ok (svg_content, None, int_or (width icon) 100, int_or (height icon) 100)
        else
          img <- image_open img_data ;;
          Ok ([], Some img, fst (PIL.size img), snd (PIL.size img))) ;;
     let width := if negb (actual_width =? 0) then actual_width else width icon in
     let height := if negb (actual_height =? 0) then actual_height else height icon in
     Scoring.calculate_score rules
       {| Scoring.img := img;
          Scoring.width := width;
          Scoring.height := height;
          Scoring.url := url icon;
          Scoring.alt_text := alt_text icon;
          Scoring.css_classes := css_classes icon;
          Scoring.element_id := element_id icon;
          Scoring.parent_classes := parent_classes icon;
          Scoring.kwargs := [(lit "svg_content", svg_content)] |})
    (fun _ =>
       Scoring.calculate_score rules
         {| Scoring.img := None;
            Scoring.width := width icon;
            Scoring.height := height icon;
            Scoring.url := url icon;
            Scoring.alt_text := alt_text icon;
            Scoring.css_classes := css_classes icon;
            Scoring.element_id := element_id icon;
            Scoring.parent_classes := parent_classes icon;
            Scoring.kwargs := [(lit "svg_content", [])] |}).

(** [list({icon.url: icon for icon in all_icons}.values())] *)
Definition unique_icons (all_icons : list Icon) : list Icon :=
  dict_values
    (fold_left (fun d icon => dict_set (url icon) icon d) all_icons []).

(** The scoring loop: each icon rebuilt with its score and rule details. *)
Fixpoint score_icons (icons : list Icon) : Exc (list Icon) :=
  match icons with
  | [] => Ok []
  | icon :: rest =>
      '(score, rule_details) <- _calculate_score_with_rules icon ;;
      let scored_icon :=
        {| url := url icon;
           width := width icon;
           height := height icon;
           format := format icon;
           alt_text := alt_text icon;
           css_classes := css_classes icon;
           element_id := element_id icon;
           parent_classes := parent_classes icon;
           score := score;
           rule_details := rule_details |} in
      scored_icons <- score_icons rest ;;
      Ok (scored_icon :: scored_icons)
  end.

Definition find_logo_candidates (domain : str) : Exc (list Icon) :=
  let all_icons := html_icons_of domain ++ fallback_icons_of domain in
  let unique_icons := unique_icons all_icons in
  scored_icons <- score_icons unique_icons ;;
  let sorted_icons := sorted_reverse score scored_icons in
  Ok sorted_icons.

Definition find_logo_urls (domain : str) : Exc (list str) :=
  let all_icons := html_icons_of domain ++ fallback_icons_of domain in
  let unique_icons := unique_icons all_icons in
  scored_icons <- score_icons unique_icons ;;
  let sorted_icons := sorted_reverse score scored_icons in
  Ok (List.map url sorted_icons).

(** ** fetch_best_logo *)

Definition valid_types : list str :=
  [lit "image/png"; lit "image/svg+xml"; lit "image/webp"; lit "image/x-icon";
   lit "image/jpeg"; lit "image/jpg"; lit "image/gif"].

(** The inner [fetch_and_validate]: [None] for a candidate that is
    skipped, else the logo and its size figure. *)
Definition fetch_and_validate (logo_url : str) : option (Logo * Z) :=
  value_or
    (response <- client_get logo_url ;;
     _ <- (if status_error response then Raise HTTPError else Ok tt) ;;
     let content_type := content_type response in
     if existsb (fun t => contains content_type t) valid_types then
       Ok (value_or
             (if contains content_type (lit "svg") then
                svg_content <- decode_utf8 (content response) ;;
                Ok (Some (Svg svg_content, 100000))
              else
                image <- image_open (content response) ;;
                let size := fst (PIL.size image) * snd (PIL.size image) in
                Ok (Some (Raster image, size)))
             None)
     else Ok None)
    None.

Fixpoint try_urls (logo_urls : list str) : option Logo :=
  match logo_urls with
  | [] => None
  | url :: rest =>
      match fetch_and_validate url with
      | Some (image, _) => Some image
      | None => try_urls rest
      end
  end.

Definition fetch_best_logo (logo_urls : list str) : option Logo :=
  match logo_urls with
  | [] => None
  | _ :: _ => try_urls logo_urls
  end.

End Ranking.

(** ** process_image *)

Section ProcessImage.

(** The image library's operations: [image.resize(size, LANCZOS)],
    [Image.new(mode, size, color)], [image.convert(mode)],
    [image.split()], [background.paste(image, mask=mask)] (the pasted-on
    background is the result) and [image.save(buffer, format=...)] (the
    buffer's bytes are the result). *)
Variable resize : PIL.Image -> Z * Z -> Exc PIL.Image.
Variable new_image : str -> Z * Z -> Z * Z * Z -> PIL.Image.
Variable convert : PIL.Image -> str -> Exc PIL.Image.
Variable split : PIL.Image -> list PIL.Image.
Variable paste : PIL.Image -> PIL.Image -> option PIL.Image -> Exc PIL.Image.
Variable save : PIL.Image -> str -> Exc bytes.

(** [bands[-1]] *)
Definition last_band (bands : list PIL.Image) : Exc PIL.Image :=
  match rev bands with
  | b :: _ => Ok b
  | [] => Raise IndexError
  end.

(** The block under [if save_format == "JPEG" and image.mode in ("RGBA", "P")]. *)
Definition flatten_on_white (image : PIL.Image) : Exc PIL.Image :=
  let background := new_image (lit "RGB") (PIL.size image) (255, 255, 255) in
  image <- (if str_eqb (PIL.mode image) (lit "P")
            then convert image (lit "RGBA") else Ok image) ;;
  mask <- (if str_eqb (PIL.mode image) (lit "RGBA")
           then b <- last_band (split image) ;; Ok (Some b)
           else Ok None) ;;
  paste background image mask.

Definition process_image (image : Logo) (output_format : str)
    (resize_to : option (Z * Z)) : Exc bytes :=
  match image with
  | Svg text => encode_utf8 text
  | Raster image =>
      image <- (match resize_to with
                | Some size => resize image size
                | None => Ok image
                end) ;;
      let save_format := upper output_format in
      let save_format :=
        if str_eqb save_format (lit "JPG") then lit "JPEG" else save_format in
      image <- (if str_eqb save_format (lit "JPEG")
                   && (str_eqb (PIL.mode image) (lit "RGBA")
                       || str_eqb (PIL.mode image) (lit "P"))
                then flatten_on_white image
                else Ok image) ;;
      save image save_format
  end.

End ProcessImage.

End Hunter.

(* ===================================================================== *)
(** * Reference functions the properties are stated with                  *)
(* ===================================================================== *)

Module Spec.
Import Py Scoring.

(** What one table entry adds to the score of [ctx]: the value of the
    [try] block of the loop, 0 when the block raises. *)
Definition contribution_of (ctx : Context) (entry : rule_entry) : Z :=
  let '(rule, _, rule_value) := entry in
  value_or (rule_applies <- rule ctx ;; score_contribution rule_value rule_applies) 0.

(** The entries of the contribution list, in table order. *)
Definition details_of (ctx : Context) (rules : list rule_entry) : list (str * Z) :=
  flat_map
    (fun entry =>
       let c := contribution_of ctx entry in
       if c =? 0 then [] else [(snd (fst entry), c)])
    rules.

Definition total (details : list (str * Z)) : Z :=
  fold_right Z.add 0 (List.map snd details).

(** [round(x)]: to the nearest integer, a tie to the even one. *)
Definition round_half_even (q : Q) : Z :=
  let fl := Qfloor q in
  match Qcompare (q - inject_Z fl) (1 # 2) with
  | Lt => fl
  | Gt => fl + 1
  | Eq => if Z.even fl then fl else fl + 1
  end.

(** The contribution formula in the specification's words: the weight
    for [True], nothing for [False], [round(weight * value)] for a
    number. *)
Definition round_contribution (rule_value : Z) (rule_applies : value) : Exc Z :=
  match rule_applies with
  | VBool b => Ok (if b then rule_value else 0)
  | VInt n => Ok (rule_value * n)
  | VFloat f =>
      p <- int_mul_float rule_value f ;;
      if is_finite p then Ok (round_half_even (float_to_Q p))
      else Raise OverflowError
  | VObject => Ok 0
  end.

(** The width and height a token of a [sizes] attribute stands for, when
    it has the shape the program reads: two parts around one [x] or
    multiplication sign, each with a decimal digit in it. *)
Definition parse_size (unicode_digit : N -> option (option Z))
    (int_max_str_digits : nat) (token : str) : option (Z * Z) :=
  match split_on Hunter.is_x_or_times token with
  | [m0; m1] =>
      match Hunter.digits_int unicode_digit int_max_str_digits m0,
            Hunter.digits_int unicode_digit int_max_str_digits m1 with
      | Ok w, Ok h => Some (w, h)
      | _, _ => None
      end
  | _ => None
  end.

(** A match of SIZE_REGEX in [s]: two groups of two to four decimal
    digits around an [x] of either case. *)
Definition is_size_match (unicode_digit : N -> option (option Z)) (s w h : str)
    : Prop :=
  exists before c after,
    s = before ++ w ++ c :: h ++ after
    /\ (c = 120%N \/ c = 88%N)
    /\ (2 <= List.length w <= 4)%nat /\ (2 <= List.length h <= 4)%nat
    /\ Forall (fun c => is_decimal unicode_digit c = true) w
    /\ Forall (fun c => is_decimal unicode_digit c = true) h.

(** [a] may stand before [b] in a list sorted by [key], highest first. *)
Definition key_ge {A : Type} (key : A -> Z) (a b : A) : Prop := key b <= key a.

(** The dictionary the comprehension of [unique_icons] builds. *)
Definition icons_dict (all_icons : list Hunter.Icon) : dict Hunter.Icon :=
  fold_left (fun d icon => dict_set (Hunter.url icon) icon d) all_icons [].

(** The candidate of [all_icons] discovered last under the URL [u]. *)
Definition last_with_url (u : str) (all_icons : list Hunter.Icon) : option Hunter.Icon :=
  find (fun icon => str_eqb (Hunter.url icon) u) (rev all_icons).

(** [scored] is [icon] rebuilt with a score and its rule details. *)
Definition scored_as (icon scored : Hunter.Icon) : Prop :=
  Hunter.url scored = Hunter.url icon
  /\ Hunter.width scored = Hunter.width icon
  /\ Hunter.height scored = Hunter.height icon
  /\ Hunter.format scored = Hunter.format icon
  /\ Hunter.alt_text scored = Hunter.alt_text icon
  /\ Hunter.css_classes scored = Hunter.css_classes icon
  /\ Hunter.element_id scored = Hunter.element_id icon
  /\ Hunter.parent_classes scored = Hunter.parent_classes icon.

(** The rule functions of the two dimension modules. *)
Definition dimension_rules : list rule_func :=
  [DimensionsPenalty.very_small_images;
   DimensionsPenalty.extremely_wide_aspect_ratio;
   DimensionsPenalty.social_media_dimensions;
   DimensionsPenalty.banner_dimensions;
   DimensionsPenalty.odd_dimensions;
   DimensionsBonus.apple_touch_icon_sizes].

End Spec.

(* ===================================================================== *)
(** * Concrete inputs                                                     *)
(* ===================================================================== *)

Module Examples.
Import Py Scoring.

(** The context of a candidate of the given pixel size, with no markup
    around it. *)
Definition ctx_of_size (w h : Z) : Context :=
  {| img := None;
     width := w;
     height := h;
     url := lit "https://example.com/logo.png";
     alt_text := [];
     css_classes := [];
     element_id := [];
     parent_classes := [];
     kwargs := [(lit "svg_content", [])] |}.

Definition label_small : str :=
  lit "dimensions/penalty: Apply penalty for very small images (likely not useful logos)".

Definition label_banner : str :=
  lit "dimensions/penalty: Apply penalty for typical banner/advertisement dimensions".

Definition label_broken : str := lit "html/bonus: broken".

(** Three discovered candidates, the first and the last under one URL
    with different metadata. *)
Definition icon_of (u : string) (w h : Z) (alt : string) : Hunter.Icon :=
  {| Hunter.url := lit u;
     Hunter.width := w;
     Hunter.height := h;
     Hunter.format := lit "png";
     Hunter.alt_text := lit alt;
     Hunter.css_classes := [];
     Hunter.element_id := [];
     Hunter.parent_classes := [];
     Hunter.score := 0;
     Hunter.rule_details := [] |}.

Definition discovered : list Hunter.Icon :=
  [icon_of "https://example.com/logo.png" 0 0 "";
   icon_of "https://example.com/favicon.ico" 16 16 "";
   icon_of "https://example.com/logo.png" 200 60 "Example logo"].

(** Elements as the parser hands them over. *)
Definition link (attrs : list (string * string)) : Hunter.Node :=
  {| Hunter.tag := lit "link";
     Hunter.attributes :=
       List.map (fun kv => (lit (fst kv), Some (lit (snd kv)))) attrs |}.

Definition link_with_sizes : Hunter.Node :=
  link [("rel", "icon"); ("sizes", "192x192 96x96 48x48")]%string.

Definition link_with_sized_href : Hunter.Node :=
  link [("href", "/favicon-256x256.png"); ("sizes", "")]%string.

Definition link_with_href_only : Hunter.Node :=
  link [("rel", "icon"); ("href", "/favicon-256x256.png")]%string.

Definition link_without_size : Hunter.Node :=
  link [("href", "/favicon.png")]%string.

(** A decoded RGB image of the given size. *)
Definition image_of_size (w h : Z) : PIL.Image :=
  {| PIL.mode := lit "RGB"; PIL.size := (w, h); PIL.pixels := [] |}.

(** Servers: one answers every URL with an SVG body under the content
    type [image/svg+xml], one under [image/svg], one sends bytes that
    are no UTF-8 under [image/svg+xml], one sends an HTML page; and a
    decoder that accepts nothing. *)
Definition svg_body : bytes := list_byte_of_string "<svg xmlns='http://www.w3.org/2000/svg'/>".

Definition respond (ctype : string) (body : bytes) (u : str) : Exc Hunter.Response :=
  Ok {| Hunter.status_error := false;
        Hunter.content_type := lit ctype;
        Hunter.content := body |}.

Definition serve_svg : str -> Exc Hunter.Response :=
  respond "image/svg+xml" svg_body.

Definition serve_svg_short_type : str -> Exc Hunter.Response :=
  respond "image/svg" svg_body.

Definition serve_svg_bad_bytes : str -> Exc Hunter.Response :=
  respond "image/svg+xml" [x3c; x73; xff; x3e].

(** Answers [/logo.svg] with SVG and everything else with an HTML page. *)
Definition serve_mixed (u : str) : Exc Hunter.Response :=
  if contains u (lit ".svg") then serve_svg u
  else respond "text/html" (list_byte_of_string "<html></html>") u.

Definition no_decoder (data : bytes) : Exc PIL.Image := Raise OSError.

(** A toy image library: an image is its mode and size, every band of
    an image is a grey image of its size, pasting leaves the background
    as it is, and the JPEG encoder refuses the modes with an alpha
    channel or a palette. *)
Definition toy_resize (image : PIL.Image) (size : Z * Z) : Exc PIL.Image :=
  Ok {| PIL.mode := PIL.mode image; PIL.size := size; PIL.pixels := [] |}.

Definition toy_new (mode : str) (size : Z * Z) (color : Z * Z * Z) : PIL.Image :=
  {| PIL.mode := mode; PIL.size := size; PIL.pixels := [] |}.

Definition toy_convert (image : PIL.Image) (mode : str) : Exc PIL.Image :=
  Ok {| PIL.mode := mode; PIL.size := PIL.size image; PIL.pixels := [] |}.

Definition toy_split (image : PIL.Image) : list PIL.Image :=
  List.map
    (fun _ => {| PIL.mode := lit "L"; PIL.size := PIL.size image; PIL.pixels := [] |})
    (PIL.mode image).

Definition toy_paste (background image : PIL.Image) (mask : option PIL.Image)
    : Exc PIL.Image :=
  Ok background.

Definition toy_save (image : PIL.Image) (fmt : str) : Exc bytes :=
  if str_eqb fmt (lit "JPEG")
     && (str_eqb (PIL.mode image) (lit "RGBA") || str_eqb (PIL.mode image) (lit "P"))
  then Raise OSError
  else Ok (list_byte_of_string "encoded").

Definition rgba_image : PIL.Image :=
  {| PIL.mode := lit "RGBA"; PIL.size := (100, 100); PIL.pixels := [] |}.

(** A rule that raises [ZeroDivisionError] whatever the candidate. *)
Definition broken_rule (c : Context) : Exc value :=
  r <- int_true_div (width c) 0 ;; Ok (VFloat r).

End Examples.

(* ===================================================================== *)
(** * hunter.py: the composed entry point and the discovery helpers       *)
(* ===================================================================== *)

Module Customer.
Import Py Hunter.

Section GetCustomerLogo.

Variable client_get : str -> Exc Response.
Variable image_open : bytes -> Exc PIL.Image.
Variable rules : list Scoring.rule_entry.
Variable html_icons_of : str -> list Icon.
Variable fallback_icons_of : str -> list Icon.
Variable resize : PIL.Image -> Z * Z -> Exc PIL.Image.
Variable new_image : str -> Z * Z -> Z * Z * Z -> PIL.Image.
Variable convert : PIL.Image -> str -> Exc PIL.Image.
Variable split : PIL.Image -> list PIL.Image.
Variable paste : PIL.Image -> PIL.Image -> option PIL.Image -> Exc PIL.Image.
Variable save : PIL.Image -> str -> Exc bytes.

(** [get_customer_logo]: [None] when no URL is found or no logo is
    fetched.  [not best_logo] holds of [None] and of the empty string;
    an image object is always true. *)
Definition get_customer_logo (customer_name_or_domain output_format : str)
    (resize_to : option (Z * Z)) : Exc (option bytes) :=
  logo_urls <- find_logo_urls client_get image_open rules
                 html_icons_of fallback_icons_of customer_name_or_domain ;;
  match logo_urls with
  | [] => Ok None
  | _ :: _ =>
      match fetch_best_logo client_get image_open logo_urls with
      | None => Ok None
      | Some (Svg []) => Ok None
      | Some best_logo =>
          out <- process_image resize new_image convert split paste save
                   best_logo output_format resize_to ;;
          Ok (Some out)
      end
  end.

End GetCustomerLogo.

End Customer.

Module Discovery.
Import Py Hunter.

(** [_get_parent_classes], on the ancestors of the element from its
    parent up to the document root: the class strings of those that have
    attributes and a class attribute that is not empty. *)
Fixpoint _get_parent_classes_loop (ancestors : list Node) (parent_classes : list str)
    : list str :=
  match ancestors with
  | [] => parent_classes
  | current :: above =>
      let parent_classes :=
        match attributes current with
        | [] => parent_classes
        | _ :: _ =>
            let class_attr := dict_get (lit "class") empty (attributes current) in
            match class_attr with
            | Some (c :: cs) => parent_classes ++ [c :: cs]
            | _ => parent_classes
            end
        end in
      _get_parent_classes_loop above parent_classes
  end.

Definition _get_parent_classes (ancestors : list Node) : list str :=
  _get_parent_classes_loop ancestors [].

(** What a HEAD request hands back: the status code and the URL after
    the redirects. *)
Record HeadResponse : Type := {
  status_code : Z;
  final_url : str
}.

Definition FALLBACK_LOCATIONS : list str :=
  [lit "/favicon.svg"; lit "/logo.svg"; lit "/icon.svg";
   lit "/favicon-512x512.png"; lit "/apple-touch-icon.png";
   lit "/apple-touch-icon-precomposed.png"; lit "/favicon.ico"].

(** [path.split(".")[-1].lower() if "." in path else ""], for the
    paths of FALLBACK_LOCATIONS, which are ASCII. *)
Definition format_of_path (path : str) : str :=
  if contains path (lit ".")
  then lower (List.last (split_on (N.eqb 46) path) [])
  else [].

Section FallbackIcons.

Variable unicode_digit : N -> option (option Z).
Variable int_max_str_digits : nat.

(** [urllib.parse.urljoin], which raises [ValueError] on a base it
    cannot parse, and the client's [head] with redirects followed. *)
Variable urljoin : str -> str -> Exc str.
Variable client_head : str -> Exc HeadResponse.

(** The dimensions [_get_fallback_icons] gives a path: those of the
    filename pattern, the width alone when the height does not convert,
    180x180 for an apple-touch-icon path without a width. *)
Definition fallback_dimensions (path : str) : Z * Z :=
  let '(width, height) :=
    match SIZE_REGEX_search unicode_digit path with
    | Some (wd, hd) =>
        match int_of_str unicode_digit int_max_str_digits wd with
        | Ok w =>
            match int_of_str unicode_digit int_max_str_digits hd with
            | Ok h => (w, h)
            | Raise _ => (w, 0)
            end
        | Raise _ => (0, 0)
        end
    | None => (0, 0)
    end in
  if contains path (lit "apple-touch-icon") && (width =? 0)
  then (180, 180)
  else (width, height).

(** [Icon(str(response.url), width, height, format_ext)], the other
    fields at their defaults. *)
Definition fallback_icon_of (response : HeadResponse) (path : str) : Icon :=
  let format_ext := format_of_path path in
  let '(width, height) := fallback_dimensions path in
  {| Hunter.url := final_url response;
     Hunter.width := width;
     Hunter.height := height;
     Hunter.format := format_ext;
     Hunter.alt_text := [];
     Hunter.css_classes := [];
     Hunter.element_id := [];
     Hunter.parent_classes := [];
     Hunter.score := 0;
     Hunter.rule_details := [] |}.

(** One turn of the loop over FALLBACK_LOCATIONS: the handler joins the
    URL again for its log line, outside any [try]. *)
Definition fallback_icon (base_url path : str) (icons : list Icon)
    : Exc (list Icon) :=
  try_except
    (url <- urljoin base_url path ;;
     response <- client_head url ;;
     if status_code response =? 200
     then Ok (icons ++ [fallback_icon_of response path])
     else Ok icons)
    (fun _ => url <- urljoin base_url path ;; Ok icons).

Fixpoint fallback_loop (base_url : str) (paths : list str) (icons : list Icon)
    : Exc (list Icon) :=
  match paths with
  | [] => Ok icons
  | path :: rest =>
      icons' <- fallback_icon base_url path icons ;;
      fallback_loop base_url rest icons'
  end.

Definition _get_fallback_icons (domain : str) : Exc (list Icon) :=
  let base_url := lit "https://" ++ domain in
  fallback_loop base_url FALLBACK_LOCATIONS [].

End FallbackIcons.

End Discovery.

(* ===================================================================== *)
(** * rules/html/bonus.py and rules/html/penalty.py                       *)
(* ===================================================================== *)

(** The rules lower-case their input and look for ASCII keywords in it.
    [Py.lower] leaves code points above 127 alone, where Python's
    [str.lower] maps two of them to ASCII letters: the Kelvin sign to
    [k], and the dotted capital I to [i] followed by a combining dot.
    None of the keywords below has a [k], and after that [i] no keyword
    can go on, so each test [keyword in s.lower()] has the same answer. *)
Module HtmlRules.
Import Py Scoring.

(** [for keyword in keywords: if keyword in s: ...] *)
Definition any_keyword (keywords : list str) (s : str) : bool :=
  existsb (fun keyword => contains s keyword) keywords.

(** [s and keyword in s.lower()]: the empty string itself when [s] is
    empty, else the truth value. *)
Definition and_keyword (s keyword : str) : value :=
  match s with
  | [] => VObject
  | _ :: _ => VBool (contains (lower s) keyword)
  end.

(** A parent class string that is not empty and holds one of the patterns. *)
Definition parent_matches (patterns : list str) (parent_class_string : str) : bool :=
  match parent_class_string with
  | [] => false
  | _ :: _ => any_keyword patterns (lower parent_class_string)
  end.

(** [s.endswith(suffix)] *)
Definition endswith (s suffix : str) : bool := startswith (rev s) (rev suffix).

Section Rules.

(** [urlparse(url).path] *)
Variable url_path : str -> str.

(** What [single_color_svg] does after its two guards: it collects the
    colours of [svg_content] with regular expressions and answers from
    their number; it reads nothing else of the candidate. *)
Variable color_verdict : str -> Exc value.

Definition logo_in_filename (c : Context) : Exc value :=
  let filename := lower (url_path (url c)) in
  Ok (VBool (contains filename (lit "logo"))).

Definition logo_in_alt_text (c : Context) : Exc value :=
  Ok (and_keyword (alt_text c) (lit "logo")).

Definition logo_in_css_classes (c : Context) : Exc value :=
  Ok (and_keyword (css_classes c) (lit "logo")).

Definition logo_in_element_id (c : Context) : Exc value :=
  Ok (and_keyword (element_id c) (lit "logo")).

Definition brand_keyword_list : list str :=
  [lit "brand"; lit "icon"; lit "header-logo"; lit "site-logo"; lit "company-logo"].

(** One attribute of [brand_keywords]: 1 when it is not empty and holds
    a keyword. *)
Definition attribute_match (keywords : list str) (s : str) : Z :=
  match s with
  | [] => 0
  | _ :: _ => if any_keyword keywords (lower s) then 1 else 0
  end.

Definition brand_keywords (c : Context) : Exc value :=
  let keywords := brand_keyword_list in
  let matches := 0 in
  let filename := lower (url_path (url c)) in
  let matches := if any_keyword keywords filename then matches + 1 else matches in
  let matches := matches + attribute_match keywords (alt_text c) in
  let matches := matches + attribute_match keywords (css_classes c) in
  let matches := matches + attribute_match keywords (element_id c) in
  Ok (VInt matches).

Definition logo_patterns : list str :=
  [lit "logo"; lit "brand"; lit "header"; lit "navbar"; lit "nav";
   lit "masthead"; lit "banner"].

Definition parent_logo_context (c : Context) : Exc value :=
  Ok (VBool (existsb (parent_matches logo_patterns) (parent_classes c))).

Definition header_proximity (c : Context) : Exc value :=
  let depth := Z.of_nat (List.length (parent_classes c)) in
  if depth <=? 3 then Ok (VFloat (float_lit 1 1))
  else if depth <=? 5 then Ok (VFloat (float_lit 67 100))
  else if depth <=? 8 then Ok (VFloat (float_lit 33 100))
  else Ok (VInt 0).

Definition social_keywords : list str :=
  [lit "og:image"; lit "twitter:image"; lit "social"; lit "share"; lit "preview"].

Definition social_media_context (c : Context) : Exc value :=
  let filename := lower (url_path (url c)) in
  if any_keyword social_keywords filename then Ok (VBool true)
  else if match alt_text c with
          | [] => false
          | _ :: _ => any_keyword social_keywords (lower (alt_text c))
          end then Ok (VBool true)
  else if match css_classes c with
          | [] => false
          | _ :: _ => any_keyword social_keywords (lower (css_classes c))
          end then Ok (VBool true)
  else Ok (VBool false).

Definition generic_names : list str :=
  [lit "pic"; lit "photo"; lit "picture"; lit "default"; lit "placeholder"].

Definition generic_image_names (c : Context) : Exc value :=
  let filename := lower (url_path (url c)) in
  Ok (VBool (any_keyword generic_names filename)).

Definition deep_dom_nesting (c : Context) : Exc value :=
  let depth := Z.of_nat (List.length (parent_classes c)) in
  if 15 <? depth then Ok (VFloat (float_lit 1 1))
  else if 12 <? depth then Ok (VFloat (float_lit 5 10))
  else if 10 <? depth then Ok (VFloat (float_lit 25 100))
  else Ok (VBool false).

Definition content_patterns : list str :=
  [lit "content"; lit "article"; lit "post"; lit "blog"; lit "main";
   lit "body"; lit "text"].

Definition content_area_context (c : Context) : Exc value :=
  Ok (VBool (existsb (parent_matches content_patterns) (parent_classes c))).

Definition ad_patterns : list str :=
  [lit "advertisement"; lit "banner"; lit "promo"; lit "sponsor"; lit "affiliate"].

Definition advertisement_context (c : Context) : Exc value :=
  let filename := lower (url_path (url c)) in
  if any_keyword ad_patterns filename then Ok (VBool true)
  else if match alt_text c with
          | [] => false
          | _ :: _ => any_keyword ad_patterns (lower (alt_text c))
          end then Ok (VBool true)
  else if match css_classes c with
          | [] => false
          | _ :: _ => any_keyword ad_patterns (lower (css_classes c))
          end then Ok (VBool true)
  else if existsb (parent_matches ad_patterns) (parent_classes c)
  then Ok (VBool true)
  else Ok (VBool false).

(** [single_color_svg]: the guards on the URL and on the SVG text. *)
Definition single_color_svg (c : Context) : Exc value :=
  if negb (endswith (lower (url c)) (lit ".svg"))
     && negb (contains (lower (url c)) (lit "svg"))
  then Ok (VBool false)
  else
    let svg_content := dict_get (lit "svg_content") [] (kwargs c) in
    match svg_content with
    | [] => Ok (VBool false)
    | _ :: _ => color_verdict svg_content
    end.

End Rules.

End HtmlRules.

(* ===================================================================== *)
(** * logohunt.py: the URLs shown by the command-line tool                *)
(* ===================================================================== *)

Module Cli.
Import Py.

(** [s[:n]] and [s[-n:]] for a positive [n] *)
Definition first_chars (n : nat) (s : str) : str := firstn n s.
Definition last_chars (n : nat) (s : str) : str := skipn (List.length s - n) s.

(** The URL line of [create_candidate_panel]. *)
Definition candidate_panel_url (url : str) : str :=
  if (80 <? List.length url)%nat
  then first_chars 40 url ++ lit "..." ++ last_chars 37 url
  else url.

(** The URL in the panel title of [display_detailed_scoring]. *)
Definition detailed_scoring_url (display_url : str) : str :=
  if (60 <? List.length display_url)%nat
  then first_chars 30 display_url ++ lit "..." ++ last_chars 27 display_url
  else display_url.

End Cli.

(* ===================================================================== *)
(** * scoring.py: loading the rules of a module                           *)
(* ===================================================================== *)

Module Loader.
Import Py Scoring.

(** What [getattr(module, attr_name)] is for a name of [dir(module)]: a
    callable whose [__module__] is the module's name, with its
    [__doc__], or anything else (an imported name, a constant).  A
    callable that is no rule function, such as a class, is a
    [rule_func] that raises or answers [VObject]. *)
Inductive attribute : Type :=
| Function (attr : rule_func) (doc : option str)
| Other.

(** The names of [dir(module)], in its order, with their attributes. *)
Definition module : Type := list (str * attribute).

(** [str.isspace] of one character. *)
Definition is_space (c : N) : bool :=
  (in_range 9 13 c || in_range 28 32 c || (c =? 133) || (c =? 160)
   || (c =? 5760) || in_range 8192 8202 c || (c =? 8232) || (c =? 8233)
   || (c =? 8239) || (c =? 8287) || (c =? 12288))%N.

Fixpoint lstrip (s : str) : str :=
  match s with
  | c :: s' => if is_space c then lstrip s' else s
  | [] => []
  end.

(** [s.strip()] *)
Definition strip (s : str) : str := rev (lstrip (rev (lstrip s))).

(** [attr.__doc__.strip() if attr.__doc__ else attr_name] *)
Definition description_of (attr_name : str) (doc : option str) : str :=
  match doc with
  | Some (c :: d) => strip (c :: d)
  | _ => attr_name
  end.

(** One turn of the loop over [dir(module)]. *)
Definition load_attribute (category rule_type : str) (rule_values : dict Z)
    (rules : list rule_entry) (entry : str * attribute) : list rule_entry :=
  let '(attr_name, attr) := entry in
  if startswith attr_name (lit "_") then rules
  else
    match attr with
    | Function attr doc =>
        let description := description_of attr_name doc in
        let rule_label :=
          category ++ lit "/" ++ rule_type ++ lit ": " ++ description in
        let rule_value := dict_get attr_name 0 rule_values in
        rules ++ [(attr, rule_label, rule_value)]
    | Other => rules
    end.

(** [_load_rules_from_module], from [self.rules] before the call to
    [self.rules] after it. *)
Definition _load_rules_from_module (module : module) (category rule_type : str)
    (rule_values : dict Z) (rules : list rule_entry) : list rule_entry :=
  fold_left (load_attribute category rule_type rule_values) module rules.

End Loader.

(* ===================================================================== *)
(** * Further reference functions and inputs                              *)
(* ===================================================================== *)

Module SpecMore.
Import Py.

(** A code point the UTF-8 encoder accepts: below U+110000 and no
    surrogate. *)
Definition is_scalar_value (c : N) : Prop :=
  (c < 55296 \/ 57343 < c < 1114112)%N.

(** The candidate URLs discovered for a domain, before deduplication. *)
Definition discovered_urls (html_icons_of fallback_icons_of : str -> list Hunter.Icon)
    (domain : str) : list str :=
  List.map Hunter.url (html_icons_of domain ++ fallback_icons_of domain).

(** The candidate [icon] with another declared size. *)
Definition with_size (icon : Hunter.Icon) (w h : Z) : Hunter.Icon :=
  {| Hunter.url := Hunter.url icon;
     Hunter.width := w;
     Hunter.height := h;
     Hunter.format := Hunter.format icon;
     Hunter.alt_text := Hunter.alt_text icon;
     Hunter.css_classes := Hunter.css_classes icon;
     Hunter.element_id := Hunter.element_id icon;
     Hunter.parent_classes := Hunter.parent_classes icon;
     Hunter.score := Hunter.score icon;
     Hunter.rule_details := Hunter.rule_details icon |}.

(** The sizes the two penalty tables match, in integer arithmetic: a
    side may differ from the table's by a twentieth of it (social media
    sizes), or by a tenth of it and at least 5 (banner sizes), rounded
    down. *)
Definition is_social_size (w h : Z) : bool :=
  existsb
    (fun s => (Z.abs (w - fst s) <=? fst s / 20)
              && (Z.abs (h - snd s) <=? snd s / 20))
    DimensionsPenalty.social_dimensions.

Definition is_banner_size (w h : Z) : bool :=
  existsb
    (fun b => (Z.abs (w - fst b) <=? Z.max 5 (fst b / 10))
              && (Z.abs (h - snd b) <=? Z.max 5 (snd b / 10)))
    DimensionsPenalty.banner_dimensions_list.

(** A number above 1 without a divisor between 1 and itself. *)
Definition is_prime (n : Z) : Prop :=
  1 < n /\ forall d, 1 < d < n -> n mod d <> 0.

(** An element with a class attribute that is not empty. *)
Definition has_class (element : Hunter.Node) : bool :=
  match dict_lookup (lit "class") (Hunter.attributes element) with
  | Some (Some (_ :: _)) => true
  | _ => false
  end.

(** The labels of a rule table. *)
Definition labels_of (rules : list Scoring.rule_entry) : list str :=
  List.map (fun entry => snd (fst entry)) rules.

(** The attributes of a module whose name has a value in the values
    file. *)
Definition has_value (rule_values : dict Z) (entry : str * Loader.attribute) : bool :=
  match dict_lookup (fst entry) rule_values with
  | Some _ => true
  | None => false
  end.

End SpecMore.

Module ExamplesMore.
Import Py.

Definition home : str -> list Hunter.Icon := fun _ => Examples.discovered.
Definition nothing : str -> list Hunter.Icon := fun _ => [].

(** A server of PNG bodies and a decoder that reads every body as a
    48x48 image. *)
Definition serve_png : str -> Exc Hunter.Response :=
  Examples.respond "image/png" (list_byte_of_string "PNG").

Definition decoder_48 (data : bytes) : Exc PIL.Image :=
  Ok (Examples.image_of_size 48 48).

(** A URL joiner that appends the path, one that refuses every base, a
    server that answers every HEAD request with 200, and a digit table
    without entries. *)
Definition join (base path : str) : Exc str := Ok (base ++ path).
Definition join_fails (base path : str) : Exc str := Raise ValueError.

Definition head_ok (u : str) : Exc Discovery.HeadResponse :=
  Ok {| Discovery.status_code := 200; Discovery.final_url := u |}.

Definition ascii_digits : N -> option (option Z) := fun _ => None.

(** An element with the given class attribute. *)
Definition div (class : string) : Hunter.Node :=
  {| Hunter.tag := lit "div";
     Hunter.attributes := [(lit "class", Some (lit class))] |}.

(** A candidate with the given parent classes and nothing else. *)
Definition ctx_of_parents (parents : list str) : Scoring.Context :=
  {| Scoring.img := None;
     Scoring.width := 0;
     Scoring.height := 0;
     Scoring.url := lit "https://example.com/a.png";
     Scoring.alt_text := [];
     Scoring.css_classes := [];
     Scoring.element_id := [];
     Scoring.parent_classes := parents;
     Scoring.kwargs := [(lit "svg_content", [])] |}.

(** A link whose file name carries numbers of five digits. *)
Definition link_long_numbers : Hunter.Node :=
  Examples.link [("rel", "icon"); ("href", "/icon-12345x67890.png")]%string.

(** A colour analysis that finds every SVG single-coloured. *)
Definition always_single (svg_content : str) : Exc Scoring.value :=
  Ok (Scoring.VFloat (float_lit 1 1)).

(** A stand-in for [urlparse(url).path]. *)
Definition whole_url (u : str) : str := u.

Definition two_rules : list Scoring.rule_entry :=
  [(DimensionsPenalty.very_small_images, Examples.label_small, -30);
   (DimensionsBonus.apple_touch_icon_sizes, Examples.label_banner, 60)].

End ExamplesMore.

(* ===================================================================== *)
(** * Properties of the scoring engine                                    *)
(* ===================================================================== *)

Section ScoringFacts.
Import Py Scoring Spec.

Lemma details_of_single :
  forall ctx entry,
    details_of ctx [entry] =
    if contribution_of ctx entry =? 0 then []
    else [(snd (fst entry), contribution_of ctx entry)].
Proof.
  intros; unfold details_of; simpl.
  now rewrite app_nil_r.
Qed.

(** A turn of the loop adds the entry's contribution, and records it
    when it is not zero; it never raises. *)
Lemma apply_rule_eq :
  forall ctx total_score rule_details entry,
    apply_rule ctx (total_score, rule_details) entry =
    Ok (total_score + contribution_of ctx entry,
        rule_details ++ details_of ctx [entry]).
Proof.
  intros ctx t d [[rule label] w].
  rewrite details_of_single.
  unfold apply_rule, contribution_of.
  destruct (rule ctx) as [v | e]; simpl.
  - destruct (score_contribution w v) as [c | e]; simpl.
    + destruct (c =? 0) eqn:Hc; simpl; [| reflexivity].
      apply Z.eqb_eq in Hc; subst c.
      now rewrite Z.add_0_r, app_nil_r.
    + now rewrite Z.add_0_r, app_nil_r.
  - now rewrite Z.add_0_r, app_nil_r.
Qed.

Lemma details_of_app :
  forall ctx l1 l2, details_of ctx (l1 ++ l2) = details_of ctx l1 ++ details_of ctx l2.
Proof.
  intros; unfold details_of; apply flat_map_app.
Qed.

Lemma for_rules_eq :
  forall ctx rules total_score rule_details,
    for_rules ctx rules (total_score, rule_details) =
    Ok (total_score + fold_right Z.add 0 (List.map (contribution_of ctx) rules),
        rule_details ++ details_of ctx rules).
Proof.
  intros ctx rules; induction rules as [| entry rest IH]; intros t d.
  - simpl; now rewrite Z.add_0_r, app_nil_r.
  - change (entry :: rest) with ([entry] ++ rest) at 3.
    rewrite details_of_app.
    cbn [for_rules List.map fold_right].
    rewrite apply_rule_eq; cbn [bind].
    rewrite IH.
    rewrite details_of_single, <- app_assoc, Z.add_assoc.
    reflexivity.
Qed.

Lemma fold_add_acc :
  forall (l : list Z) (z : Z),
    fold_right Z.add z l = fold_right Z.add 0 l + z.
Proof.
  induction l as [| a l IHl]; intros z; simpl; [lia | rewrite IHl; lia].
Qed.

Lemma total_details_of :
  forall ctx rules,
    total (details_of ctx rules) =
    fold_right Z.add 0 (List.map (contribution_of ctx) rules).
Proof.
  intros ctx rules; unfold total.
  induction rules as [| entry rest IH]; [reflexivity |].
  change (entry :: rest) with ([entry] ++ rest).
  rewrite details_of_app, !map_app, !fold_right_app.
  rewrite fold_add_acc, IH, (fold_add_acc (List.map _ [entry])).
  rewrite details_of_single.
  destruct (contribution_of ctx entry =? 0) eqn:Hc; simpl; [| lia].
  apply Z.eqb_eq in Hc; lia.
Qed.

Lemma calculate_score_eq :
  forall rules ctx,
    calculate_score rules ctx =
    Ok (total (details_of ctx rules), details_of ctx rules).
Proof.
  intros; unfold calculate_score.
  rewrite for_rules_eq, total_details_of; reflexivity.
Qed.

Lemma details_of_nonzero :
  forall ctx rules label c, In (label, c) (details_of ctx rules) -> c <> 0.
Proof.
  intros ctx rules label c Hin; unfold details_of in Hin.
  apply in_flat_map in Hin; destruct Hin as [entry [_ Hin]].
  destruct (contribution_of ctx entry =? 0) eqn:Hc; simpl in Hin.
  - contradiction.
  - destruct Hin as [Heq | []]; inversion Heq; subst.
    now apply Z.eqb_neq.
Qed.

(** [int(f)] is the exact value of [f] cut toward zero. *)
Lemma int_of_float_trunc :
  forall f c, int_of_float f = Ok c -> c = Qtrunc (float_to_Q f).
Proof.
  intros [s | s | | s m e] c H; simpl in H; try discriminate;
    inversion H; subst; clear H.
  - reflexivity.
  - unfold float_to_Q, Qtrunc.
    destruct e as [| p | p].
    + simpl Z.shiftl. rewrite Z.pow_0_r, Z.mul_1_r.
      simpl Qnum; simpl Qden. now rewrite Z.quot_1_r.
    + rewrite Z.shiftl_mul_pow2 by lia.
      simpl Qnum; simpl Qden. rewrite Z.quot_1_r.
      destruct s; reflexivity.
    + change (Z.neg p) with (- Z.pos p).
      rewrite Z.shiftl_opp_r, Z.shiftr_div_pow2 by lia.
      simpl Qnum; simpl Qden.
      rewrite Pos2Z.inj_pow.
      assert (Hpos : 0 < 2 ^ Z.pos p) by (apply Z.pow_pos_nonneg; lia).
      destruct s; unfold cond_Zopp.
      * change (Z.neg m) with (- Z.pos m).
        rewrite Z.quot_opp_l by lia.
        rewrite Z.quot_div_nonneg by lia. reflexivity.
      * rewrite Z.quot_div_nonneg by lia. reflexivity.
Qed.

(** C1 (as amended): [calculate_score] returns the sum of the recorded
    contributions together with the list of the non-zero contributions in
    table order; a rule answering [True] contributes its weight, one
    answering [False] or the integer 0 contributes nothing, one answering
    an integer contributes the product with the weight, and one
    answering a float contributes [int(weight * value)]: the binary64
    product cut toward zero. *)
Theorem calculate_score_contributions :
  forall rules ctx,
    calculate_score rules ctx =
      Ok (total (details_of ctx rules), details_of ctx rules)
    /\ (forall label c, In (label, c) (details_of ctx rules) -> c <> 0)
    /\ (forall rule label weight,
          In (rule, label, weight) rules ->
          contribution_of ctx (rule, label, weight) <> 0 ->
          In (label, contribution_of ctx (rule, label, weight))
             (details_of ctx rules))
    /\ (forall rule label weight,
          (rule ctx = Ok (VBool true) ->
           contribution_of ctx (rule, label, weight) = weight)
          /\ (rule ctx = Ok (VBool false) \/ rule ctx = Ok (VInt 0) ->
              contribution_of ctx (rule, label, weight) = 0)
          /\ (forall n,
                rule ctx = Ok (VInt n) ->
                contribution_of ctx (rule, label, weight) = weight * n)
          /\ (forall f p c,
                rule ctx = Ok (VFloat f) ->
                int_mul_float weight f = Ok p ->
                int_of_float p = Ok c ->
                contribution_of ctx (rule, label, weight) = c
                /\ c = Qtrunc (float_to_Q p))).
Proof.
  intros rules ctx.
  split; [apply calculate_score_eq |].
  split; [apply details_of_nonzero |].
  split.
  - intros rule label weight Hin Hnz.
    unfold details_of; apply in_flat_map.
    exists (rule, label, weight); split; [exact Hin |].
    apply Z.eqb_neq in Hnz; rewrite Hnz; simpl; now left.
  - intros rule label weight; unfold contribution_of.
    split; [| split; [| split]].
    + intros ->; reflexivity.
    + intros [-> | ->]; simpl; [reflexivity | now rewrite Z.mul_0_r].
    + intros n ->; reflexivity.
    + intros f p c -> Hp Hc; simpl.
      rewrite Hp; simpl; rewrite Hc; simpl.
      split; [reflexivity | now apply int_of_float_trunc].
Qed.

Lemma calculate_score_contributions_witness :
  calculate_score
    [(DimensionsPenalty.very_small_images, Examples.label_small, -30);
     (DimensionsPenalty.banner_dimensions, Examples.label_banner, -40)]
    (Examples.ctx_of_size 10 10)
  = Ok (-30, [(Examples.label_small, -30)]).
Proof.
  destruct (calculate_score_contributions
              [(DimensionsPenalty.very_small_images, Examples.label_small, -30);
               (DimensionsPenalty.banner_dimensions, Examples.label_banner, -40)]
              (Examples.ctx_of_size 10 10)) as [H _].
  rewrite H; vm_compute; reflexivity.
Defined.

(** C1 (as stated) fails: for a 20x20 candidate [very_small_images]
    answers 0.67; with weight 10 the engine records [int(6.7) = 6], where
    [round(10 * 0.67)] is 7. *)
Lemma calculate_score_round_counterexample :
  DimensionsPenalty.very_small_images (Examples.ctx_of_size 20 20)
    = Ok (VFloat (float_lit 67 100))
  /\ calculate_score
       [(DimensionsPenalty.very_small_images, Examples.label_small, 10)]
       (Examples.ctx_of_size 20 20)
     = Ok (6, [(Examples.label_small, 6)])
  /\ round_contribution 10 (VFloat (float_lit 67 100)) = Ok 7.
Proof.
  repeat split; vm_compute; reflexivity.
Qed.

(** C4: [calculate_score] returns for every rule table and candidate, and
    a rule that raises contributes nothing: the result is the one the
    table without that rule gives, so the other rules are applied in
    order and their contributions are unchanged. *)
Theorem calculate_score_isolates_failing_rule :
  forall rules ctx,
    (exists total_score rule_details,
        calculate_score rules ctx = Ok (total_score, rule_details))
    /\ (forall before rule label weight after e,
          rules = before ++ (rule, label, weight) :: after ->
          rule ctx = Raise e ->
          contribution_of ctx (rule, label, weight) = 0
          /\ details_of ctx rules = details_of ctx before ++ details_of ctx after
          /\ calculate_score rules ctx = calculate_score (before ++ after) ctx).
Proof.
  intros rules ctx; split.
  - rewrite calculate_score_eq; eauto.
  - intros before rule label weight after e -> Hraise.
    assert (Hc : contribution_of ctx (rule, label, weight) = 0).
    { unfold contribution_of; rewrite Hraise; reflexivity. }
    assert (Hd : details_of ctx (before ++ (rule, label, weight) :: after)
                 = details_of ctx before ++ details_of ctx after).
    { change ((rule, label, weight) :: after)
        with ([(rule, label, weight)] ++ after).
      rewrite !details_of_app, details_of_single, Hc; reflexivity. }
    split; [exact Hc |]; split; [exact Hd |].
    rewrite !calculate_score_eq, Hd, details_of_app; reflexivity.
Qed.

Lemma calculate_score_isolates_failing_rule_witness :
  calculate_score
    [(DimensionsPenalty.very_small_images, Examples.label_small, -30);
     (Examples.broken_rule, Examples.label_broken, 50);
     (DimensionsPenalty.banner_dimensions, Examples.label_banner, -40)]
    (Examples.ctx_of_size 300 250)
  = Ok (-40, [(Examples.label_banner, -40)]).
Proof.
  destruct (calculate_score_isolates_failing_rule
              [(DimensionsPenalty.very_small_images, Examples.label_small, -30);
               (Examples.broken_rule, Examples.label_broken, 50);
               (DimensionsPenalty.banner_dimensions, Examples.label_banner, -40)]
              (Examples.ctx_of_size 300 250)) as [_ H].
  destruct (H [(DimensionsPenalty.very_small_images, Examples.label_small, -30)]
              Examples.broken_rule Examples.label_broken 50
              [(DimensionsPenalty.banner_dimensions, Examples.label_banner, -40)]
              ZeroDivisionError eq_refl eq_refl) as [_ [_ Heq]].
  rewrite Heq; vm_compute; reflexivity.
Defined.

(** C10: when the width or the height is 0, each of the six dimension
    rules answers the integer 0, which the engine turns into no
    contribution: a table made of these rules, whatever the weights,
    scores the candidate 0 with an empty contribution list. *)
Theorem dimension_rules_skip_unknown_size :
  forall ctx,
    width ctx = 0 \/ height ctx = 0 ->
    DimensionsPenalty.very_small_images ctx = Ok (VInt 0)
    /\ DimensionsPenalty.extremely_wide_aspect_ratio ctx = Ok (VInt 0)
    /\ DimensionsPenalty.social_media_dimensions ctx = Ok (VInt 0)
    /\ DimensionsPenalty.banner_dimensions ctx = Ok (VInt 0)
    /\ DimensionsPenalty.odd_dimensions ctx = Ok (VInt 0)
    /\ DimensionsBonus.apple_touch_icon_sizes ctx = Ok (VInt 0)
    /\ (forall weight, score_contribution weight (VInt 0) = Ok 0)
    /\ (forall rules,
          Forall (fun entry => In (fst (fst entry)) dimension_rules) rules ->
          calculate_score rules ctx = Ok (0, [])).
Proof.
  intros ctx Hzero.
  assert (Hguard : (width ctx =? 0) || (height ctx =? 0) = true).
  { apply orb_true_iff; destruct Hzero as [H | H]; [left | right];
      now apply Z.eqb_eq. }
  assert (Hall : forall rule, In rule dimension_rules -> rule ctx = Ok (VInt 0)).
  { intros rule Hin; unfold dimension_rules in Hin; simpl in Hin.
    destruct Hin as [<- | [<- | [<- | [<- | [<- | [<- | []]]]]]];
      [ unfold DimensionsPenalty.very_small_images
      | unfold DimensionsPenalty.extremely_wide_aspect_ratio
      | unfold DimensionsPenalty.social_media_dimensions
      | unfold DimensionsPenalty.banner_dimensions
      | unfold DimensionsPenalty.odd_dimensions
      | unfold DimensionsBonus.apple_touch_icon_sizes ];
      now rewrite Hguard. }
  repeat (split; [apply Hall; unfold dimension_rules; simpl; tauto |]).
  split.
  - intros weight; simpl; now rewrite Z.mul_0_r.
  - intros rules Hrules; rewrite calculate_score_eq.
    assert (Hd : details_of ctx rules = []).
    { induction Hrules as [| [[rule label] weight] rest Hin _ IH];
        [reflexivity |].
      change (((rule, label, weight)) :: rest)
        with ([(rule, label, weight)] ++ rest).
      rewrite details_of_app, IH, details_of_single, app_nil_r.
      unfold contribution_of; simpl in Hin; rewrite (Hall rule Hin); simpl.
      now rewrite Z.mul_0_r. }
    rewrite Hd; reflexivity.
Qed.

Lemma dimension_rules_skip_unknown_size_witness :
  calculate_score
    [(DimensionsPenalty.odd_dimensions, Examples.label_small, -15);
     (DimensionsBonus.apple_touch_icon_sizes, Examples.label_banner, 60)]
    (Examples.ctx_of_size 0 180)
  = Ok (0, []).
Proof.
  apply (dimension_rules_skip_unknown_size (Examples.ctx_of_size 0 180)).
  - left; reflexivity.
  - repeat constructor; unfold dimension_rules; simpl; tauto.
Defined.

End ScoringFacts.

(* ===================================================================== *)
(** * Properties of the built-ins: dictionaries and the stable sort       *)
(* ===================================================================== *)

Section BuiltinFacts.
Import Py.

Lemma str_eqb_eq : forall a b : str, str_eqb a b = true <-> a = b.
Proof.
  intros a b; unfold str_eqb.
  destruct (list_eq_dec N.eq_dec a b); split; congruence.
Qed.

Lemma str_eqb_refl : forall a : str, str_eqb a a = true.
Proof.
  intros a; now apply str_eqb_eq.
Qed.

Lemma str_eqb_neq : forall a b : str, str_eqb a b = false <-> a <> b.
Proof.
  intros a b; unfold str_eqb.
  destruct (list_eq_dec N.eq_dec a b); split; congruence.
Qed.

Variable V : Type.

Lemma dict_lookup_set_same :
  forall (k : str) (v : V) (d : dict V), dict_lookup k (dict_set k v d) = Some v.
Proof.
  intros k v d; induction d as [| [k' v'] d IH]; simpl.
  - now rewrite str_eqb_refl.
  - destruct (str_eqb k' k) eqn:E; simpl; rewrite E; [reflexivity | exact IH].
Qed.

Lemma dict_lookup_set_other :
  forall (k k0 : str) (v : V) (d : dict V),
    k0 <> k -> dict_lookup k0 (dict_set k v d) = dict_lookup k0 d.
Proof.
  intros k k0 v d Hne; induction d as [| [k' v'] d IH]; simpl.
  - apply not_eq_sym, str_eqb_neq in Hne; now rewrite Hne.
  - destruct (str_eqb k' k) eqn:E; simpl.
    + apply str_eqb_eq in E; subst k'.
      apply not_eq_sym, str_eqb_neq in Hne; now rewrite Hne.
    + destruct (str_eqb k' k0); [reflexivity | exact IH].
Qed.

Lemma dict_lookup_In :
  forall (k : str) (v : V) (d : dict V), dict_lookup k d = Some v -> In (k, v) d.
Proof.
  intros k v d; induction d as [| [k' v'] d IH]; simpl; [discriminate |].
  destruct (str_eqb k' k) eqn:E.
  - apply str_eqb_eq in E; intros H; inversion H; subst; now left.
  - intros H; right; now apply IH.
Qed.

Lemma dict_lookup_None :
  forall (k : str) (d : dict V),
    dict_lookup k d = None <-> ~ In k (List.map fst d).
Proof.
  intros k d; induction d as [| [k' v'] d IH]; simpl; [tauto |].
  destruct (str_eqb k' k) eqn:E.
  - apply str_eqb_eq in E; split; [discriminate | tauto].
  - apply str_eqb_neq in E; rewrite IH; tauto.
Qed.

Lemma In_dict_lookup :
  forall (k : str) (v : V) (d : dict V),
    NoDup (List.map fst d) -> In (k, v) d -> dict_lookup k d = Some v.
Proof.
  intros k v d; induction d as [| [k' v'] d IH]; simpl; [tauto |].
  intros Hnd [Heq | Hin]; inversion Hnd as [| ? ? Hnotin Hnd']; subst.
  - inversion Heq; subst; now rewrite str_eqb_refl.
  - destruct (str_eqb k' k) eqn:E; [| now apply IH].
    apply str_eqb_eq in E; subst k'.
    exfalso; apply Hnotin.
    change k with (fst (k, v)); now apply in_map.
Qed.

Lemma dict_set_keys :
  forall (k : str) (v : V) (d : dict V),
    List.map fst (dict_set k v d) =
    match dict_lookup k d with
    | Some _ => List.map fst d
    | None => List.map fst d ++ [k]
    end.
Proof.
  intros k v d; induction d as [| [k' v'] d IH]; simpl; [reflexivity |].
  destruct (str_eqb k' k) eqn:E; simpl; [reflexivity |].
  rewrite IH; destruct (dict_lookup k d); reflexivity.
Qed.

Lemma dict_set_NoDup :
  forall (k : str) (v : V) (d : dict V),
    NoDup (List.map fst d) -> NoDup (List.map fst (dict_set k v d)).
Proof.
  intros k v d Hnd; rewrite dict_set_keys.
  destruct (dict_lookup k d) eqn:E; [exact Hnd |].
  apply dict_lookup_None in E.
  apply (Permutation_NoDup (l := k :: List.map fst d)).
  - apply Permutation_cons_append.
  - now constructor.
Qed.

End BuiltinFacts.

Section SortFacts.
Import Py.

Variable A : Type.
Variable key : A -> Z.

Lemma insert_reverse_perm :
  forall (x : A) (l : list A), Permutation (insert_reverse key x l) (x :: l).
Proof.
  intros x l; induction l as [| y l IH]; simpl; [reflexivity |].
  destruct (key x <? key y); [| reflexivity].
  rewrite IH; apply perm_swap.
Qed.

Lemma sorted_reverse_perm :
  forall l : list A, Permutation (sorted_reverse key l) l.
Proof.
  induction l as [| x l IH]; simpl; [reflexivity |].
  rewrite insert_reverse_perm; now constructor.
Qed.

Lemma insert_reverse_sorted :
  forall (x : A) (l : list A),
    StronglySorted (Spec.key_ge key) l -> StronglySorted (Spec.key_ge key) (insert_reverse key x l).
Proof.
  intros x l Hs; induction Hs as [| y l Hs IH Hall]; simpl.
  - constructor; constructor.
  - destruct (key x <? key y) eqn:E.
    + constructor; [exact IH |].
      eapply Permutation_Forall;
        [symmetry; apply insert_reverse_perm |].
      constructor; [| exact Hall].
      apply Z.ltb_lt in E; unfold Spec.key_ge; lia.
    + apply Z.ltb_ge in E.
      constructor; [now constructor |].
      constructor; [exact E |].
      eapply Forall_impl; [| exact Hall].
      intros b Hb; unfold Spec.key_ge in *; lia.
Qed.

Lemma sorted_reverse_sorted :
  forall l : list A, StronglySorted (Spec.key_ge key) (sorted_reverse key l).
Proof.
  induction l as [| x l IH]; simpl; [constructor |].
  now apply insert_reverse_sorted.
Qed.

(** Inserting moves [x] past greater keys only, so the elements of one
    key keep their order. *)
Lemma insert_reverse_filter :
  forall (k : Z) (x : A) (l : list A),
    filter (fun a => key a =? k) (insert_reverse key x l) =
    filter (fun a => key a =? k) (x :: l).
Proof.
  intros k x l; induction l as [| y l IH]; [reflexivity |].
  simpl insert_reverse.
  destruct (key x <? key y) eqn:E; [| reflexivity].
  apply Z.ltb_lt in E.
  cbn [filter] in *; rewrite IH.
  destruct (key x =? k) eqn:Ex; destruct (key y =? k) eqn:Ey; try reflexivity.
  apply Z.eqb_eq in Ex, Ey; lia.
Qed.

Lemma sorted_reverse_stable :
  forall (k : Z) (l : list A),
    filter (fun a => key a =? k) (sorted_reverse key l) =
    filter (fun a => key a =? k) l.
Proof.
  intros k l; induction l as [| x l IH]; [reflexivity |].
  simpl sorted_reverse; rewrite insert_reverse_filter.
  cbn [filter]; now rewrite IH.
Qed.

Lemma StronglySorted_nth_error :
  forall (R : A -> A -> Prop) (l : list A) (i j : nat) (a b : A),
    StronglySorted R l ->
    nth_error l i = Some a -> nth_error l j = Some b -> (i < j)%nat -> R a b.
Proof.
  intros R l i j a b Hs; revert i j.
  induction Hs as [| x l Hs IH Hall]; intros i j Hi Hj Hlt.
  - destruct i; discriminate.
  - destruct j as [| j]; [lia |].
    destruct i as [| i]; simpl in Hi, Hj.
    + inversion Hi; subst.
      rewrite Forall_forall in Hall; apply Hall.
      eapply nth_error_In; eauto.
    + apply (IH i j); auto; lia.
Qed.

(** In a descending list a greater key stands before a smaller one. *)
Lemma sorted_reverse_precedes :
  forall (l : list A) (i j : nat) (a b : A),
    nth_error (sorted_reverse key l) i = Some a ->
    nth_error (sorted_reverse key l) j = Some b ->
    key b < key a -> (i < j)%nat.
Proof.
  intros l i j a b Hi Hj Hlt.
  destruct (Nat.lt_trichotomy i j) as [H | [H | H]]; [exact H | |].
  - subst j; rewrite Hi in Hj; inversion Hj; subst; lia.
  - pose proof (StronglySorted_nth_error (Spec.key_ge key) _ j i b a
                  (sorted_reverse_sorted l) Hj Hi H) as Hge.
    unfold Spec.key_ge in Hge; lia.
Qed.

End SortFacts.

(* ===================================================================== *)
(** * Properties of deduplication and ranking                             *)
(* ===================================================================== *)

Section DedupFacts.
Import Py Hunter Spec.

Lemma icons_dict_snoc :
  forall (l : list Icon) (icon : Icon),
    icons_dict (l ++ [icon]) = dict_set (url icon) icon (icons_dict l).
Proof.
  intros l icon; unfold icons_dict; now rewrite fold_left_app.
Qed.

Lemma icons_dict_NoDup :
  forall l : list Icon, NoDup (List.map fst (icons_dict l)).
Proof.
  induction l as [| icon l IH] using rev_ind.
  - constructor.
  - rewrite icons_dict_snoc; now apply dict_set_NoDup.
Qed.

(** The dictionary maps a URL to the candidate discovered last under it. *)
Lemma icons_dict_lookup :
  forall (u : str) (l : list Icon),
    dict_lookup u (icons_dict l) = last_with_url u l.
Proof.
  intros u l; induction l as [| icon l IH] using rev_ind; [reflexivity |].
  rewrite icons_dict_snoc; unfold last_with_url.
  rewrite rev_app_distr; simpl.
  destruct (str_eqb (url icon) u) eqn:E.
  - apply str_eqb_eq in E; subst u; apply dict_lookup_set_same.
  - apply str_eqb_neq in E.
    rewrite dict_lookup_set_other by congruence; exact IH.
Qed.

Lemma last_with_url_url :
  forall (u : str) (l : list Icon) (icon : Icon),
    last_with_url u l = Some icon -> url icon = u /\ In icon l.
Proof.
  intros u l icon H; unfold last_with_url in H.
  apply find_some in H; destruct H as [Hin Heq].
  apply str_eqb_eq in Heq; split; [exact Heq | now apply in_rev].
Qed.

(** The candidate found last has no later candidate of its URL. *)
Lemma last_with_url_split :
  forall (u : str) (l : list Icon) (icon : Icon),
    last_with_url u l = Some icon ->
    exists before after,
      l = before ++ icon :: after /\ ~ In u (List.map url after).
Proof.
  intros u l; induction l as [| x l IH] using rev_ind; intros icon H.
  - discriminate.
  - unfold last_with_url in H; rewrite rev_app_distr in H; simpl in H.
    destruct (str_eqb (url x) u) eqn:E.
    + inversion H; subst; exists l, []; split; [reflexivity | simpl; tauto].
    + destruct (IH icon H) as [before [after [-> Hnot]]].
      exists before, (after ++ [x]); split.
      * now rewrite <- app_assoc.
      * rewrite map_app, in_app_iff; simpl.
        apply str_eqb_neq in E; tauto.
Qed.

Lemma icons_dict_entry :
  forall (l : list Icon) (k : str) (icon : Icon),
    In (k, icon) (icons_dict l) <-> last_with_url k l = Some icon.
Proof.
  intros l k icon; rewrite <- icons_dict_lookup; split.
  - apply In_dict_lookup, icons_dict_NoDup.
  - apply dict_lookup_In.
Qed.

Lemma unique_icons_urls :
  forall l : list Icon,
    List.map url (unique_icons l) = List.map fst (icons_dict l).
Proof.
  intros l; unfold unique_icons, dict_values; fold (icons_dict l).
  rewrite map_map; apply map_ext_in.
  intros [k icon] Hin; simpl.
  apply icons_dict_entry, last_with_url_url in Hin; tauto.
Qed.

Lemma unique_icons_In :
  forall (l : list Icon) (icon : Icon),
    In icon (unique_icons l) <-> last_with_url (url icon) l = Some icon.
Proof.
  intros l icon; unfold unique_icons, dict_values; fold (icons_dict l).
  rewrite in_map_iff; split.
  - intros [[k v] [Heq Hin]]; simpl in Heq; subst v.
    apply icons_dict_entry in Hin.
    destruct (last_with_url_url _ _ _ Hin) as [Hu _]; now rewrite Hu.
  - intros H; exists (url icon, icon); split; [reflexivity |].
    now apply icons_dict_entry.
Qed.

Lemma unique_icons_NoDup :
  forall l : list Icon, NoDup (List.map url (unique_icons l)).
Proof.
  intros l; rewrite unique_icons_urls; apply icons_dict_NoDup.
Qed.

Lemma unique_icons_same_urls :
  forall (l : list Icon) (u : str),
    In u (List.map url l) <-> In u (List.map url (unique_icons l)).
Proof.
  intros l u; rewrite unique_icons_urls; split.
  - intros Hin.
    destruct (dict_lookup u (icons_dict l)) eqn:E.
    + apply dict_lookup_In in E.
      change u with (fst (u, i)); now apply in_map.
    + rewrite icons_dict_lookup in E; unfold last_with_url in E.
      apply in_map_iff in Hin; destruct Hin as [icon [Hu Hin]].
      apply in_rev in Hin.
      pose proof (find_none _ _ E icon Hin) as Hf; simpl in Hf.
      subst u; now rewrite str_eqb_refl in Hf.
  - intros Hin; apply in_map_iff in Hin.
    destruct Hin as [[k icon] [Hk Hin]]; simpl in Hk; subst k.
    apply icons_dict_entry, last_with_url_url in Hin.
    destruct Hin as [Hu Hin]; rewrite <- Hu; now apply in_map.
Qed.

(** C3: deduplication leaves one candidate per distinct URL: the URLs of
    the result are pairwise distinct and are those of the input; and the
    candidate kept for a URL is the one discovered last under it. *)
Theorem unique_icons_last_write_wins :
  forall all_icons : list Icon,
    NoDup (List.map url (unique_icons all_icons))
    /\ (forall u,
          In u (List.map url all_icons) <->
          In u (List.map url (unique_icons all_icons)))
    /\ (forall icon,
          In icon (unique_icons all_icons) <->
          last_with_url (url icon) all_icons = Some icon)
    /\ (forall icon,
          In icon (unique_icons all_icons) ->
          exists before after,
            all_icons = before ++ icon :: after
            /\ ~ In (url icon) (List.map url after)).
Proof.
  intros all_icons.
  split; [apply unique_icons_NoDup |].
  split; [apply unique_icons_same_urls |].
  split; [apply unique_icons_In |].
  intros icon Hin; apply unique_icons_In in Hin.
  now apply last_with_url_split.
Qed.

Lemma unique_icons_last_write_wins_witness :
  unique_icons Examples.discovered =
    [Examples.icon_of "https://example.com/logo.png" 200 60 "Example logo";
     Examples.icon_of "https://example.com/favicon.ico" 16 16 ""]
  /\ NoDup (List.map url (unique_icons Examples.discovered)).
Proof.
  split.
  - vm_compute; reflexivity.
  - exact (proj1 (unique_icons_last_write_wins Examples.discovered)).
Defined.

End DedupFacts.

Section RankingFacts.
Import Py Hunter Spec.

Variable client_get : str -> Exc Response.
Variable image_open : bytes -> Exc PIL.Image.
Variable rules : list Scoring.rule_entry.
Variable html_icons_of : str -> list Icon.
Variable fallback_icons_of : str -> list Icon.

(** Scoring one candidate returns: what its [try] block leaves undone the
    handler finishes with a call that cannot raise. *)
Lemma _calculate_score_with_rules_returns :
  forall icon : Icon,
    exists score rule_details,
      _calculate_score_with_rules client_get image_open rules icon
      = Ok (score, rule_details).
Proof.
  intros icon; unfold _calculate_score_with_rules.
  match goal with
  | |- exists s d, try_except ?body ?handler = _ =>
      destruct body as [[s d] | e]; simpl; [now eauto |]
  end.
  rewrite calculate_score_eq; eauto.
Qed.

Lemma score_icons_returns :
  forall icons : list Icon,
    exists scored_icons,
      score_icons client_get image_open rules icons = Ok scored_icons
      /\ Forall2 scored_as icons scored_icons.
Proof.
  induction icons as [| icon rest IH].
  - exists []; split; [reflexivity | constructor].
  - destruct (_calculate_score_with_rules_returns icon) as [s [d Hs]].
    destruct IH as [scored [Hrest Hall]].
    simpl; rewrite Hs; simpl; rewrite Hrest; simpl.
    eexists; split; [reflexivity |].
    constructor; [| exact Hall].
    unfold scored_as; simpl; tauto.
Qed.

Lemma scored_as_urls :
  forall icons scored_icons : list Icon,
    Forall2 scored_as icons scored_icons ->
    List.map url scored_icons = List.map url icons.
Proof.
  intros icons scored H; induction H as [| a b l l' Hab _ IH]; simpl.
  - reflexivity.
  - destruct Hab as [Hu _]; now rewrite Hu, IH.
Qed.

Lemma find_logo_urls_ranked_aux :
  forall domain : str,
    exists scored_icons sorted_icons,
      score_icons client_get image_open rules
        (unique_icons (html_icons_of domain ++ fallback_icons_of domain))
        = Ok scored_icons
      /\ Forall2 scored_as
           (unique_icons (html_icons_of domain ++ fallback_icons_of domain))
           scored_icons
      /\ find_logo_urls client_get image_open rules
           html_icons_of fallback_icons_of domain
         = Ok (List.map url sorted_icons)
      /\ Permutation sorted_icons scored_icons.
Proof.
  intros domain.
  destruct (score_icons_returns
              (unique_icons (html_icons_of domain ++ fallback_icons_of domain)))
    as [scored [Hscored Hall]].
  exists scored, (sorted_reverse score scored).
  unfold find_logo_urls; rewrite Hscored; simpl.
  repeat split; auto.
  apply sorted_reverse_perm.
Qed.

(** C2: both entry points return, in the same order, the scored
    candidates sorted by score, highest first; candidates of one score
    stand as they stood after deduplication; so a candidate scored 150
    stands before one scored 90. *)
Theorem find_logo_urls_ranked :
  forall domain : str,
    exists scored_icons sorted_icons,
      score_icons client_get image_open rules
        (unique_icons (html_icons_of domain ++ fallback_icons_of domain))
        = Ok scored_icons
      /\ Forall2 scored_as
           (unique_icons (html_icons_of domain ++ fallback_icons_of domain))
           scored_icons
      /\ find_logo_candidates client_get image_open rules
           html_icons_of fallback_icons_of domain = Ok sorted_icons
      /\ find_logo_urls client_get image_open rules
           html_icons_of fallback_icons_of domain
         = Ok (List.map url sorted_icons)
      /\ Permutation sorted_icons scored_icons
      /\ StronglySorted (key_ge score) sorted_icons
      /\ (forall s,
            filter (fun icon => score icon =? s) sorted_icons =
            filter (fun icon => score icon =? s) scored_icons)
      /\ (forall i j a b,
            nth_error sorted_icons i = Some a ->
            nth_error sorted_icons j = Some b ->
            score a = 150 -> score b = 90 -> (i < j)%nat).
Proof.
  intros domain.
  destruct (score_icons_returns
              (unique_icons (html_icons_of domain ++ fallback_icons_of domain)))
    as [scored [Hscored Hall]].
  exists scored, (sorted_reverse score scored).
  unfold find_logo_candidates, find_logo_urls; rewrite Hscored; simpl.
  repeat split; auto.
  - apply sorted_reverse_perm.
  - apply sorted_reverse_sorted.
  - intros s; apply sorted_reverse_stable.
  - intros i j a b Hi Hj Ha Hb.
    apply (sorted_reverse_precedes _ score scored i j a b Hi Hj); lia.
Qed.

(** C9: the list [find_logo_urls] returns holds no URL twice. *)
Theorem find_logo_urls_no_duplicates :
  forall domain : str,
    exists urls,
      find_logo_urls client_get image_open rules
        html_icons_of fallback_icons_of domain = Ok urls
      /\ NoDup urls
      /\ (forall i j u v,
            i <> j ->
            nth_error urls i = Some u -> nth_error urls j = Some v -> u <> v).
Proof.
  intros domain.
  destruct (find_logo_urls_ranked_aux domain)
    as [scored [sorted [Hscored [Hall [Hurls Hperm]]]]].
  exists (List.map url sorted).
  assert (Hnd : NoDup (List.map url sorted)).
  { apply (Permutation_NoDup (l := List.map url scored)).
    - symmetry; now apply Permutation_map.
    - rewrite (scored_as_urls _ _ Hall); apply unique_icons_NoDup. }
  split; [exact Hurls |]; split; [exact Hnd |].
  intros i j u v Hij Hi Hj Huv; subst v; apply Hij.
  rewrite NoDup_nth_error in Hnd; apply Hnd.
  - apply nth_error_Some; congruence.
  - congruence.
Qed.

End RankingFacts.

(* ===================================================================== *)
(** * Properties of dimension extraction                                  *)
(* ===================================================================== *)

Section ExtractFacts.
Import Py Hunter Spec.

Variable unicode_digit : N -> option (option Z).
Variable int_max_str_digits : nat.

Lemma size_key_parse_size :
  forall token : str,
    size_key unicode_digit int_max_str_digits token =
    match parse_size unicode_digit int_max_str_digits token with
    | Some (w, h) => w * h
    | None => 0
    end.
Proof.
  intros token; unfold size_key, parse_size.
  destruct (split_on is_x_or_times token) as [| m0 [| m1 [| m2 l]]];
    try reflexivity.
  destruct (digits_int unicode_digit int_max_str_digits m0) as [w | e]; simpl; [| reflexivity].
  destruct (digits_int unicode_digit int_max_str_digits m1) as [h | e]; reflexivity.
Qed.

(** What the [sizes] branch returns: the reading of the token the sort
    puts first. *)
Lemma dimensions_from_sizes_eq :
  forall s : str,
    s <> [] ->
    str_eqb (lower s) (lit "any") = false ->
    dimensions_from_sizes unicode_digit int_max_str_digits (Some s) =
    match sorted_reverse (size_key unicode_digit int_max_str_digits) (split_on (N.eqb 32) s) with
    | first :: _ => parse_size unicode_digit int_max_str_digits first
    | [] => None
    end.
Proof.
  intros s Hne Hany; unfold dimensions_from_sizes.
  destruct s as [| c s]; [congruence |].
  cbn [truthy andb]; rewrite Hany; cbn [negb].
  destruct (sorted_reverse _ _) as [| first rest]; [reflexivity |].
  unfold parse_size.
  destruct (split_on is_x_or_times first) as [| m0 [| m1 [| m2 l]]];
    try reflexivity.
  destruct (digits_int unicode_digit int_max_str_digits m0) as [w | e]; simpl; [| reflexivity].
  destruct (digits_int unicode_digit int_max_str_digits m1) as [h | e]; reflexivity.
Qed.

(** The head of a list sorted highest first has the greatest key. *)
Lemma sorted_reverse_head_max :
  forall (A : Type) (key : A -> Z) (l : list A) (first : A) (rest : list A),
    sorted_reverse key l = first :: rest ->
    In first l /\ forall a, In a l -> key a <= key first.
Proof.
  intros A key l first rest Heq.
  pose proof (sorted_reverse_perm A key l) as Hperm.
  pose proof (sorted_reverse_sorted A key l) as Hsorted.
  rewrite Heq in Hperm, Hsorted; split.
  - eapply Permutation_in; [exact Hperm | now left].
  - intros a Hin.
    apply (Permutation_in _ (Permutation_sym Hperm)) in Hin.
    destruct Hin as [<- | Hin]; [lia |].
    inversion Hsorted as [| ? ? _ Hall]; subst.
    rewrite Forall_forall in Hall; exact (Hall a Hin).
Qed.

Lemma take_digits_spec :
  forall (n : nat) (s ds rest : str),
    take_digits unicode_digit n s = Some (ds, rest) ->
    s = ds ++ rest
    /\ List.length ds = n
    /\ Forall (fun c => is_decimal unicode_digit c = true) ds.
Proof.
  induction n as [| n IH]; intros s ds rest H; simpl in H.
  - inversion H; subst; repeat split; constructor.
  - destruct s as [| c s]; [discriminate |].
    destruct (is_decimal unicode_digit c) eqn:Hc; [| discriminate].
    destruct (take_digits unicode_digit n s) as [[ds' rest'] |] eqn:Ht;
      [| discriminate].
    inversion H; subst; clear H.
    destruct (IH _ _ _ Ht) as [-> [Hlen Hall]].
    repeat split; simpl; auto.
Qed.

Lemma first_some_In :
  forall (A B : Type) (f : A -> option B) (l : list A) (b : B),
    first_some f l = Some b -> exists a, In a l /\ f a = Some b.
Proof.
  intros A B f l b; induction l as [| a l IH]; simpl; [discriminate |].
  destruct (f a) eqn:E.
  - intros H; inversion H; subst; exists a; auto.
  - intros H; destruct (IH H) as [a' [Hin Ha']]; exists a'; auto.
Qed.

Lemma SIZE_REGEX_match_spec :
  forall s w h : str,
    SIZE_REGEX_match unicode_digit s = Some (w, h) ->
    exists c after,
      s = w ++ c :: h ++ after
      /\ (c = 120%N \/ c = 88%N)
      /\ (2 <= List.length w <= 4)%nat /\ (2 <= List.length h <= 4)%nat
      /\ Forall (fun c => is_decimal unicode_digit c = true) w
      /\ Forall (fun c => is_decimal unicode_digit c = true) h.
Proof.
  intros s w h H; unfold SIZE_REGEX_match in H.
  apply first_some_In in H; destruct H as [n [Hn H]].
  destruct (take_digits unicode_digit n s) as [[w' [| c rest]] |] eqn:Hw;
    try discriminate.
  destruct ((c =? 120)%N || (c =? 88)%N) eqn:Hc; [| discriminate].
  apply first_some_In in H; destruct H as [m [Hm H]].
  destruct (take_digits unicode_digit m rest) as [[h' after] |] eqn:Hh;
    [| discriminate].
  inversion H; subst w' h'; clear H.
  apply take_digits_spec in Hw; destruct Hw as [-> [Hlw Hdw]].
  apply take_digits_spec in Hh; destruct Hh as [-> [Hlh Hdh]].
  exists c, after; repeat split; auto.
  - apply orb_true_iff in Hc; destruct Hc as [Hc | Hc];
      apply N.eqb_eq in Hc; auto.
  - simpl in Hn; lia.
  - simpl in Hn; lia.
  - simpl in Hm; lia.
  - simpl in Hm; lia.
Qed.

Lemma SIZE_REGEX_search_spec :
  forall s w h : str,
    SIZE_REGEX_search unicode_digit s = Some (w, h) ->
    is_size_match unicode_digit s w h.
Proof.
  induction s as [| c0 s IH]; intros w h H; cbn [SIZE_REGEX_search] in H.
  - destruct (SIZE_REGEX_match unicode_digit []) as [[w' h'] |] eqn:Hm;
      [| discriminate].
    inversion H; subst; apply SIZE_REGEX_match_spec in Hm.
    destruct Hm as [c [after Hm]]; exists [], c, after; exact Hm.
  - destruct (SIZE_REGEX_match unicode_digit (c0 :: s)) as [[w' h'] |] eqn:Hm.
    + inversion H; subst; apply SIZE_REGEX_match_spec in Hm.
      destruct Hm as [c [after Hm]]; exists [], c, after; exact Hm.
    + destruct (IH _ _ H) as [before [c [after [Heq Hrest]]]].
      exists (c0 :: before), c, after; split; [| exact Hrest].
      simpl; now rewrite Heq.
Qed.

Lemma int_of_digits_returns :
  forall (s : str) (acc : Z),
    Forall (fun c => is_decimal unicode_digit c = true) s ->
    exists z, int_of_digits unicode_digit acc s = Ok z.
Proof.
  induction s as [| c s IH]; intros acc Hall; simpl.
  - eauto.
  - inversion Hall as [| ? ? Hc Hall']; subst.
    unfold is_decimal in Hc.
    destruct (decimal_value unicode_digit c) as [d |]; [| discriminate].
    now apply IH.
Qed.

Lemma int_of_str_returns :
  forall s : str,
    (2 <= List.length s <= 4)%nat ->
    Forall (fun c => is_decimal unicode_digit c = true) s ->
    exists z, int_of_str unicode_digit int_max_str_digits s = Ok z.
Proof.
  intros [| c s] Hlen Hall; [simpl in Hlen; lia |].
  unfold int_of_str.
  replace (640 <? List.length (c :: s))%nat with false
    by (symmetry; apply Nat.ltb_ge; lia).
  now apply int_of_digits_returns.
Qed.

Lemma no_sizes_attribute :
  forall element : Node,
    dict_lookup (lit "sizes") (attributes element) = None ->
    _extract_dimensions unicode_digit int_max_str_digits element =
    dimensions_from_href unicode_digit int_max_str_digits (href_or_content element).
Proof.
  intros element Hnone; unfold _extract_dimensions, dict_get.
  match goal with
  | |- context [@dict_lookup ?V ?k ?d] =>
      replace (@dict_lookup V k d) with (@None V)
        by (symmetry; exact Hnone)
  end.
  reflexivity.
Qed.

(** C5: the three documented readings, and the rules behind them: among
    the tokens of a [sizes] attribute the one with the largest width
    times height is returned; without a [sizes] attribute the first
    WxH pattern of the href (two to four digits a side) is returned; and
    with neither the result is (0, 0). *)
Theorem _extract_dimensions_sources :
  _extract_dimensions unicode_digit int_max_str_digits Examples.link_with_sizes = (192, 192)
  /\ _extract_dimensions unicode_digit int_max_str_digits Examples.link_with_sized_href = (256, 256)
  /\ _extract_dimensions unicode_digit int_max_str_digits Examples.link_with_href_only = (256, 256)
  /\ _extract_dimensions unicode_digit int_max_str_digits Examples.link_without_size = (0, 0)
  /\ (forall element s,
        dict_get (lit "sizes") empty (attributes element) = Some s ->
        s <> [] ->
        str_eqb (lower s) (lit "any") = false ->
        forall token w' h',
          In token (split_on (N.eqb 32) s) ->
          parse_size unicode_digit int_max_str_digits token = Some (w', h') ->
          0 < w' * h' ->
          exists best w h,
            In best (split_on (N.eqb 32) s)
            /\ parse_size unicode_digit int_max_str_digits best = Some (w, h)
            /\ _extract_dimensions unicode_digit int_max_str_digits element = (w, h)
            /\ forall other w1 h1,
                 In other (split_on (N.eqb 32) s) ->
                 parse_size unicode_digit int_max_str_digits other = Some (w1, h1) ->
                 w1 * h1 <= w * h)
  /\ (forall element href wd hd,
        dict_lookup (lit "sizes") (attributes element) = None ->
        href_or_content element = Some href ->
        SIZE_REGEX_search unicode_digit href = Some (wd, hd) ->
        is_size_match unicode_digit href wd hd
        /\ exists w h,
             int_of_str unicode_digit int_max_str_digits wd = Ok w
             /\ int_of_str unicode_digit int_max_str_digits hd = Ok h
             /\ _extract_dimensions unicode_digit int_max_str_digits element = (w, h))
  /\ (forall element,
        dict_lookup (lit "sizes") (attributes element) = None ->
        (forall href,
            href_or_content element = Some href ->
            SIZE_REGEX_search unicode_digit href = None) ->
        _extract_dimensions unicode_digit int_max_str_digits element = (0, 0)).
Proof.
  split; [vm_compute; reflexivity |].
  split; [vm_compute; reflexivity |].
  split; [vm_compute; reflexivity |].
  split; [vm_compute; reflexivity |].
  split; [| split].
  - intros element s Hsizes Hne Hany token w' h' Hin Hparse Hpos.
    unfold _extract_dimensions; rewrite Hsizes.
    rewrite (dimensions_from_sizes_eq s Hne Hany).
    destruct (sorted_reverse (size_key unicode_digit int_max_str_digits) (split_on (N.eqb 32) s))
      as [| best rest] eqn:Hsorted.
    + pose proof (sorted_reverse_perm _ (size_key unicode_digit int_max_str_digits)
                    (split_on (N.eqb 32) s)) as Hperm.
      rewrite Hsorted in Hperm; apply Permutation_nil in Hperm.
      rewrite Hperm in Hin; destruct Hin.
    + destruct (sorted_reverse_head_max _ _ _ _ _ Hsorted) as [Hbest Hmax].
      pose proof (Hmax token Hin) as Hle.
      rewrite !size_key_parse_size, Hparse in Hle.
      destruct (parse_size unicode_digit int_max_str_digits best) as [[w h] |] eqn:Hpb; [| lia].
      exists best, w, h; repeat split; auto.
      intros other w1 h1 Hino Hpo.
      pose proof (Hmax other Hino) as Hle'.
      now rewrite !size_key_parse_size, Hpo, Hpb in Hle'.
  - intros element href wd hd Hnone Hhref Hsearch.
    pose proof (SIZE_REGEX_search_spec _ _ _ Hsearch) as Hm.
    split; [exact Hm |].
    destruct Hm as [before [c [after [Heq [_ [Hlw [Hlh [Hdw Hdh]]]]]]]].
    destruct (int_of_str_returns wd Hlw Hdw) as [w Hw].
    destruct (int_of_str_returns hd Hlh Hdh) as [h Hh].
    exists w, h; repeat split; auto.
    rewrite (no_sizes_attribute element Hnone), Hhref.
    unfold dimensions_from_href.
    destruct href as [| c0 href]; [discriminate Hsearch |].
    cbn [truthy]; rewrite Hsearch, Hw, Hh; reflexivity.
  - intros element Hnone Hnomatch.
    rewrite (no_sizes_attribute element Hnone).
    unfold dimensions_from_href.
    destruct (href_or_content element) as [href |]; [| reflexivity].
    rewrite (Hnomatch href eq_refl).
    destruct (truthy (Some href)); reflexivity.
Qed.

End ExtractFacts.

Lemma _extract_dimensions_sources_witness :
  exists best w h,
    In best (Py.split_on (N.eqb 32) (Py.lit "192x192 96x96 48x48"))
    /\ Spec.parse_size (fun _ => None) 4300%nat best = Some (w, h)
    /\ Hunter._extract_dimensions (fun _ => None) 4300%nat Examples.link_with_sizes = (w, h)
    /\ forall other w1 h1,
         In other (Py.split_on (N.eqb 32) (Py.lit "192x192 96x96 48x48")) ->
         Spec.parse_size (fun _ => None) 4300%nat other = Some (w1, h1) ->
         w1 * h1 <= w * h.
Proof.
  destruct (_extract_dimensions_sources (fun _ => None) 4300%nat)
    as [_ [_ [_ [_ [H _]]]]].
  apply (H Examples.link_with_sizes (Py.lit "192x192 96x96 48x48")
           eq_refl ltac:(discriminate) eq_refl
           (Py.lit "96x96") 96 96).
  - vm_compute; tauto.
  - vm_compute; reflexivity.
  - reflexivity.
Defined.

(* ===================================================================== *)
(** * Properties of the division of two ints                              *)
(* ===================================================================== *)

Section FloatFacts.
Import Py.

Lemma digits2_pos_size : forall p, digits2_pos p = Pos.size p.
Proof. induction p; simpl; congruence. Qed.

Lemma Zdigits2_bounds :
  forall p : positive,
    2 ^ (Zdigits2 (Zpos p) - 1) <= Zpos p < 2 ^ Zdigits2 (Zpos p).
Proof.
  intros p; unfold Zdigits2; rewrite digits2_pos_size.
  pose proof (Pos.size_gt p) as Hgt.
  pose proof (Pos.size_le p) as Hle.
  assert (H1 : Zpos (2 ^ Pos.size p) = 2 ^ Zpos (Pos.size p))
    by (now rewrite Pos2Z.inj_pow).
  split.
  - assert (2 ^ Zpos (Pos.size p) = 2 * 2 ^ (Zpos (Pos.size p) - 1)).
    { rewrite <- Z.pow_succ_r by lia. f_equal; lia. }
    lia.
  - lia.
Qed.

Lemma Zdigits2_unique :
  forall (p : positive) (k : Z),
    2 ^ (k - 1) <= Zpos p < 2 ^ k -> Zdigits2 (Zpos p) = k.
Proof.
  intros p k [Hlo Hhi].
  pose proof (Zdigits2_bounds p) as [Hlo' Hhi'].
  set (d := Zdigits2 (Zpos p)) in *.
  assert (Hd : 0 < d) by (unfold d, Zdigits2; lia).
  assert (Hk : 0 < k).
  { destruct k as [| k | k]; [simpl in Hhi; lia | lia |].
    rewrite Z.pow_neg_r in Hhi by lia; lia. }
  destruct (Z.lt_trichotomy d k) as [H | [H | H]]; [| assumption |].
  - assert (2 ^ d <= 2 ^ (k - 1)) by (apply Z.pow_le_mono_r; lia). lia.
  - assert (2 ^ k <= 2 ^ (d - 1)) by (apply Z.pow_le_mono_r; lia). lia.
Qed.

Lemma two_eq : float_lit 2 1 = S754_finite false 4503599627370496 (-51).
Proof. vm_compute; reflexivity. Qed.

Lemma fexp_small :
  forall e, -1021 <= e -> fexp prec emax e = e - 53.
Proof.
  intros e He; unfold fexp, emin, prec, emax; lia.
Qed.

(** The quotient and the exponent the division of two ints starts from. *)
Lemma SFdiv_core_small :
  forall a b : positive,
    Zpos b <= Zpos a -> Zpos a < 2 ^ 52 ->
    exists s,
      2 <= s <= 53
      /\ 2 ^ 52 <= Zpos a * 2 ^ s / Zpos b < 2 ^ 54
      /\ SFdiv_core_binary prec emax (Zpos a) 0 (Zpos b) 0 =
         (Zpos a * 2 ^ s / Zpos b, - s,
          new_location (Zpos b) (Zpos a * 2 ^ s mod Zpos b)).
Proof.
  intros a b Hle Hlt.
  pose proof (Zdigits2_bounds a) as [Ha1 Ha2].
  pose proof (Zdigits2_bounds b) as [Hb1 Hb2].
  set (d1 := Zdigits2 (Zpos a)) in *.
  set (d2 := Zdigits2 (Zpos b)) in *.
  assert (Hd1 : 0 < d1) by (unfold d1, Zdigits2; lia).
  assert (Hd2 : 0 < d2) by (unfold d2, Zdigits2; lia).
  assert (Hd12 : d2 <= d1).
  { destruct (Z.le_gt_cases d2 d1); [assumption |].
    assert (2 ^ d1 <= 2 ^ (d2 - 1)) by (apply Z.pow_le_mono_r; lia). lia. }
  assert (Hd1' : d1 <= 52).
  { destruct (Z.le_gt_cases d1 52); [assumption |].
    assert (2 ^ 52 <= 2 ^ (d1 - 1)) by (apply Z.pow_le_mono_r; lia). lia. }
  exists (53 - (d1 - d2)).
  set (s := 53 - (d1 - d2)).
  assert (Hs : 2 <= s <= 53) by (unfold s; lia).
  split; [exact Hs |].
  assert (Hlow : 2 ^ 52 * 2 ^ d2 = 2 ^ (d1 - 1) * 2 ^ s).
  { rewrite <- !Z.pow_add_r by lia. f_equal; unfold s; lia. }
  assert (Hhigh : 2 ^ 54 * 2 ^ (d2 - 1) = 2 ^ d1 * 2 ^ s).
  { rewrite <- !Z.pow_add_r by lia. f_equal; unfold s; lia. }
  assert (Hps : 0 < 2 ^ s) by (apply Z.pow_pos_nonneg; lia).
  split.
  - split.
    + apply Z.div_le_lower_bound; [lia | nia].
    + apply Z.div_lt_upper_bound; [lia | nia].
  - unfold SFdiv_core_binary.
    fold d1 d2.
    replace (d1 + 0 - (d2 + 0)) with (d1 - d2) by lia.
    rewrite fexp_small by lia.
    replace (Z.min (d1 - d2 - 53) (0 - 0)) with (- s) by (unfold s; lia).
    replace (0 - 0 - - s) with s by lia.
    destruct s as [| ps | ps] eqn:Hs'; [lia | | lia].
    rewrite Z.shiftl_mul_pow2 by lia.
    unfold Z.div, Z.modulo.
    destruct (Z.div_eucl (Zpos a * 2 ^ Zpos ps) (Zpos b)); reflexivity.
Qed.

Lemma shr_m_of_loc : forall m l, shr_m (shr_record_of_loc m l) = m.
Proof. intros m [| []]; reflexivity. Qed.

Lemma loc_of_shr_of_loc : forall m l, loc_of_shr_record (shr_record_of_loc m l) = l.
Proof. intros m [| []]; reflexivity. Qed.

Lemma shr_m_shr_1 :
  forall mrs, 0 < shr_m mrs -> shr_m (shr_1 mrs) = shr_m mrs / 2.
Proof.
  intros [m r s] Hm; simpl in *.
  destruct m as [| [p | p |] |]; try lia; simpl shr_m.
  - rewrite Pos2Z.inj_xI.
    apply Z.div_unique with (r := 1); lia.
  - rewrite Pos2Z.inj_xO.
    apply Z.div_unique with (r := 0); lia.
  - reflexivity.
Qed.

Lemma round_nearest_even_bounds :
  forall m l, m <= round_nearest_even m l <= m + 1.
Proof.
  intros m [| []]; simpl; try lia.
  destruct (Z.even m); lia.
Qed.

(** The second normalisation and the packing of the result. *)
Lemma round_pack :
  forall m2 e1,
    2 ^ 52 <= m2 <= 2 ^ 53 -> -1000 <= e1 <= 0 ->
    (let '(mrs'', e'') := shr_fexp prec emax m2 e1 loc_Exact in
     match shr_m mrs'' with
     | Z0 => S754_zero false
     | Zpos m =>
         if e'' <=? emax - prec then S754_finite false m e''
         else S754_infinity false
     | Zneg _ => S754_nan
     end)
    = if m2 <? 2 ^ 53 then S754_finite false (Z.to_pos m2) e1
      else S754_finite false (2 ^ 52)%positive (e1 + 1).
Proof.
  intros m2 e1 Hm He.
  destruct m2 as [| p | p]; try lia.
  destruct (Zpos p <? 2 ^ 53) eqn:Hlt.
  - apply Z.ltb_lt in Hlt.
    unfold shr_fexp.
    rewrite (Zdigits2_unique p 53) by (change (53 - 1) with 52; lia).
    rewrite fexp_small by lia.
    replace (53 + e1 - 53 - e1) with 0 by lia.
    cbn [shr shr_record_of_loc shr_m].
    replace (e1 <=? emax - prec) with true
      by (symmetry; apply Z.leb_le; unfold emax, prec; lia).
    reflexivity.
  - apply Z.ltb_ge in Hlt.
    assert (Hp : Zpos p = 2 ^ 53) by lia.
    inversion Hp as [Hp']; subst p.
    unfold shr_fexp.
    replace (Zdigits2 _) with 54 by reflexivity.
    rewrite fexp_small by lia.
    replace (54 + e1 - 53 - e1) with 1 by lia.
    cbn [shr iter_pos].
    replace (e1 + 1 <=? emax - prec) with true
      by (symmetry; apply Z.leb_le; unfold emax, prec; lia).
    reflexivity.
Qed.

(** The rounding of a quotient of 53 or 54 bits. *)
Lemma binary_round_aux_normal :
  forall q e loc,
    2 ^ 52 <= q < 2 ^ 54 -> -1000 <= e <= -1 ->
    exists n m1 m2,
      (n = 0 \/ n = 1)
      /\ m1 = q / 2 ^ n
      /\ 2 ^ 52 <= m1 < 2 ^ 53
      /\ m1 <= m2 <= m1 + 1
      /\ (loc = loc_Exact -> q mod 2 ^ n = 0 -> m2 = m1)
      /\ binary_round_aux prec emax false q e loc
         = if m2 <? 2 ^ 53 then S754_finite false (Z.to_pos m2) (e + n)
           else S754_finite false (2 ^ 52)%positive (e + n + 1).
Proof.
  intros q e loc Hq He.
  destruct q as [| pq | pq]; try lia.
  unfold binary_round_aux.
  destruct (Z.lt_ge_cases (Zpos pq) (2 ^ 53)) as [Hlt | Hge].
  - exists 0, (Zpos pq), (round_nearest_even (Zpos pq) loc).
    pose proof (round_nearest_even_bounds (Zpos pq) loc) as Hb.
    split; [now left |].
    split; [now rewrite Z.pow_0_r, Z.div_1_r |].
    split; [lia |]. split; [exact Hb |].
    split; [intros -> _; reflexivity |].
    unfold shr_fexp at 1.
    rewrite (Zdigits2_unique pq 53) by (change (53 - 1) with 52; lia).
    rewrite fexp_small by lia.
    replace (53 + e - 53 - e) with 0 by lia.
    cbn [shr].
    rewrite shr_m_of_loc, loc_of_shr_of_loc, Z.add_0_r.
    apply round_pack; lia.
  - set (mrs := shr_1 (shr_record_of_loc (Zpos pq) loc)).
    assert (Hm1 : shr_m mrs = Zpos pq / 2).
    { unfold mrs; rewrite shr_m_shr_1; rewrite shr_m_of_loc; [reflexivity | lia]. }
    assert (Hm1b : 2 ^ 52 <= Zpos pq / 2 < 2 ^ 53).
    { split.
      - apply Z.div_le_lower_bound; lia.
      - apply Z.div_lt_upper_bound; lia. }
    exists 1, (Zpos pq / 2),
      (round_nearest_even (shr_m mrs) (loc_of_shr_record mrs)).
    pose proof (round_nearest_even_bounds (shr_m mrs) (loc_of_shr_record mrs))
      as Hb.
    split; [now right |].
    split; [now rewrite Z.pow_1_r |].
    split; [exact Hm1b |]. split; [lia |].
    split.
    { intros -> Hmod; rewrite Z.pow_1_r in Hmod.
      rewrite <- Hm1; unfold mrs; simpl shr_record_of_loc.
      destruct pq as [pq | pq |]; simpl shr_1; simpl.
      - rewrite Pos2Z.inj_xI in Hmod.
        rewrite Z.add_comm, Z.mul_comm, Z.mod_add in Hmod by lia.
        discriminate Hmod.
      - reflexivity.
      - discriminate Hmod. }
    unfold shr_fexp at 1.
    rewrite (Zdigits2_unique pq 54) by (change (54 - 1) with 53; lia).
    rewrite fexp_small by lia.
    replace (54 + e - 53 - e) with 1 by lia.
    cbn [shr iter_pos]; fold mrs.
    replace (e + 1 + 1) with (e + 1 + 1) by reflexivity.
    apply round_pack; lia.
Qed.

Lemma float_ltb_two_finite :
  forall m e,
    float_ltb (float_lit 2 1) (S754_finite false m e) = true <->
    -51 < e \/ (e = -51 /\ 2 ^ 52 < Zpos m).
Proof.
  intros m e; rewrite two_eq; unfold float_ltb, SFltb, SFcompare.
  assert (HP : 2 ^ 52 = Zpos 4503599627370496) by reflexivity.
  rewrite HP; clear HP.
  remember 4503599627370496%positive as P eqn:HeqP; clear HeqP.
  destruct (Z.compare_spec (-51) e) as [He | He | He].
  - subst e.
    change (Pos.compare_cont Eq P m) with (Pos.compare P m).
    destruct (Pos.compare_spec P m) as [Hm | Hm | Hm].
    + subst m; split; [discriminate | intros [H | [_ H]]; lia].
    + split; [intros _; right; split; [reflexivity | lia] | reflexivity].
    + split; [discriminate | intros [H | [_ H]]; lia].
  - split; [intros _; now left | reflexivity].
  - split; [discriminate | intros [H | [H _]]; lia].
Qed.

Lemma new_location_zero : forall b, new_location b 0 = loc_Exact.
Proof.
  intros b; unfold new_location, new_location_even, new_location_odd.
  destruct (Z.even b); reflexivity.
Qed.

(** For sides below 2^52 the quotient the program compares with 2.0
    exceeds it exactly when the longer side is more than twice the
    shorter. *)
Lemma int_true_div_gt_two :
  forall a b : Z,
    0 < b -> b <= a -> a < 2 ^ 52 ->
    exists r,
      int_true_div a b = Ok r
      /\ (float_ltb (float_lit 2 1) r = true <-> 2 * b < a).
Proof.
  intros a b Hb Hle Hlt.
  destruct a as [| pa | pa]; try lia.
  destruct b as [| pb | pb]; try lia.
  destruct (SFdiv_core_small pa pb Hle Hlt) as [s [Hs [Hq Hcore]]].
  set (q := Zpos pa * 2 ^ s / Zpos pb) in *.
  set (loc := new_location (Zpos pb) (Zpos pa * 2 ^ s mod Zpos pb)) in *.
  destruct (binary_round_aux_normal q (- s) loc Hq ltac:(lia))
    as [n [m1 [m2 [Hn [Hm1 [Hm1b [Hm2 [Hexact Hround]]]]]]]].
  assert (Hdiv : int_true_div (Zpos pa) (Zpos pb) =
                 Ok (if m2 <? 2 ^ 53 then S754_finite false (Z.to_pos m2) (- s + n)
                     else S754_finite false (2 ^ 52)%positive (- s + n + 1))).
  { unfold int_true_div, SFdiv; cbn [Z.eqb int_exact xorb].
    rewrite Hcore, Hround.
    destruct (m2 <? 2 ^ 53); reflexivity. }
  eexists; split; [exact Hdiv |].
  set (T := 2 ^ (s - n)).
  assert (HT : 0 < T) by (apply Z.pow_pos_nonneg; lia).
  assert (HP : 2 ^ s = T * 2 ^ n).
  { unfold T; rewrite <- Z.pow_add_r by lia. f_equal; lia. }
  assert (Hn2 : 0 < 2 ^ n) by (apply Z.pow_pos_nonneg; lia).
  assert (Hm1' : m1 = Zpos pa * T / Zpos pb).
  { rewrite Hm1; unfold q; rewrite HP.
    rewrite Z.div_div by lia.
    rewrite Z.mul_assoc, Z.div_mul_cancel_r by lia. reflexivity. }
  assert (Hfloor : m1 * Zpos pb <= Zpos pa * T < (m1 + 1) * Zpos pb).
  { rewrite Hm1'.
    pose proof (Z.div_mod (Zpos pa * T) (Zpos pb) ltac:(lia)) as Hdm.
    pose proof (Z.mod_pos_bound (Zpos pa * T) (Zpos pb) ltac:(lia)) as Hmb.
    nia. }
  assert (Hcase : s - n <= 50 \/ s - n = 51 \/ 52 <= s - n) by lia.
  assert (HT50 : s - n <= 50 -> T <= 2 ^ 50)
    by (intros; unfold T; apply Z.pow_le_mono_r; lia).
  assert (HT52 : 52 <= s - n -> 2 ^ 52 <= T)
    by (intros; unfold T; apply Z.pow_le_mono_r; lia).
  assert (HT51 : s - n = 51 -> T = 2 ^ 51)
    by (intros H; unfold T; now rewrite H).
  destruct (m2 <? 2 ^ 53) eqn:Hm2lt.
  - apply Z.ltb_lt in Hm2lt.
    rewrite float_ltb_two_finite, Z2Pos.id by lia.
    split.
    + intros [He | [He Hm]].
      * assert (T <= 2 ^ 50) by (apply HT50; lia). nia.
      * assert (HTe : T = 2 ^ 51) by (apply HT51; lia).
        destruct (Z.lt_ge_cases (2 * Zpos pb) (Zpos pa)) as [|Hge];
          [assumption | exfalso].
        assert (Hm1eq : m1 = 2 ^ 52) by nia.
        assert (Hab : Zpos pa = 2 * Zpos pb) by nia.
        assert (Hqe : Zpos pa * 2 ^ s = 2 ^ (s + 1) * Zpos pb).
        { rewrite Hab, Z.pow_add_r by lia. ring. }
        assert (Hloc : loc = loc_Exact).
        { unfold loc; rewrite Hqe, Z.mod_mul by lia.
          apply new_location_zero. }
        assert (Hqv : q = 2 ^ (s + 1)).
        { unfold q; rewrite Hqe, Z.div_mul by lia. reflexivity. }
        assert (Hmod : q mod 2 ^ n = 0).
        { rewrite Hqv.
          replace (s + 1) with (s + 1 - n + n) by lia.
          rewrite Z.pow_add_r by lia. apply Z.mod_mul; lia. }
        rewrite (Hexact Hloc Hmod) in Hm; lia.
    + intros Hgt.
      destruct Hcase as [Hc | [Hc | Hc]].
      * left; lia.
      * right; split; [lia |].
        assert (HTe : T = 2 ^ 51) by (apply HT51; lia).
        assert (2 ^ 52 < m1) by nia. lia.
      * exfalso. assert (2 ^ 52 <= T) by (apply HT52; lia). nia.
  - apply Z.ltb_ge in Hm2lt.
    rewrite float_ltb_two_finite.
    change (Zpos (2 ^ 52)) with (2 ^ 52).
    split.
    + intros [He | [_ Hm]]; [| lia].
      destruct (Z.lt_ge_cases (2 * Zpos pb) (Zpos pa)) as [|Hge];
        [assumption | exfalso].
      destruct Hcase as [Hc | [Hc | Hc]].
      * assert (T <= 2 ^ 50) by (apply HT50; lia). nia.
      * assert (HTe : T = 2 ^ 51) by (apply HT51; lia). nia.
      * lia.
    + intros Hgt; left.
      destruct Hcase as [Hc | [Hc | Hc]]; [lia | lia | exfalso].
      assert (2 ^ 52 <= T) by (apply HT52; lia). nia.
Qed.

End FloatFacts.

(* ===================================================================== *)
(** * Properties of icon validation                                       *)
(* ===================================================================== *)

Section ValidateFacts.
Import Py Hunter.

Lemma _validate_icon_too_small :
  forall (icon : Icon) (image : PIL.Image),
    Z.max (fst (PIL.size image)) (snd (PIL.size image)) < 16 ->
    _validate_icon icon image = false.
Proof.
  intros icon image Hsmall; unfold _validate_icon.
  destruct (PIL.size image) as [width height]; simpl in Hsmall.
  apply Z.ltb_lt in Hsmall.
  destruct ((0 <? width) && (0 <? height)).
  - destruct (int_true_div _ _) as [r | e]; simpl; [| reflexivity].
    destruct (float_ltb (float_lit 2 1) r); simpl; [reflexivity |].
    now rewrite Hsmall.
  - simpl; now rewrite Hsmall.
Qed.

Lemma _validate_icon_bad_ratio :
  forall (icon : Icon) (image : PIL.Image) (aspect_ratio : float),
    0 < fst (PIL.size image) ->
    0 < snd (PIL.size image) ->
    int_true_div (Z.max (fst (PIL.size image)) (snd (PIL.size image)))
                 (Z.min (fst (PIL.size image)) (snd (PIL.size image)))
      = Ok aspect_ratio ->
    float_ltb (float_lit 2 1) aspect_ratio = true ->
    _validate_icon icon image = false.
Proof.
  intros icon image r Hw Hh Hdiv Hgt; unfold _validate_icon.
  destruct (PIL.size image) as [width height]; simpl in *.
  apply Z.ltb_lt in Hw, Hh; rewrite Hw, Hh; simpl.
  rewrite Hdiv; simpl; rewrite Hgt; reflexivity.
Qed.

(** C8: a 10x10 image fails on its size, a 600x100 image fails on its
    ratio of 6.0, a 200x200 image is accepted; in general an image whose
    longest side is below 16 fails, and so does one whose longer side is
    more than twice the shorter (for sides below 2^52, where the float
    the division yields exceeds 2.0 exactly then; for any sides, when
    that float exceeds 2.0). *)
Theorem _validate_icon_checks :
  (forall icon, _validate_icon icon (Examples.image_of_size 10 10) = false)
  /\ (forall icon, _validate_icon icon (Examples.image_of_size 600 100) = false)
  /\ int_true_div 600 100 = Ok (float_lit 6 1)
  /\ float_ltb (float_lit 2 1) (float_lit 6 1) = true
  /\ (forall icon, _validate_icon icon (Examples.image_of_size 200 200) = true)
  /\ (forall icon image,
        Z.max (fst (PIL.size image)) (snd (PIL.size image)) < 16 ->
        _validate_icon icon image = false)
  /\ (forall icon image aspect_ratio,
        0 < fst (PIL.size image) ->
        0 < snd (PIL.size image) ->
        int_true_div (Z.max (fst (PIL.size image)) (snd (PIL.size image)))
                     (Z.min (fst (PIL.size image)) (snd (PIL.size image)))
          = Ok aspect_ratio ->
        float_ltb (float_lit 2 1) aspect_ratio = true ->
        _validate_icon icon image = false)
  /\ (forall icon image,
        0 < fst (PIL.size image) ->
        0 < snd (PIL.size image) ->
        Z.max (fst (PIL.size image)) (snd (PIL.size image)) < 2 ^ 52 ->
        2 * Z.min (fst (PIL.size image)) (snd (PIL.size image))
          < Z.max (fst (PIL.size image)) (snd (PIL.size image)) ->
        _validate_icon icon image = false).
Proof.
  split; [intros icon; apply _validate_icon_too_small; simpl; lia |].
  split.
  { intros icon.
    apply (_validate_icon_bad_ratio icon _ (float_lit 6 1));
      [simpl; lia | simpl; lia | vm_compute; reflexivity
      | vm_compute; reflexivity]. }
  split; [vm_compute; reflexivity |].
  split; [vm_compute; reflexivity |].
  split.
  { intros icon; unfold _validate_icon, Examples.image_of_size.
    cbn [PIL.size].
    replace (int_true_div (Z.max 200 200) (Z.min 200 200))
      with (Ok (float_lit 1 1)) by (vm_compute; reflexivity).
    replace (float_ltb (float_lit 2 1) (float_lit 1 1)) with false
      by (vm_compute; reflexivity).
    simpl.
    destruct (str_eqb (lower (format icon)) (lit "svg")); reflexivity. }
  split; [exact _validate_icon_too_small |].
  split; [exact _validate_icon_bad_ratio |].
  intros icon image Hw Hh Hbound Hratio.
  destruct (int_true_div_gt_two
              (Z.max (fst (PIL.size image)) (snd (PIL.size image)))
              (Z.min (fst (PIL.size image)) (snd (PIL.size image))))
    as [r [Hdiv Hiff]]; [lia | lia | exact Hbound |].
  apply (_validate_icon_bad_ratio icon image r Hw Hh Hdiv).
  now apply Hiff.
Qed.

Lemma _validate_icon_checks_witness :
  _validate_icon (Examples.icon_of "https://example.com/banner.png" 600 100 "")
    (Examples.image_of_size 600 100) = false
  /\ _validate_icon (Examples.icon_of "https://example.com/tiny.png" 10 10 "")
       (Examples.image_of_size 10 10) = false.
Proof.
  destruct _validate_icon_checks as [_ [_ [_ [_ [_ [Hsmall [_ Hratio]]]]]]].
  split.
  - apply (Hratio _ (Examples.image_of_size 600 100));
      [simpl; lia | simpl; lia | reflexivity | reflexivity].
  - apply Hsmall; simpl; lia.
Defined.

End ValidateFacts.

(* ===================================================================== *)
(** * Properties of best-logo materialization                             *)
(* ===================================================================== *)

Section FetchFacts.
Import Py Hunter.

Variable client_get : str -> Exc Response.
Variable image_open : bytes -> Exc PIL.Image.

(** The walk passes over the candidates that fail validation. *)
Lemma try_urls_skips :
  forall (before : list str) (u : str) (after : list str),
    (forall v, In v before -> fetch_and_validate client_get image_open v = None) ->
    try_urls client_get image_open (before ++ u :: after) =
    match fetch_and_validate client_get image_open u with
    | Some (image, _) => Some image
    | None => try_urls client_get image_open after
    end.
Proof.
  induction before as [| v before IH]; intros u after Hskip; [reflexivity |].
  simpl; rewrite (Hskip v (or_introl eq_refl)).
  apply IH; intros w Hw; apply Hskip; now right.
Qed.

Lemma fetch_best_logo_walk :
  forall (before : list str) (u : str) (after : list str),
    (forall v, In v before -> fetch_and_validate client_get image_open v = None) ->
    fetch_best_logo client_get image_open (before ++ u :: after) =
    match fetch_and_validate client_get image_open u with
    | Some (image, _) => Some image
    | None => fetch_best_logo client_get image_open after
    end.
Proof.
  intros before u after Hskip.
  replace (fetch_best_logo client_get image_open (before ++ u :: after))
    with (try_urls client_get image_open (before ++ u :: after))
    by (destruct before; reflexivity).
  replace (fetch_best_logo client_get image_open after)
    with (try_urls client_get image_open after)
    by (destruct after; reflexivity).
  now apply try_urls_skips.
Qed.

End FetchFacts.

Section FetchClaims.
Import Py Hunter.

Variable client_get : str -> Exc Response.
Variable image_open : bytes -> Exc PIL.Image.

(** An accepted SVG response is returned as text, whatever the decoder. *)
Lemma fetch_and_validate_svg :
  forall (decoder : bytes -> Exc PIL.Image) (u : str) (response : Response)
         (text : str),
    client_get u = Ok response ->
    status_error response = false ->
    existsb (fun t => contains (content_type response) t) valid_types = true ->
    contains (content_type response) (lit "svg") = true ->
    decode_utf8 (content response) = Ok text ->
    fetch_and_validate client_get decoder u = Some (Svg text, 100000).
Proof.
  intros decoder u response text Hget Hstatus Hvalid Hsvg Hdecode.
  unfold fetch_and_validate.
  rewrite Hget; cbn [bind]; rewrite Hstatus; cbn [bind].
  rewrite Hvalid, Hsvg, Hdecode; reflexivity.
Qed.

Lemma fetch_and_validate_unsupported :
  forall (u : str) (response : Response),
    client_get u = Ok response ->
    existsb (fun t => contains (content_type response) t) valid_types = false ->
    fetch_and_validate client_get image_open u = None.
Proof.
  intros u response Hget Hvalid; unfold fetch_and_validate.
  rewrite Hget; cbn [bind].
  destruct (status_error response); cbn [bind]; [reflexivity |].
  rewrite Hvalid; reflexivity.
Qed.

(** C6 (as amended): when the walk reaches a candidate whose fetch
    succeeds with a content type that holds an accepted type and [svg],
    and whose body is UTF-8, the function returns the decoded text; the
    image decoder has no part in it; and a candidate whose content type
    holds no accepted type is passed over, the walk going on with the
    next URL. *)
Theorem fetch_best_logo_svg_first :
  (forall before u after response text,
      (forall v, In v before ->
                 fetch_and_validate client_get image_open v = None) ->
      client_get u = Ok response ->
      status_error response = false ->
      existsb (fun t => contains (content_type response) t) valid_types = true ->
      contains (content_type response) (lit "svg") = true ->
      decode_utf8 (content response) = Ok text ->
      fetch_best_logo client_get image_open (before ++ u :: after)
        = Some (Svg text)
      /\ forall decoder,
           fetch_and_validate client_get decoder u = Some (Svg text, 100000))
  /\ (forall u rest response,
        client_get u = Ok response ->
        existsb (fun t => contains (content_type response) t) valid_types = false ->
        fetch_and_validate client_get image_open u = None
        /\ fetch_best_logo client_get image_open (u :: rest)
           = fetch_best_logo client_get image_open rest).
Proof.
  split.
  - intros before u after response text Hskip Hget Hstatus Hvalid Hsvg Hdecode.
    split.
    + rewrite (fetch_best_logo_walk client_get image_open before u after Hskip).
      now rewrite (fetch_and_validate_svg image_open u response text).
    + intros decoder; now apply (fetch_and_validate_svg decoder u response text).
  - intros u rest response Hget Hvalid.
    pose proof (fetch_and_validate_unsupported u response Hget Hvalid) as Hnone.
    split; [exact Hnone |].
    change (u :: rest) with ([] ++ u :: rest).
    rewrite (fetch_best_logo_walk client_get image_open [] u rest);
      [now rewrite Hnone | intros v []].
Qed.

End FetchClaims.

Lemma fetch_best_logo_svg_first_witness :
  Hunter.fetch_best_logo Examples.serve_mixed Examples.no_decoder
    [Py.lit "https://example.com/about"; Py.lit "https://example.com/logo.svg";
     Py.lit "https://example.com/favicon.ico"]
  = Some (Hunter.Svg (Py.lit "<svg xmlns='http://www.w3.org/2000/svg'/>")).
Proof.
  destruct (fetch_best_logo_svg_first Examples.serve_mixed Examples.no_decoder)
    as [Hsvg Hskip].
  apply (Hsvg [Py.lit "https://example.com/about"]
              (Py.lit "https://example.com/logo.svg")
              [Py.lit "https://example.com/favicon.ico"]
              {| Hunter.status_error := false;
                 Hunter.content_type := Py.lit "image/svg+xml";
                 Hunter.content := Examples.svg_body |}).
  - intros v [<- | []].
    apply (Hskip _ []
             {| Hunter.status_error := false;
                Hunter.content_type := Py.lit "text/html";
                Hunter.content := list_byte_of_string "<html></html>" |});
      vm_compute; reflexivity.
  - vm_compute; reflexivity.
  - reflexivity.
  - vm_compute; reflexivity.
  - vm_compute; reflexivity.
  - vm_compute; reflexivity.
Defined.

(** C6 (as stated) fails: a response whose content type [image/svg]
    holds [svg] but none of the accepted types is passed over, and so is
    one of type [image/svg+xml] whose body is no UTF-8; in both cases
    the function returns nothing. *)
Lemma fetch_best_logo_svg_counterexample :
  Py.contains (Py.lit "image/svg") (Py.lit "svg") = true
  /\ Py.decode_utf8 Examples.svg_body
     = Py.Ok (Py.lit "<svg xmlns='http://www.w3.org/2000/svg'/>")
  /\ Hunter.fetch_best_logo Examples.serve_svg_short_type Examples.no_decoder
       [Py.lit "https://example.com/logo.svg"] = None
  /\ Py.contains (Py.lit "image/svg+xml") (Py.lit "svg") = true
  /\ Hunter.fetch_best_logo Examples.serve_svg_bad_bytes Examples.no_decoder
       [Py.lit "https://example.com/logo.svg"] = None.
Proof.
  repeat split; vm_compute; reflexivity.
Qed.

(* ===================================================================== *)
(** * Properties of encoding                                              *)
(* ===================================================================== *)

Section ProcessImageFacts.
Import Py Hunter.

Variable resize : PIL.Image -> Z * Z -> Exc PIL.Image.
Variable new_image : str -> Z * Z -> Z * Z * Z -> PIL.Image.
Variable convert : PIL.Image -> str -> Exc PIL.Image.
Variable split : PIL.Image -> list PIL.Image.
Variable paste : PIL.Image -> PIL.Image -> option PIL.Image -> Exc PIL.Image.
Variable save : PIL.Image -> str -> Exc bytes.

(** What the program relies on from the image library: a new image has
    the mode and size asked for; converting a palette image to RGBA
    gives an RGBA image of the same size; an RGBA image splits into bands
    of its size, the alpha band last; pasting an image of the
    background's size through a mask of that size succeeds and leaves
    the background's mode; and the JPEG encoder accepts an RGB image. *)
Hypothesis new_image_mode :
  forall mode size color, PIL.mode (new_image mode size color) = mode.
Hypothesis new_image_size :
  forall mode size color, PIL.size (new_image mode size color) = size.
Hypothesis convert_palette :
  forall image,
    PIL.mode image = lit "P" ->
    exists rgba,
      convert image (lit "RGBA") = Ok rgba
      /\ PIL.mode rgba = lit "RGBA" /\ PIL.size rgba = PIL.size image.
Hypothesis split_rgba :
  forall image,
    PIL.mode image = lit "RGBA" ->
    exists bands alpha,
      split image = bands ++ [alpha] /\ PIL.size alpha = PIL.size image.
Hypothesis paste_masked :
  forall background image mask,
    PIL.size image = PIL.size background ->
    PIL.size mask = PIL.size image ->
    exists pasted,
      paste background image (Some mask) = Ok pasted
      /\ PIL.mode pasted = PIL.mode background.
Hypothesis save_rgb_as_jpeg :
  forall image,
    PIL.mode image = lit "RGB" -> exists out, save image (lit "JPEG") = Ok out.

Lemma last_band_snoc :
  forall (bands : list PIL.Image) (alpha : PIL.Image),
    last_band (bands ++ [alpha]) = Ok alpha.
Proof.
  intros bands alpha; unfold last_band.
  now rewrite rev_app_distr.
Qed.

(** Flattening an RGBA or palette image: the white RGB background with
    the image pasted through its alpha band. *)
Lemma flatten_on_white_spec :
  forall image : PIL.Image,
    PIL.mode image = lit "RGBA" \/ PIL.mode image = lit "P" ->
    exists rgba alpha flat,
      (PIL.mode image = lit "RGBA" /\ rgba = image
       \/ PIL.mode image = lit "P" /\ convert image (lit "RGBA") = Ok rgba)
      /\ last_band (split rgba) = Ok alpha
      /\ paste (new_image (lit "RGB") (PIL.size image) (255, 255, 255))
               rgba (Some alpha) = Ok flat
      /\ PIL.mode flat = lit "RGB"
      /\ flatten_on_white new_image convert split paste image = Ok flat.
Proof.
  intros image Hmode.
  assert (Hrgba : exists rgba,
             (PIL.mode image = lit "RGBA" /\ rgba = image
              \/ PIL.mode image = lit "P" /\ convert image (lit "RGBA") = Ok rgba)
             /\ PIL.mode rgba = lit "RGBA"
             /\ PIL.size rgba = PIL.size image
             /\ (if str_eqb (PIL.mode image) (lit "P")
                 then convert image (lit "RGBA") else Ok image) = Ok rgba).
  { destruct Hmode as [Hm | Hm].
    - exists image; rewrite Hm; repeat split; auto.
    - destruct (convert_palette image Hm) as [rgba [Hc [Hm' Hs']]].
      exists rgba; rewrite Hm; repeat split; auto. }
  destruct Hrgba as [rgba [Hsrc [Hm [Hs Hstep]]]].
  destruct (split_rgba rgba Hm) as [bands [alpha [Hsplit Hsa]]].
  destruct (paste_masked
              (new_image (lit "RGB") (PIL.size image) (255, 255, 255))
              rgba alpha) as [flat [Hpaste Hmf]].
  { now rewrite new_image_size. }
  { exact Hsa. }
  rewrite new_image_mode in Hmf.
  exists rgba, alpha, flat.
  assert (Hlast : last_band (split rgba) = Ok alpha)
    by (rewrite Hsplit; apply last_band_snoc).
  repeat split; auto.
  unfold flatten_on_white.
  rewrite Hstep; cbn [bind]; rewrite Hm.
  replace (str_eqb (lit "RGBA") (lit "RGBA")) with true by reflexivity.
  rewrite Hlast; cbn [bind]; exact Hpaste.
Qed.

(** C7: SVG text is returned as its UTF-8 encoding whatever the format
    and the resize target; an RGBA or palette image asked for as JPEG
    (or JPG, in any case) is replaced, before saving, by a white RGB
    image onto which it is pasted through its alpha band, and the save
    of that RGB image returns the bytes. *)
Theorem process_image_svg_and_jpeg :
  (forall text output_format resize_to,
      process_image resize new_image convert split paste save
        (Svg text) output_format resize_to = encode_utf8 text)
  /\ (forall image output_format resize_to resized,
        match resize_to with
        | Some size => resize image size = Ok resized
        | None => resized = image
        end ->
        upper output_format = lit "JPEG" \/ upper output_format = lit "JPG" ->
        PIL.mode resized = lit "RGBA" \/ PIL.mode resized = lit "P" ->
        exists rgba alpha flat out,
          (PIL.mode resized = lit "RGBA" /\ rgba = resized
           \/ PIL.mode resized = lit "P"
              /\ convert resized (lit "RGBA") = Ok rgba)
          /\ last_band (split rgba) = Ok alpha
          /\ paste (new_image (lit "RGB") (PIL.size resized) (255, 255, 255))
                   rgba (Some alpha) = Ok flat
          /\ PIL.mode flat = lit "RGB"
          /\ save flat (lit "JPEG") = Ok out
          /\ process_image resize new_image convert split paste save
               (Raster image) output_format resize_to = Ok out).
Proof.
  split; [reflexivity |].
  intros image output_format resize_to resized Hresize Hformat Hmode.
  destruct (flatten_on_white_spec resized Hmode)
    as [rgba [alpha [flat [Hsrc [Hlast [Hpaste [Hmf Hflat]]]]]]].
  destruct (save_rgb_as_jpeg flat Hmf) as [out Hsave].
  exists rgba, alpha, flat, out; repeat split; auto.
  unfold process_image.
  assert (Hstep : match resize_to with
                  | Some size => resize image size
                  | None => Ok image
                  end = Ok resized).
  { destruct resize_to; [exact Hresize | now subst]. }
  rewrite Hstep; cbn [bind].
  assert (Hfmt : (if str_eqb (upper output_format) (lit "JPG")
                  then lit "JPEG" else upper output_format) = lit "JPEG").
  { destruct Hformat as [-> | ->]; reflexivity. }
  rewrite Hfmt.
  replace (str_eqb (lit "JPEG") (lit "JPEG")) with true by reflexivity.
  assert (Hm : str_eqb (PIL.mode resized) (lit "RGBA")
               || str_eqb (PIL.mode resized) (lit "P") = true).
  { destruct Hmode as [-> | ->]; reflexivity. }
  rewrite Hm; cbn [andb]; rewrite Hflat; cbn [bind]; exact Hsave.
Qed.

End ProcessImageFacts.

Lemma process_image_svg_and_jpeg_witness :
  exists out,
    Hunter.process_image Examples.toy_resize Examples.toy_new Examples.toy_convert
      Examples.toy_split Examples.toy_paste Examples.toy_save
      (Hunter.Raster Examples.rgba_image) (Py.lit "jpg") (Some (50, 50))
    = Py.Ok out.
Proof.
  assert (Hsplit : forall image,
             PIL.mode image = Py.lit "RGBA" ->
             exists bands alpha,
               Examples.toy_split image = bands ++ [alpha]
               /\ PIL.size alpha = PIL.size image).
  { intros image Hm; unfold Examples.toy_split; rewrite Hm.
    exists (List.map
              (fun _ => {| PIL.mode := Py.lit "L"; PIL.size := PIL.size image;
                           PIL.pixels := [] |})
              (Py.lit "RGB")),
           {| PIL.mode := Py.lit "L"; PIL.size := PIL.size image;
              PIL.pixels := [] |}.
    split; reflexivity. }
  assert (Hsave : forall image,
             PIL.mode image = Py.lit "RGB" ->
             exists out, Examples.toy_save image (Py.lit "JPEG") = Py.Ok out).
  { intros image Hm; unfold Examples.toy_save; rewrite Hm; eexists; reflexivity. }
  destruct (process_image_svg_and_jpeg
              Examples.toy_resize Examples.toy_new Examples.toy_convert
              Examples.toy_split Examples.toy_paste Examples.toy_save
              (fun _ _ _ => eq_refl) (fun _ _ _ => eq_refl)
              (fun image _ =>
                 ex_intro _ _ (conj eq_refl (conj eq_refl eq_refl)))
              Hsplit
              (fun background _ _ _ _ =>
                 ex_intro _ background (conj eq_refl eq_refl))
              Hsave) as [_ H].
  destruct (H Examples.rgba_image (Py.lit "jpg") (Some (50, 50))
              {| PIL.mode := Py.lit "RGBA"; PIL.size := (50, 50);
                 PIL.pixels := [] |}
              eq_refl (or_intror eq_refl) (or_introl eq_refl))
    as [_ [_ [_ [out [_ [_ [_ [_ [_ Hout]]]]]]]]].
  exists out; exact Hout.
Defined.

(* ===================================================================== *)
(** * Properties of the UTF-8 codec                                       *)
(* ===================================================================== *)

Section Utf8Facts.
Import Py.

Ltac div_lia := zify; Z.to_euclidean_division_equations; lia.

Lemma in_range_true :
  forall lo hi b : N, in_range lo hi b = true <-> (lo <= b <= hi)%N.
Proof.
  intros lo hi b; unfold in_range.
  rewrite andb_true_iff, !N.leb_le; tauto.
Qed.

Lemma in_range_false :
  forall lo hi b : N, in_range lo hi b = false <-> (b < lo \/ hi < b)%N.
Proof.
  intros lo hi b; unfold in_range.
  rewrite andb_false_iff, !N.leb_gt; tauto.
Qed.

Lemma is_cont_true : forall b : N, is_cont b = true <-> (128 <= b <= 191)%N.
Proof. intros b; apply (in_range_true 128 191 b). Qed.

Lemma encode_char_1 :
  forall b0 : N, (b0 < 128)%N -> encode_char b0 = Ok [b0].
Proof.
  intros b0 H; unfold encode_char.
  apply N.ltb_lt in H; now rewrite H.
Qed.

Lemma encode_char_2 :
  forall b0 b1 : N,
    (194 <= b0 <= 223)%N -> (128 <= b1 <= 191)%N ->
    encode_char ((b0 - 192) * 64 + (b1 - 128)) = Ok [b0; b1].
Proof.
  intros b0 b1 H0 H1; unfold encode_char.
  set (c := ((b0 - 192) * 64 + (b1 - 128))%N).
  assert (Hc : (128 <= c < 2048)%N) by (subst c; lia).
  replace (c <? 128)%N with false by (symmetry; apply N.ltb_ge; lia).
  replace (c <? 2048)%N with true by (symmetry; apply N.ltb_lt; lia).
  f_equal; f_equal; [| f_equal]; subst c; div_lia.
Qed.

Lemma encode_char_3 :
  forall b0 b1 b2 : N,
    (224 <= b0 <= 239)%N ->
    (if (b0 =? 224)%N then in_range 160 191 b1
     else if (b0 =? 237)%N then in_range 128 159 b1
     else is_cont b1) = true ->
    (128 <= b2 <= 191)%N ->
    encode_char ((b0 - 224) * 4096 + (b1 - 128) * 64 + (b2 - 128))
    = Ok [b0; b1; b2].
Proof.
  intros b0 b1 b2 H0 H1 H2; unfold encode_char.
  set (c := ((b0 - 224) * 4096 + (b1 - 128) * 64 + (b2 - 128))%N).
  assert (Hb1 : (128 <= b1 <= 191)%N
                /\ (b0 = 224 -> 160 <= b1)%N /\ (b0 = 237 -> b1 <= 159)%N).
  { destruct (N.eqb_spec b0 224) as [E | E].
    - apply in_range_true in H1; lia.
    - destruct (N.eqb_spec b0 237) as [E' | E'].
      + apply in_range_true in H1; lia.
      + apply is_cont_true in H1; lia. }
  destruct Hb1 as [Hb1 [Hlo Hhi]].
  assert (Hc : (2048 <= c < 65536)%N /\ (c < 55296 \/ 57343 < c)%N).
  { subst c; split; [split |].
    - destruct (N.eq_dec b0 224) as [E | E]; [specialize (Hlo E) |]; lia.
    - lia.
    - destruct (N.eq_dec b0 237) as [E | E]; [specialize (Hhi E) |]; lia. }
  destruct Hc as [Hc Hsur].
  replace (c <? 128)%N with false by (symmetry; apply N.ltb_ge; lia).
  replace (c <? 2048)%N with false by (symmetry; apply N.ltb_ge; lia).
  replace (in_range 55296 57343 c) with false
    by (symmetry; apply in_range_false; lia).
  replace (c <? 65536)%N with true by (symmetry; apply N.ltb_lt; lia).
  f_equal; f_equal; [| f_equal; [| f_equal]]; subst c; div_lia.
Qed.

Lemma encode_char_4 :
  forall b0 b1 b2 b3 : N,
    (240 <= b0 <= 244)%N ->
    (if (b0 =? 240)%N then in_range 144 191 b1
     else if (b0 =? 244)%N then in_range 128 143 b1
     else is_cont b1) = true ->
    (128 <= b2 <= 191)%N -> (128 <= b3 <= 191)%N ->
    encode_char ((b0 - 240) * 262144 + (b1 - 128) * 4096
                 + (b2 - 128) * 64 + (b3 - 128))
    = Ok [b0; b1; b2; b3].
Proof.
  intros b0 b1 b2 b3 H0 H1 H2 H3; unfold encode_char.
  set (c := ((b0 - 240) * 262144 + (b1 - 128) * 4096
             + (b2 - 128) * 64 + (b3 - 128))%N).
  assert (Hb1 : (128 <= b1 <= 191)%N
                /\ (b0 = 240 -> 144 <= b1)%N /\ (b0 = 244 -> b1 <= 143)%N).
  { destruct (N.eqb_spec b0 240) as [E | E].
    - apply in_range_true in H1; lia.
    - destruct (N.eqb_spec b0 244) as [E' | E'].
      + apply in_range_true in H1; lia.
      + apply is_cont_true in H1; lia. }
  destruct Hb1 as [Hb1 [Hlo Hhi]].
  assert (Hc : (65536 <= c < 1114112)%N).
  { subst c; split.
    - destruct (N.eq_dec b0 240) as [E | E]; [specialize (Hlo E) |]; lia.
    - destruct (N.eq_dec b0 244) as [E | E]; [specialize (Hhi E) |]; lia. }
  replace (c <? 128)%N with false by (symmetry; apply N.ltb_ge; lia).
  replace (c <? 2048)%N with false by (symmetry; apply N.ltb_ge; lia).
  replace (in_range 55296 57343 c) with false
    by (symmetry; apply in_range_false; lia).
  replace (c <? 65536)%N with false by (symmetry; apply N.ltb_ge; lia).
  replace (c <? 1114112)%N with true by (symmetry; apply N.ltb_lt; lia).
  f_equal; f_equal; [| f_equal; [| f_equal; [| f_equal]]]; subst c; div_lia.
Qed.


Lemma bind_Ok_inv :
  forall (A B : Type) (m : Exc A) (k : A -> Exc B) (b : B),
    bind m k = Ok b -> exists a, m = Ok a /\ k a = Ok b.
Proof.
  intros A B [a | e] k b H; simpl in H; [eauto | discriminate].
Qed.

(** What the decoder accepted, the encoder writes back. *)
Lemma decode_encode_N :
  forall (n : nat) (bs : list N) (s : str),
    (List.length bs <= n)%nat ->
    decode_utf8_N bs = Ok s -> encode_utf8_N s = Ok bs.
Proof.
  induction n as [| n IH]; intros bs s Hlen Hdec.
  - destruct bs; [inversion Hdec; reflexivity | simpl in Hlen; lia].
  - destruct bs as [| b0 r0]; [inversion Hdec; reflexivity |].
    cbn [decode_utf8_N] in Hdec; simpl List.length in Hlen.
    destruct (b0 <? 128)%N eqn:H1.
    { apply bind_Ok_inv in Hdec; destruct Hdec as [s' [Hr Hs]].
      inversion Hs; subst s; clear Hs.
      cbn [encode_utf8_N].
      rewrite encode_char_1 by (now apply N.ltb_lt).
      rewrite (IH r0 s') by (auto; lia); reflexivity. }
    destruct (in_range 194 223 b0) eqn:H2.
    { destruct r0 as [| b1 r1]; [discriminate |].
      destruct (is_cont b1) eqn:Hc1; [| discriminate].
      apply bind_Ok_inv in Hdec; destruct Hdec as [s' [Hr Hs]].
      inversion Hs; subst s; clear Hs.
      cbn [encode_utf8_N].
      rewrite encode_char_2
        by (try (now apply in_range_true); now apply is_cont_true).
      rewrite (IH r1 s') by (auto; simpl in Hlen; lia); reflexivity. }
    destruct (in_range 224 239 b0) eqn:H3.
    { destruct r0 as [| b1 [| b2 r2]]; try discriminate.
      match type of Hdec with
      | (if ?c && is_cont b2 then _ else _) = _ =>
          destruct c eqn:Hc1; [| discriminate]
      end.
      destruct (is_cont b2) eqn:Hc2; [| discriminate].
      cbn [andb] in Hdec.
      apply bind_Ok_inv in Hdec; destruct Hdec as [s' [Hr Hs]].
      inversion Hs; subst s; clear Hs.
      cbn [encode_utf8_N].
      rewrite encode_char_3;
        [| now apply in_range_true | exact Hc1 | now apply is_cont_true].
      rewrite (IH r2 s') by (auto; simpl in Hlen; lia); reflexivity. }
    destruct (in_range 240 244 b0) eqn:H4; [| discriminate].
    destruct r0 as [| b1 [| b2 [| b3 r3]]]; try discriminate.
    match type of Hdec with
    | (if ?c && is_cont b2 && is_cont b3 then _ else _) = _ =>
        destruct c eqn:Hc1; [| discriminate]
    end.
    destruct (is_cont b2) eqn:Hc2; [| discriminate].
    destruct (is_cont b3) eqn:Hc3; [| discriminate].
    cbn [andb] in Hdec.
    apply bind_Ok_inv in Hdec; destruct Hdec as [s' [Hr Hs]].
    inversion Hs; subst s; clear Hs.
    cbn [encode_utf8_N].
    rewrite encode_char_4;
      [| now apply in_range_true | exact Hc1
       | now apply is_cont_true | now apply is_cont_true].
    rewrite (IH r3 s') by (auto; simpl in Hlen; lia); reflexivity.
Qed.

Lemma byte_of_to_N : forall b : byte, byte_of_N (Byte.to_N b) = b.
Proof.
  intros b; unfold byte_of_N; now rewrite Byte.of_to_N.
Qed.

Lemma decode_encode :
  forall (body : bytes) (text : str),
    decode_utf8 body = Ok text -> encode_utf8 text = Ok body.
Proof.
  intros body text H; unfold decode_utf8 in H; unfold encode_utf8.
  rewrite (decode_encode_N _ _ _ (le_n _) H); simpl.
  rewrite map_map, (map_ext _ (fun b => b) byte_of_to_N), map_id.
  reflexivity.
Qed.


Lemma decode_1 :
  forall (b0 : N) (rest : list N),
    (b0 < 128)%N ->
    decode_utf8_N (b0 :: rest)
    = bind (decode_utf8_N rest) (fun s => Ok (b0 :: s)).
Proof.
  intros b0 rest H; cbn [decode_utf8_N].
  apply N.ltb_lt in H; now rewrite H.
Qed.

Lemma decode_2 :
  forall (b0 b1 : N) (rest : list N),
    (194 <= b0 <= 223)%N -> (128 <= b1 <= 191)%N ->
    decode_utf8_N (b0 :: b1 :: rest)
    = bind (decode_utf8_N rest)
        (fun s => Ok (((b0 - 192) * 64 + (b1 - 128))%N :: s)).
Proof.
  intros b0 b1 rest H0 H1; cbn [decode_utf8_N].
  replace (b0 <? 128)%N with false by (symmetry; apply N.ltb_ge; lia).
  replace (in_range 194 223 b0) with true
    by (symmetry; now apply in_range_true).
  replace (is_cont b1) with true by (symmetry; now apply is_cont_true).
  reflexivity.
Qed.

Lemma decode_3 :
  forall (b0 b1 b2 : N) (rest : list N),
    (224 <= b0 <= 239)%N ->
    (128 <= b1 <= 191)%N ->
    (b0 = 224 -> 160 <= b1)%N -> (b0 = 237 -> b1 <= 159)%N ->
    (128 <= b2 <= 191)%N ->
    decode_utf8_N (b0 :: b1 :: b2 :: rest)
    = bind (decode_utf8_N rest)
        (fun s => Ok (((b0 - 224) * 4096 + (b1 - 128) * 64 + (b2 - 128))%N :: s)).
Proof.
  intros b0 b1 b2 rest H0 H1 Hlo Hhi H2; cbn [decode_utf8_N].
  replace (b0 <? 128)%N with false by (symmetry; apply N.ltb_ge; lia).
  replace (in_range 194 223 b0) with false
    by (symmetry; apply in_range_false; lia).
  replace (in_range 224 239 b0) with true
    by (symmetry; now apply in_range_true).
  replace (is_cont b2) with true by (symmetry; now apply is_cont_true).
  assert (Hc : (if (b0 =? 224)%N then in_range 160 191 b1
                else if (b0 =? 237)%N then in_range 128 159 b1
                else is_cont b1) = true).
  { destruct (N.eqb_spec b0 224) as [E | E].
    - apply in_range_true; specialize (Hlo E); lia.
    - destruct (N.eqb_spec b0 237) as [E' | E'].
      + apply in_range_true; specialize (Hhi E'); lia.
      + now apply is_cont_true. }
  rewrite Hc; reflexivity.
Qed.

Lemma decode_4 :
  forall (b0 b1 b2 b3 : N) (rest : list N),
    (240 <= b0 <= 244)%N ->
    (128 <= b1 <= 191)%N ->
    (b0 = 240 -> 144 <= b1)%N -> (b0 = 244 -> b1 <= 143)%N ->
    (128 <= b2 <= 191)%N -> (128 <= b3 <= 191)%N ->
    decode_utf8_N (b0 :: b1 :: b2 :: b3 :: rest)
    = bind (decode_utf8_N rest)
        (fun s => Ok (((b0 - 240) * 262144 + (b1 - 128) * 4096
                       + (b2 - 128) * 64 + (b3 - 128))%N :: s)).
Proof.
  intros b0 b1 b2 b3 rest H0 H1 Hlo Hhi H2 H3; cbn [decode_utf8_N].
  replace (b0 <? 128)%N with false by (symmetry; apply N.ltb_ge; lia).
  replace (in_range 194 223 b0) with false
    by (symmetry; apply in_range_false; lia).
  replace (in_range 224 239 b0) with false
    by (symmetry; apply in_range_false; lia).
  replace (in_range 240 244 b0) with true
    by (symmetry; now apply in_range_true).
  replace (is_cont b2) with true by (symmetry; now apply is_cont_true).
  replace (is_cont b3) with true by (symmetry; now apply is_cont_true).
  assert (Hc : (if (b0 =? 240)%N then in_range 144 191 b1
                else if (b0 =? 244)%N then in_range 128 143 b1
                else is_cont b1) = true).
  { destruct (N.eqb_spec b0 240) as [E | E].
    - apply in_range_true; specialize (Hlo E); lia.
    - destruct (N.eqb_spec b0 244) as [E' | E'].
      + apply in_range_true; specialize (Hhi E'); lia.
      + now apply is_cont_true. }
  rewrite Hc; reflexivity.
Qed.

(** The bytes written for one code point are below 256 and decode to it. *)
Lemma Ok_inj : forall (A : Type) (a b : A), Ok a = Ok b -> b = a.
Proof. intros A a b H; congruence. Qed.

Lemma encode_char_decode :
  forall (c : N) (bs : list N),
    encode_char c = Ok bs ->
    Forall (fun b => (b < 256)%N) bs
    /\ forall rest,
         decode_utf8_N (bs ++ rest)
         = bind (decode_utf8_N rest) (fun s => Ok (c :: s)).
Proof.
  intros c bs H; unfold encode_char in H.
  destruct (N.ltb_spec c 128) as [H1 | H1].
  { apply Ok_inj in H; subst bs; split; [repeat (apply Forall_cons; [lia |]); apply Forall_nil |].
    intros rest; now apply decode_1. }
  destruct (N.ltb_spec c 2048) as [H2 | H2].
  { apply Ok_inj in H; subst bs; split; [repeat (apply Forall_cons; [div_lia |]); apply Forall_nil |].
    intros rest; cbn [app].
    rewrite decode_2 by div_lia.
    replace ((192 + c / 64 - 192) * 64 + (128 + c mod 64 - 128))%N with c
      by div_lia.
    reflexivity. }
  destruct (in_range 55296 57343 c) eqn:H3; [discriminate |].
  apply in_range_false in H3.
  destruct (N.ltb_spec c 65536) as [H4 | H4].
  { apply Ok_inj in H; subst bs; split; [repeat (apply Forall_cons; [div_lia |]); apply Forall_nil |].
    intros rest; cbn [app].
    rewrite decode_3 by div_lia.
    replace ((224 + c / 4096 - 224) * 4096
             + (128 + (c / 64) mod 64 - 128) * 64
             + (128 + c mod 64 - 128))%N with c by div_lia.
    reflexivity. }
  destruct (N.ltb_spec c 1114112) as [H5 | H5]; [| discriminate].
  apply Ok_inj in H; subst bs; split; [repeat (apply Forall_cons; [div_lia |]); apply Forall_nil |].
  intros rest; cbn [app].
  rewrite decode_4 by div_lia.
  replace ((240 + c / 262144 - 240) * 262144
           + (128 + (c / 4096) mod 64 - 128) * 4096
           + (128 + (c / 64) mod 64 - 128) * 64
           + (128 + c mod 64 - 128))%N with c by div_lia.
  reflexivity.
Qed.

Lemma encode_decode_N :
  forall (s : str) (bs : list N),
    encode_utf8_N s = Ok bs ->
    Forall (fun b => (b < 256)%N) bs /\ decode_utf8_N bs = Ok s.
Proof.
  induction s as [| c s IH]; intros bs H; cbn [encode_utf8_N] in H.
  - inversion H; subst; split; [constructor | reflexivity].
  - apply bind_Ok_inv in H; destruct H as [cs [Hc H]].
    apply bind_Ok_inv in H; destruct H as [rest [Hr H]].
    inversion H; subst bs; clear H.
    destruct (encode_char_decode c cs Hc) as [Hcs Hdec].
    destruct (IH rest Hr) as [Hrest Hd].
    split; [apply Forall_app; auto |].
    rewrite Hdec, Hd; reflexivity.
Qed.

Lemma to_N_byte_of_N : forall n : N, (n < 256)%N -> Byte.to_N (byte_of_N n) = n.
Proof.
  intros n Hn; unfold byte_of_N.
  destruct (Byte.of_N n) as [b |] eqn:E.
  - now apply Byte.to_of_N.
  - apply Byte.of_N_None_iff in E; lia.
Qed.

Lemma encode_decode :
  forall (text : str) (out : bytes),
    encode_utf8 text = Ok out -> decode_utf8 out = Ok text.
Proof.
  intros text out H; unfold encode_utf8 in H.
  apply bind_Ok_inv in H; destruct H as [bs [Hbs H]].
  inversion H; subst out; clear H.
  destruct (encode_decode_N text bs Hbs) as [Hlt Hdec].
  unfold decode_utf8; rewrite map_map.
  rewrite (map_ext_in _ (fun n => n)), map_id; [exact Hdec |].
  intros n Hn; apply to_N_byte_of_N.
  rewrite Forall_forall in Hlt; now apply Hlt.
Qed.

End Utf8Facts.

(* ===================================================================== *)
(** * Properties of fetching, encoding and the composed entry point       *)
(* ===================================================================== *)

Section FlowFacts.
Import Py Hunter SpecMore.

Variable client_get : str -> Exc Response.
Variable image_open : bytes -> Exc PIL.Image.

(** What a validated candidate was made from. *)
Lemma fetch_and_validate_inv :
  forall (u : str) (logo : Logo) (k : Z),
    fetch_and_validate client_get image_open u = Some (logo, k) ->
    exists response,
      client_get u = Ok response
      /\ status_error response = false
      /\ existsb (fun t => contains (content_type response) t) valid_types = true
      /\ (contains (content_type response) (lit "svg") = true
          /\ (exists text,
                 decode_utf8 (content response) = Ok text /\ logo = Svg text)
          \/ contains (content_type response) (lit "svg") = false
             /\ (exists image,
                    image_open (content response) = Ok image
                    /\ logo = Raster image)).
Proof.
  intros u logo k H; unfold fetch_and_validate in H.
  destruct (client_get u) as [response | e]; [| discriminate].
  exists response; cbn [bind] in H.
  destruct (status_error response); [discriminate |]; cbn [bind] in H.
  destruct (existsb _ valid_types); [| discriminate].
  repeat split; auto.
  cbn [value_or] in H.
  destruct (contains (content_type response) (lit "svg")).
  - left; split; [reflexivity |].
    destruct (decode_utf8 (content response)) as [text | e]; [| discriminate].
    exists text; split; [reflexivity |].
    cbn in H; congruence.
  - right; split; [reflexivity |].
    destruct (image_open (content response)) as [image | e]; [| discriminate].
    exists image; split; [reflexivity |].
    cbn in H; congruence.
Qed.

Lemma try_urls_Some :
  forall (urls : list str) (logo : Logo),
    try_urls client_get image_open urls = Some logo ->
    exists before u after k,
      urls = before ++ u :: after
      /\ (forall v, In v before ->
                    fetch_and_validate client_get image_open v = None)
      /\ fetch_and_validate client_get image_open u = Some (logo, k).
Proof.
  induction urls as [| v urls IH]; intros logo H; [discriminate |].
  cbn [try_urls] in H.
  destruct (fetch_and_validate client_get image_open v) as [[l k] |] eqn:Hv.
  - inversion H; subst l.
    exists [], v, urls, k; repeat split; auto; intros w [].
  - destruct (IH logo H) as [before [u [after [k [Heq [Hskip Hu]]]]]].
    exists (v :: before), u, after, k; subst urls; repeat split; auto.
    intros w [<- | Hw]; auto.
Qed.

Lemma try_urls_None :
  forall urls : list str,
    try_urls client_get image_open urls = None <->
    forall u, In u urls -> fetch_and_validate client_get image_open u = None.
Proof.
  induction urls as [| v urls IH]; cbn [try_urls].
  - split; [intros _ u [] | reflexivity].
  - destruct (fetch_and_validate client_get image_open v) as [[l k] |] eqn:Hv.
    + split; [discriminate |].
      intros H; specialize (H v (or_introl eq_refl)); congruence.
    + rewrite IH; split.
      * intros H u [<- | Hu]; auto.
      * intros H u Hu; apply H; now right.
Qed.

Lemma fetch_best_logo_try_urls :
  forall urls : list str,
    fetch_best_logo client_get image_open urls
    = try_urls client_get image_open urls.
Proof.
  intros [| u urls]; reflexivity.
Qed.

(** X4: [fetch_best_logo] returns nothing exactly when every URL of the
    list fails validation (in particular for the empty list). *)
Theorem fetch_best_logo_none_iff :
  forall urls : list str,
    fetch_best_logo client_get image_open urls = None <->
    forall u, In u urls -> fetch_and_validate client_get image_open u = None.
Proof.
  intros urls; rewrite fetch_best_logo_try_urls; apply try_urls_None.
Qed.

(** X5: the first URL that validates decides the result: what follows it
    in the list, and the size figure computed for it, play no part. *)
Theorem fetch_best_logo_first_valid_wins :
  forall (before : list str) (u : str) (logo : Logo) (k : Z),
    (forall v, In v before ->
               fetch_and_validate client_get image_open v = None) ->
    fetch_and_validate client_get image_open u = Some (logo, k) ->
    forall after,
      fetch_best_logo client_get image_open (before ++ u :: after) = Some logo.
Proof.
  intros before u logo k Hskip Hu after.
  rewrite (fetch_best_logo_walk client_get image_open before u after Hskip).
  now rewrite Hu.
Qed.

Section Encoding.

Variable resize : PIL.Image -> Z * Z -> Exc PIL.Image.
Variable new_image : str -> Z * Z -> Z * Z * Z -> PIL.Image.
Variable convert : PIL.Image -> str -> Exc PIL.Image.
Variable split : PIL.Image -> list PIL.Image.
Variable paste : PIL.Image -> PIL.Image -> option PIL.Image -> Exc PIL.Image.
Variable save : PIL.Image -> str -> Exc bytes.

(** X1: the SVG text [fetch_and_validate] makes of a response encodes
    back, in [process_image], to the bytes of the response body. *)
Theorem svg_bytes_are_the_response_body :
  forall (u : str) (response : Response) (text : str) (k : Z)
         (output_format : str) (resize_to : option (Z * Z)),
    client_get u = Ok response ->
    fetch_and_validate client_get image_open u = Some (Svg text, k) ->
    process_image resize new_image convert split paste save
      (Svg text) output_format resize_to = Ok (content response).
Proof.
  intros u response text k fmt rs Hget Hv.
  destruct (fetch_and_validate_inv u (Svg text) k Hv)
    as [response' [Hget' [_ [_ [[_ [t [Hdec Heq]]] | [_ [im [_ Heq]]]]]]]];
    [| discriminate].
  assert (response' = response) by congruence; subst response'.
  inversion Heq; subst t.
  cbn [process_image]; now apply decode_encode.
Qed.

Lemma encode_char_scalar :
  forall c : N, is_scalar_value c -> exists bs, encode_char c = Ok bs.
Proof.
  intros c Hc; unfold encode_char, is_scalar_value in *.
  destruct (c <? 128)%N; [eauto |].
  destruct (c <? 2048)%N; [eauto |].
  destruct (in_range 55296 57343 c) eqn:Hs.
  - apply in_range_true in Hs; lia.
  - destruct (N.ltb_spec c 65536); [eauto |].
    destruct (N.ltb_spec c 1114112); [eauto | lia].
Qed.

Lemma encode_utf8_scalar :
  forall text : str,
    Forall is_scalar_value text -> exists out, encode_utf8 text = Ok out.
Proof.
  intros text Hall; unfold encode_utf8.
  assert (H : exists bs, encode_utf8_N text = Ok bs).
  { induction Hall as [| c text Hc _ [bs IH]]; [now exists [] |].
    destruct (encode_char_scalar c Hc) as [cs Hcs].
    exists (cs ++ bs); cbn [encode_utf8_N]; now rewrite Hcs, IH. }
  destruct H as [bs H]; rewrite H; cbn [bind]; eauto.
Qed.

(** X2: for SVG text [process_image] returns bytes that decode, as
    UTF-8, to that text; and it returns whenever the text holds only
    code points that are no surrogates. *)
Theorem process_image_svg_decodes_back :
  forall (text output_format : str) (resize_to : option (Z * Z)),
    (forall out,
        process_image resize new_image convert split paste save
          (Svg text) output_format resize_to = Ok out ->
        decode_utf8 out = Ok text)
    /\ (Forall is_scalar_value text ->
        exists out,
          process_image resize new_image convert split paste save
            (Svg text) output_format resize_to = Ok out).
Proof.
  intros text fmt rs; cbn [process_image]; split.
  - intros out H; now apply encode_decode.
  - apply encode_utf8_scalar.
Qed.

Variable rules : list Scoring.rule_entry.
Variable html_icons_of : str -> list Icon.
Variable fallback_icons_of : str -> list Icon.

(** The URLs [find_logo_urls] returns are the discovered ones. *)
Lemma find_logo_urls_same_urls :
  forall domain : str,
    exists urls,
      find_logo_urls client_get image_open rules
        html_icons_of fallback_icons_of domain = Ok urls
      /\ NoDup urls
      /\ forall u,
           In u urls <->
           In u (discovered_urls html_icons_of fallback_icons_of domain).
Proof.
  intros domain.
  destruct (find_logo_urls_ranked_aux client_get image_open rules
              html_icons_of fallback_icons_of domain)
    as [scored [sorted [_ [Hall [Hurls Hperm]]]]].
  exists (List.map url sorted); split; [exact Hurls |].
  assert (Hp : Permutation (List.map url sorted)
                 (List.map url
                    (unique_icons
                       (html_icons_of domain ++ fallback_icons_of domain)))).
  { rewrite <- (scored_as_urls _ _ Hall); now apply Permutation_map. }
  split.
  - apply (Permutation_NoDup (Permutation_sym Hp)), unique_icons_NoDup.
  - intros u; unfold discovered_urls.
    rewrite (unique_icons_same_urls
               (html_icons_of domain ++ fallback_icons_of domain) u);
      split; intros H.
    + eapply Permutation_in; [exact Hp | exact H].
    + eapply Permutation_in; [exact (Permutation_sym Hp) | exact H].
Qed.


(** X3: bytes returned by [get_customer_logo] come from a discovered
    URL whose fetch succeeded with an accepted content type; when that
    type holds [svg] they are the response body itself, which is not
    empty. *)
Theorem get_customer_logo_origin :
  forall (domain output_format : str) (resize_to : option (Z * Z)) (out : bytes),
    Customer.get_customer_logo client_get image_open rules
      html_icons_of fallback_icons_of resize new_image convert split paste save
      domain output_format resize_to = Ok (Some out) ->
    exists u response,
      In u (discovered_urls html_icons_of fallback_icons_of domain)
      /\ client_get u = Ok response
      /\ status_error response = false
      /\ existsb (fun t => contains (content_type response) t) valid_types = true
      /\ (contains (content_type response) (lit "svg") = true ->
          out = content response /\ out <> []).
Proof.
  intros domain fmt rs out H; unfold Customer.get_customer_logo in H.
  destruct (find_logo_urls_same_urls domain) as [urls [Hurls [_ Hin]]].
  rewrite Hurls in H; cbn [bind] in H.
  destruct urls as [| u0 urls]; [discriminate |].
  rewrite fetch_best_logo_try_urls in H.
  destruct (try_urls client_get image_open (u0 :: urls)) as [logo |] eqn:Ht;
    [| discriminate].
  destruct (try_urls_Some _ _ Ht) as [before [u [after [k [Heq [_ Hu]]]]]].
  destruct (fetch_and_validate_inv u logo k Hu)
    as [response [Hget [Hst [Hacc Hkind]]]].
  exists u, response.
  split; [apply Hin; rewrite Heq, in_app_iff; right; now left |].
  split; [exact Hget |]; split; [exact Hst |]; split; [exact Hacc |].
  intros Hsvg.
  destruct Hkind as [[_ [text [Hdec ->]]] | [Hns _]]; [| congruence].
  destruct text as [| c text]; [discriminate |].
  cbn [process_image] in H.
  rewrite (decode_encode _ _ Hdec) in H; cbn [bind] in H.
  assert (Hout : out = content response) by congruence.
  split; [exact Hout |].
  intros Hempty; rewrite Hout in Hempty.
  rewrite Hempty in Hdec; discriminate Hdec.
Qed.


End Encoding.

End FlowFacts.

Lemma fetch_best_logo_first_valid_wins_witness :
  Hunter.fetch_best_logo Examples.serve_mixed Examples.no_decoder
    ([Py.lit "https://example.com/about"]
     ++ Py.lit "https://example.com/logo.svg"
     :: [Py.lit "https://example.com/favicon.ico"])
  = Some (Hunter.Svg (Py.lit "<svg xmlns='http://www.w3.org/2000/svg'/>")).
Proof.
  apply (fetch_best_logo_first_valid_wins
           Examples.serve_mixed Examples.no_decoder
           [Py.lit "https://example.com/about"]
           (Py.lit "https://example.com/logo.svg")
           (Hunter.Svg (Py.lit "<svg xmlns='http://www.w3.org/2000/svg'/>"))
           100000).
  - intros v [<- | []]; vm_compute; reflexivity.
  - vm_compute; reflexivity.
Defined.

Lemma svg_bytes_are_the_response_body_witness :
  Hunter.process_image
    Examples.toy_resize Examples.toy_new Examples.toy_convert
    Examples.toy_split Examples.toy_paste Examples.toy_save
    (Hunter.Svg (Py.lit "<svg xmlns='http://www.w3.org/2000/svg'/>"))
    (Py.lit "PNG") None
  = Py.Ok Examples.svg_body.
Proof.
  apply (svg_bytes_are_the_response_body
           Examples.serve_svg Examples.no_decoder
           Examples.toy_resize Examples.toy_new Examples.toy_convert
           Examples.toy_split Examples.toy_paste Examples.toy_save
           (Py.lit "https://example.com/logo.svg")
           {| Hunter.status_error := false;
              Hunter.content_type := Py.lit "image/svg+xml";
              Hunter.content := Examples.svg_body |}
           (Py.lit "<svg xmlns='http://www.w3.org/2000/svg'/>")
           100000 (Py.lit "PNG") None).
  - reflexivity.
  - vm_compute; reflexivity.
Defined.

Lemma get_customer_logo_origin_witness :
  exists u response,
    In u (SpecMore.discovered_urls ExamplesMore.home ExamplesMore.nothing
            (Py.lit "example.com"))
    /\ Examples.serve_svg u = Py.Ok response
    /\ Hunter.status_error response = false
    /\ existsb (fun t => Py.contains (Hunter.content_type response) t)
         Hunter.valid_types = true
    /\ (Py.contains (Hunter.content_type response) (Py.lit "svg") = true ->
        Examples.svg_body = Hunter.content response /\ Examples.svg_body <> []).
Proof.
  apply (get_customer_logo_origin
           Examples.serve_svg Examples.no_decoder
           Examples.toy_resize Examples.toy_new Examples.toy_convert
           Examples.toy_split Examples.toy_paste Examples.toy_save
           [] ExamplesMore.home ExamplesMore.nothing
           (Py.lit "example.com") (Py.lit "PNG") None Examples.svg_body).
  vm_compute; reflexivity.
Defined.


(* ===================================================================== *)
(** * Further properties of the scoring engine and of rule loading        *)
(* ===================================================================== *)

Section EngineFacts.
Import Py Scoring Spec SpecMore.

(** X8: scoring with a table made of two parts gives the sum of the two
    scores and the two contribution lists one after the other: rules do
    not influence each other. *)
Theorem calculate_score_app :
  forall (rules1 rules2 : list rule_entry) (ctx : Context),
    exists total1 details1 total2 details2,
      calculate_score rules1 ctx = Ok (total1, details1)
      /\ calculate_score rules2 ctx = Ok (total2, details2)
      /\ calculate_score (rules1 ++ rules2) ctx
         = Ok (total1 + total2, details1 ++ details2).
Proof.
  intros rules1 rules2 ctx.
  exists (total (details_of ctx rules1)), (details_of ctx rules1),
         (total (details_of ctx rules2)), (details_of ctx rules2).
  rewrite !calculate_score_eq.
  repeat split.
  f_equal; f_equal; [| apply details_of_app].
  rewrite !total_details_of, map_app, fold_right_app.
  now rewrite fold_add_acc.
Qed.

Lemma details_of_perm :
  forall (ctx : Context) (rules1 rules2 : list rule_entry),
    Permutation rules1 rules2 ->
    Permutation (details_of ctx rules1) (details_of ctx rules2).
Proof.
  intros ctx rules1 rules2 H; induction H as [| x l l' _ IH | x y l | l l' l'' _ IH1 _ IH2].
  - constructor.
  - change (x :: l) with ([x] ++ l); change (x :: l') with ([x] ++ l').
    rewrite !details_of_app; now apply Permutation_app_head.
  - change (y :: x :: l) with ([y] ++ [x] ++ l).
    change (x :: y :: l) with ([x] ++ [y] ++ l).
    rewrite !details_of_app, !app_assoc.
    apply Permutation_app_tail, Permutation_app_comm.
  - now transitivity (details_of ctx l').
Qed.

Lemma total_perm :
  forall d1 d2 : list (str * Z), Permutation d1 d2 -> total d1 = total d2.
Proof.
  intros d1 d2 H; unfold total.
  induction H as [| x l l' _ IH | x y l | l l' l'' _ IH1 _ IH2]; simpl; lia.
Qed.

(** X9: the order of the rule table, which is the order the rule
    directories and the module attributes are listed in, has no
    influence on the score; it only reorders the contribution list. *)
Theorem calculate_score_permutation :
  forall (rules1 rules2 : list rule_entry) (ctx : Context),
    Permutation rules1 rules2 ->
    exists total_score details1 details2,
      calculate_score rules1 ctx = Ok (total_score, details1)
      /\ calculate_score rules2 ctx = Ok (total_score, details2)
      /\ Permutation details1 details2.
Proof.
  intros rules1 rules2 ctx H.
  pose proof (details_of_perm ctx _ _ H) as Hd.
  exists (total (details_of ctx rules1)),
         (details_of ctx rules1), (details_of ctx rules2).
  rewrite !calculate_score_eq, (total_perm _ _ Hd); auto.
Qed.

Lemma contribution_of_weight_zero :
  forall (ctx : Context) (rule : rule_func) (label : str),
    contribution_of ctx (rule, label, 0) = 0.
Proof.
  intros ctx rule label; unfold contribution_of.
  destruct (rule ctx) as [[b | n | f |] | e]; cbn [bind score_contribution value_or];
    try reflexivity.
  - now destruct b.
  - unfold int_mul_float.
    change (float_of_int 0) with (Ok (S754_zero false)); cbn [bind].
    destruct f as [s | s | | s m e]; reflexivity.
Qed.

(** X10: a rule whose weight is 0 never contributes, whatever it answers
    (a boolean, an integer, any float including an infinity or a NaN,
    another object) and also when it raises: the table without it gives
    the same result. *)
Theorem calculate_score_weight_zero :
  forall (before after : list rule_entry) (rule : rule_func) (label : str)
         (ctx : Context),
    contribution_of ctx (rule, label, 0) = 0
    /\ calculate_score (before ++ (rule, label, 0) :: after) ctx
       = calculate_score (before ++ after) ctx.
Proof.
  intros before after rule label ctx.
  split; [apply contribution_of_weight_zero |].
  rewrite !calculate_score_eq.
  change ((rule, label, 0) :: after) with ([(rule, label, 0)] ++ after).
  rewrite !details_of_app, details_of_single, contribution_of_weight_zero.
  reflexivity.
Qed.

Lemma load_attribute_app :
  forall category rule_type rule_values rules entry,
    Loader.load_attribute category rule_type rule_values rules entry
    = rules ++ Loader.load_attribute category rule_type rule_values [] entry.
Proof.
  intros category rule_type rule_values rules [attr_name attr].
  unfold Loader.load_attribute.
  destruct (startswith attr_name (lit "_")); [now rewrite app_nil_r |].
  destruct attr; [reflexivity | now rewrite app_nil_r].
Qed.

Lemma _load_rules_from_module_eq :
  forall module category rule_type rule_values rules,
    Loader._load_rules_from_module module category rule_type rule_values rules
    = rules ++ flat_map (Loader.load_attribute category rule_type rule_values [])
                 module.
Proof.
  unfold Loader._load_rules_from_module.
  induction module as [| entry module IH]; intros category rule_type rule_values rules.
  - simpl; now rewrite app_nil_r.
  - cbn [fold_left flat_map].
    rewrite IH, load_attribute_app, <- app_assoc; reflexivity.
Qed.

Lemma load_attribute_no_value :
  forall category rule_type rule_values entry ctx,
    has_value rule_values entry = false ->
    details_of ctx
      (Loader.load_attribute category rule_type rule_values [] entry) = [].
Proof.
  intros category rule_type rule_values [attr_name attr] ctx H.
  unfold has_value in H; cbn [fst] in H.
  unfold Loader.load_attribute.
  destruct (startswith attr_name (lit "_")); [reflexivity |].
  destruct attr as [attr doc |]; [| reflexivity].
  unfold dict_get.
  destruct (dict_lookup attr_name rule_values); [discriminate |].
  cbn [app]; rewrite details_of_single, contribution_of_weight_zero.
  reflexivity.
Qed.

(** X11: [_load_rules_from_module] keeps the rules loaded before, and a
    function of the module that has no line in the values file is
    loaded with weight 0 and changes no score: scoring with the loaded
    table gives what the table loaded from the functions that have a
    value gives. *)
Theorem unweighted_rules_never_count :
  forall (module : Loader.module) (category rule_type : str)
         (rule_values : dict Z) (rules : list rule_entry) (ctx : Context),
    (exists loaded,
        Loader._load_rules_from_module module category rule_type rule_values rules
        = rules ++ loaded)
    /\ calculate_score
         (Loader._load_rules_from_module module category rule_type rule_values rules)
         ctx
       = calculate_score
           (Loader._load_rules_from_module
              (filter (has_value rule_values) module)
              category rule_type rule_values rules)
           ctx.
Proof.
  intros module category rule_type rule_values rules ctx.
  split; [rewrite _load_rules_from_module_eq; eauto |].
  rewrite !calculate_score_eq, !_load_rules_from_module_eq, !details_of_app.
  assert (H : details_of ctx
                (flat_map (Loader.load_attribute category rule_type rule_values [])
                   module)
              = details_of ctx
                  (flat_map (Loader.load_attribute category rule_type rule_values [])
                     (filter (has_value rule_values) module))).
  { induction module as [| entry module IH]; [reflexivity |].
    cbn [flat_map filter]; rewrite details_of_app.
    destruct (has_value rule_values entry) eqn:Hv.
    - cbn [flat_map]; rewrite details_of_app; now f_equal.
    - now rewrite (load_attribute_no_value _ _ _ _ _ Hv). }
  now rewrite H.
Qed.

End EngineFacts.

Lemma calculate_score_permutation_witness :
  exists total_score details1 details2,
    Scoring.calculate_score
      [(DimensionsPenalty.very_small_images, Examples.label_small, -30);
       (DimensionsPenalty.odd_dimensions, Examples.label_banner, -40)]
      (Examples.ctx_of_size 10 150) = Py.Ok (total_score, details1)
    /\ Scoring.calculate_score
         [(DimensionsPenalty.odd_dimensions, Examples.label_banner, -40);
          (DimensionsPenalty.very_small_images, Examples.label_small, -30)]
         (Examples.ctx_of_size 10 150) = Py.Ok (total_score, details2)
    /\ Permutation details1 details2.
Proof.
  apply (calculate_score_permutation
           [(DimensionsPenalty.very_small_images, Examples.label_small, -30);
            (DimensionsPenalty.odd_dimensions, Examples.label_banner, -40)]
           [(DimensionsPenalty.odd_dimensions, Examples.label_banner, -40);
            (DimensionsPenalty.very_small_images, Examples.label_small, -30)]
           (Examples.ctx_of_size 10 150)).
  apply perm_swap.
Defined.

(* ===================================================================== *)
(** * Further properties of candidate scoring and validation              *)
(* ===================================================================== *)

Section CandidateFacts.
Import Py Hunter Spec SpecMore.

Variable client_get : str -> Exc Response.
Variable image_open : bytes -> Exc PIL.Image.
Variable rules : list Scoring.rule_entry.
Variable html_icons_of : str -> list Icon.
Variable fallback_icons_of : str -> list Icon.

(** X12: when the candidate's URL delivers a raster image that decodes
    to a size with no zero side, the score is computed from the
    measured size: the size declared in the markup has no influence. *)
Theorem measured_size_overrides_declared :
  forall (icon : Icon) (response : Response) (image : PIL.Image) (w h : Z),
    client_get (url icon) = Ok response ->
    contains (content_type response) (lit "svg") = false ->
    image_open (content response) = Ok image ->
    fst (PIL.size image) <> 0 ->
    snd (PIL.size image) <> 0 ->
    _calculate_score_with_rules client_get image_open rules (with_size icon w h)
    = _calculate_score_with_rules client_get image_open rules icon.
Proof.
  intros icon response image w h Hget Hsvg Hopen Hw Hh.
  unfold _calculate_score_with_rules; cbn [with_size url].
  rewrite Hget; cbn [bind]; rewrite Hsvg, Hopen; cbn [bind].
  apply Z.eqb_neq in Hw, Hh; rewrite Hw, Hh; cbn [negb].
  rewrite !calculate_score_eq; reflexivity.
Qed.

(** X13: a candidate served as SVG is scored with 100 in the place of a
    declared width or height of 0, each on its own: it scores as the
    same candidate declared with those sizes. *)
Theorem svg_scored_with_default_size :
  forall (icon : Icon) (response : Response) (text : str) (w h : Z),
    client_get (url icon) = Ok response ->
    contains (content_type response) (lit "svg") = true ->
    decode_utf8 (content response) = Ok text ->
    _calculate_score_with_rules client_get image_open rules (with_size icon w h)
    = _calculate_score_with_rules client_get image_open rules
        (with_size icon (int_or w 100) (int_or h 100)).
Proof.
  intros icon response text w h Hget Hsvg Hdec.
  unfold _calculate_score_with_rules; cbn [with_size url width height].
  rewrite Hget; cbn [bind]; rewrite Hsvg, Hdec; cbn [bind].
  assert (Hor : forall x, int_or (int_or x 100) 100 = int_or x 100).
  { intros x; unfold int_or; destruct (x =? 0) eqn:E; [reflexivity |].
    now rewrite E. }
  assert (Hnz : forall x, (int_or x 100 =? 0) = false).
  { intros x; unfold int_or; destruct (x =? 0) eqn:E; [reflexivity | exact E]. }
  rewrite !Hor, !Hnz, !calculate_score_eq; reflexivity.
Qed.

Lemma _calculate_score_with_rules_details :
  forall (icon : Icon) (s : Z) (d : list (str * Z)),
    _calculate_score_with_rules client_get image_open rules icon = Ok (s, d) ->
    exists ctx, d = details_of ctx rules /\ s = total d.
Proof.
  intros icon s d; unfold _calculate_score_with_rules.
  destruct (client_get (url icon)) as [response | e]; cbn [bind try_except].
  - destruct (contains (content_type response) (lit "svg")).
    + destruct (decode_utf8 (content response)) as [text | e];
        cbn [bind try_except]; rewrite calculate_score_eq;
        intros H; inversion H; eauto.
    + destruct (image_open (content response)) as [image | e];
        cbn [bind try_except]; rewrite calculate_score_eq;
        intros H; inversion H; eauto.
  - rewrite calculate_score_eq; intros H; inversion H; eauto.
Qed.

Lemma details_of_labels :
  forall (ctx : Scoring.Context) (rs : list Scoring.rule_entry) (label : str) (c : Z),
    In (label, c) (details_of ctx rs) -> In label (labels_of rs).
Proof.
  intros ctx rs label c Hin; unfold details_of in Hin.
  apply in_flat_map in Hin; destruct Hin as [entry [Hentry Hin]].
  destruct (contribution_of ctx entry =? 0); [contradiction |].
  destruct Hin as [Heq | []]; inversion Heq; subst.
  unfold labels_of.
  exact (in_map (fun entry => snd (fst entry)) rs entry Hentry).
Qed.

Lemma score_icons_details :
  forall icons scored_icons : list Icon,
    score_icons client_get image_open rules icons = Ok scored_icons ->
    Forall (fun icon =>
              exists ctx,
                rule_details icon = details_of ctx rules
                /\ score icon = total (rule_details icon))
           scored_icons.
Proof.
  induction icons as [| icon rest IH]; intros scored H; cbn [score_icons] in H.
  - inversion H; constructor.
  - destruct (_calculate_score_with_rules client_get image_open rules icon)
      as [[s d] | e] eqn:Hs; [| discriminate].
    cbn [bind] in H.
    destruct (score_icons client_get image_open rules rest) as [scored' | e];
      [| discriminate].
    cbn [bind] in H; inversion H; subst scored; clear H.
    constructor; [| now apply IH].
    destruct (_calculate_score_with_rules_details icon s d Hs) as [ctx [Hd Ht]].
    exists ctx; cbn [rule_details score]; auto.
Qed.

(** X14: every candidate [find_logo_candidates] returns carries a score
    that is the sum of its listed contributions; none of the listed
    contributions is 0 and each is listed under the label of a rule of
    the table. *)
Theorem find_logo_candidates_scores_add_up :
  forall domain : str,
    exists candidates,
      find_logo_candidates client_get image_open rules
        html_icons_of fallback_icons_of domain = Ok candidates
      /\ Forall (fun icon =>
                   score icon = total (rule_details icon)
                   /\ Forall (fun detail =>
                                snd detail <> 0
                                /\ In (fst detail) (labels_of rules))
                             (rule_details icon))
                candidates.
Proof.
  intros domain; unfold find_logo_candidates.
  destruct (score_icons_returns client_get image_open rules
              (unique_icons (html_icons_of domain ++ fallback_icons_of domain)))
    as [scored [Hscored _]].
  rewrite Hscored; cbn [bind].
  eexists; split; [reflexivity |].
  eapply Permutation_Forall;
    [symmetry; apply sorted_reverse_perm |].
  eapply Forall_impl; [| exact (score_icons_details _ _ Hscored)].
  intros icon [ctx [Hd Ht]]; split; [exact Ht |].
  rewrite Hd; apply Forall_forall; intros [label c] Hin; cbn [fst snd]; split.
  - now apply (details_of_nonzero ctx rules label c).
  - now apply (details_of_labels ctx rules label c).
Qed.

(** X15: for an image with sides below 2^52, [_validate_icon] accepts
    exactly when the longer side is at least 16, the longer side is at
    most twice the shorter (a test made only when both sides are
    positive), and the candidate's format is [svg] in any letter case
    or the image has at most 2048 * 2048 pixels. *)
Theorem _validate_icon_accepts_iff :
  forall (icon : Icon) (image : PIL.Image),
    0 <= fst (PIL.size image) < 2 ^ 52 ->
    0 <= snd (PIL.size image) < 2 ^ 52 ->
    (_validate_icon icon image = true <->
     16 <= Z.max (fst (PIL.size image)) (snd (PIL.size image))
     /\ (0 < fst (PIL.size image) -> 0 < snd (PIL.size image) ->
         Z.max (fst (PIL.size image)) (snd (PIL.size image))
         <= 2 * Z.min (fst (PIL.size image)) (snd (PIL.size image)))
     /\ (str_eqb (lower (format icon)) (lit "svg") = true
         \/ fst (PIL.size image) * snd (PIL.size image) <= 2048 * 2048)).
Proof.
  intros icon image Hw Hh; unfold _validate_icon.
  destruct (PIL.size image) as [width height]; cbn [fst snd] in *.
  assert (Htail :
            value_or
              (if Z.max width height <? 16 then Ok false
               else if str_eqb (lower (format icon)) (lit "svg") then Ok true
               else if 2048 * 2048 <? width * height then Ok false else Ok true)
              false = true
            <-> 16 <= Z.max width height
                /\ (str_eqb (lower (format icon)) (lit "svg") = true
                    \/ width * height <= 2048 * 2048)).
  { destruct (Z.ltb_spec (Z.max width height) 16);
      [split; [discriminate | lia] |].
    destruct (str_eqb (lower (format icon)) (lit "svg"));
      [split; auto |].
    destruct (Z.ltb_spec (2048 * 2048) (width * height)); cbn [value_or].
    - split; [discriminate |]. intros [_ [Hf | Hle]]; [discriminate | lia].
    - split; auto. }
  destruct ((0 <? width) && (0 <? height)) eqn:Hpos.
  - apply andb_true_iff in Hpos; destruct Hpos as [Hpw Hph].
    apply Z.ltb_lt in Hpw, Hph.
    destruct (int_true_div_gt_two (Z.max width height) (Z.min width height))
      as [r [Hdiv Hiff]]; [lia | lia | lia |].
    rewrite Hdiv; cbn [bind].
    destruct (float_ltb (float_lit 2 1) r) eqn:Hr; cbn [bind value_or].
    + assert (2 * Z.min width height < Z.max width height) by now apply Hiff.
      split; [discriminate |]. intros [_ [Hratio _]].
      specialize (Hratio Hpw Hph); lia.
    + assert (~ 2 * Z.min width height < Z.max width height).
      { intros Hlt; apply Hiff in Hlt; congruence. }
      fold (value_or
              (if Z.max width height <? 16 then Ok false
               else if str_eqb (lower (format icon)) (lit "svg") then Ok true
               else if 2048 * 2048 <? width * height then Ok false else Ok true)
              false).
      rewrite Htail; split.
      * intros [H16 Hrest]; repeat split; auto; intros; lia.
      * intros [H16 [_ Hrest]]; auto.
  - cbn [bind value_or].
    fold (value_or
            (if Z.max width height <? 16 then Ok false
             else if str_eqb (lower (format icon)) (lit "svg") then Ok true
             else if 2048 * 2048 <? width * height then Ok false else Ok true)
            false).
    rewrite Htail; split.
    + intros [H16 Hrest]; repeat split; auto.
      intros Hpw Hph; exfalso.
      apply Z.ltb_lt in Hpw, Hph; rewrite Hpw, Hph in Hpos; discriminate.
    + intros [H16 [_ Hrest]]; auto.
Qed.

End CandidateFacts.

Lemma measured_size_overrides_declared_witness :
  Hunter._calculate_score_with_rules
    ExamplesMore.serve_png ExamplesMore.decoder_48 ExamplesMore.two_rules
    (SpecMore.with_size
       (Examples.icon_of "https://example.com/logo.png" 0 0 "") 180 180)
  = Hunter._calculate_score_with_rules
      ExamplesMore.serve_png ExamplesMore.decoder_48 ExamplesMore.two_rules
      (Examples.icon_of "https://example.com/logo.png" 0 0 "").
Proof.
  apply (measured_size_overrides_declared
           ExamplesMore.serve_png ExamplesMore.decoder_48 ExamplesMore.two_rules
           (Examples.icon_of "https://example.com/logo.png" 0 0 "")
           {| Hunter.status_error := false;
              Hunter.content_type := Py.lit "image/png";
              Hunter.content := list_byte_of_string "PNG" |}
           (Examples.image_of_size 48 48) 180 180).
  - reflexivity.
  - vm_compute; reflexivity.
  - reflexivity.
  - simpl; lia.
  - simpl; lia.
Defined.

Lemma svg_scored_with_default_size_witness :
  Hunter._calculate_score_with_rules
    Examples.serve_svg Examples.no_decoder ExamplesMore.two_rules
    (SpecMore.with_size
       (Examples.icon_of "https://example.com/logo.svg" 16 16 "") 0 0)
  = Hunter._calculate_score_with_rules
      Examples.serve_svg Examples.no_decoder ExamplesMore.two_rules
      (SpecMore.with_size
         (Examples.icon_of "https://example.com/logo.svg" 16 16 "")
         (Py.int_or 0 100) (Py.int_or 0 100)).
Proof.
  apply (svg_scored_with_default_size
           Examples.serve_svg Examples.no_decoder ExamplesMore.two_rules
           (Examples.icon_of "https://example.com/logo.svg" 16 16 "")
           {| Hunter.status_error := false;
              Hunter.content_type := Py.lit "image/svg+xml";
              Hunter.content := Examples.svg_body |}
           (Py.lit "<svg xmlns='http://www.w3.org/2000/svg'/>") 0 0).
  - reflexivity.
  - vm_compute; reflexivity.
  - vm_compute; reflexivity.
Defined.

Lemma _validate_icon_accepts_iff_witness :
  Hunter._validate_icon
    (Examples.icon_of "https://example.com/logo.png" 0 0 "")
    (Examples.image_of_size 200 120) = true.
Proof.
  apply (_validate_icon_accepts_iff
           (Examples.icon_of "https://example.com/logo.png" 0 0 "")
           (Examples.image_of_size 200 120)).
  - simpl; lia.
  - simpl; lia.
  - cbn [Examples.image_of_size PIL.size fst snd].
    split; [lia | split; [intros; lia | right; lia]].
Defined.

(* ===================================================================== *)
(** * Properties of fallback discovery and of the markup rules            *)
(* ===================================================================== *)

Section FallbackFacts.
Import Py Hunter Discovery SpecMore.

Variable unicode_digit : N -> option (option Z).
Variable int_max_str_digits : nat.
Variable urljoin : str -> str -> Exc str.
Variable client_head : str -> Exc HeadResponse.

Lemma fallback_icon_joined :
  forall (base_url path u : str) (icons : list Icon),
    urljoin base_url path = Ok u ->
    fallback_icon unicode_digit int_max_str_digits urljoin client_head
      base_url path icons = Ok icons
    \/ exists response,
         client_head u = Ok response
         /\ status_code response = 200
         /\ fallback_icon unicode_digit int_max_str_digits urljoin client_head
              base_url path icons
            = Ok (icons ++ [fallback_icon_of unicode_digit int_max_str_digits
                              response path]).
Proof.
  intros base_url path u icons Hu; unfold fallback_icon.
  rewrite Hu; cbn [bind].
  destruct (client_head u) as [response | e]; cbn [bind try_except]; [| now left].
  destruct (Z.eqb_spec (status_code response) 200); [| now left].
  right; exists response; auto.
Qed.

Lemma fallback_icon_not_joined :
  forall (base_url path : str) (icons : list Icon) (e : exn),
    urljoin base_url path = Raise e ->
    fallback_icon unicode_digit int_max_str_digits urljoin client_head
      base_url path icons = Raise e.
Proof.
  intros base_url path icons e He; unfold fallback_icon.
  rewrite He; reflexivity.
Qed.

Lemma fallback_loop_joined :
  forall (base_url : str) (paths : list str) (icons : list Icon),
    (forall path, In path paths -> exists u, urljoin base_url path = Ok u) ->
    exists added,
      fallback_loop unicode_digit int_max_str_digits urljoin client_head
        base_url paths icons = Ok (icons ++ added)
      /\ (List.length added <= List.length paths)%nat
      /\ Forall (fun icon =>
                   exists path u response,
                     In path paths
                     /\ urljoin base_url path = Ok u
                     /\ client_head u = Ok response
                     /\ status_code response = 200
                     /\ icon = fallback_icon_of unicode_digit int_max_str_digits
                                 response path)
                added.
Proof.
  intros base_url paths; induction paths as [| path rest IH]; intros icons Hjoin.
  - exists []; cbn [fallback_loop]; rewrite app_nil_r; auto.
  - destruct (Hjoin path (or_introl eq_refl)) as [u Hu].
    assert (Hrest : forall p, In p rest -> exists v, urljoin base_url p = Ok v)
      by (intros p Hp; apply Hjoin; now right).
    cbn [fallback_loop].
    destruct (fallback_icon_joined base_url path u icons Hu)
      as [Hsame | [response [Hhead [Hstatus Hadd]]]].
    + rewrite Hsame; cbn [bind].
      destruct (IH icons Hrest) as [added [Hloop [Hlen Hall]]].
      exists added; split; [exact Hloop |]; split; [cbn [List.length]; lia |].
      eapply Forall_impl; [| exact Hall].
      intros icon [p [v [r [Hp H]]]]; exists p, v, r; split; [now right | exact H].
    + rewrite Hadd; cbn [bind].
      destruct (IH (icons ++ [fallback_icon_of unicode_digit int_max_str_digits
                                response path]) Hrest)
        as [added [Hloop [Hlen Hall]]].
      exists (fallback_icon_of unicode_digit int_max_str_digits response path
              :: added).
      split; [rewrite Hloop, <- app_assoc; reflexivity |].
      split; [cbn [List.length]; lia |].
      constructor.
      * exists path, u, response; repeat split; auto; now left.
      * eapply Forall_impl; [| exact Hall].
        intros icon [p [v [r [Hp H]]]]; exists p, v, r; split; [now right | exact H].
Qed.

Lemma fallback_loop_not_joined :
  forall (base_url : str) (paths : list str) (icons : list Icon)
         (path : str) (e : exn),
    In path paths ->
    urljoin base_url path = Raise e ->
    exists e',
      fallback_loop unicode_digit int_max_str_digits urljoin client_head
        base_url paths icons = Raise e'.
Proof.
  intros base_url paths; induction paths as [| p rest IH];
    intros icons path e Hin He; [contradiction |].
  cbn [fallback_loop].
  destruct (fallback_icon unicode_digit int_max_str_digits urljoin client_head
              base_url p icons) as [icons' | e'] eqn:Hp; cbn [bind]; [| eauto].
  destruct Hin as [<- | Hin].
  - rewrite (fallback_icon_not_joined base_url p icons e He) in Hp; discriminate.
  - exact (IH icons' path e Hin He).
Qed.

Lemma fallback_icon_of_shape :
  forall (response : HeadResponse) (path : str),
    In path FALLBACK_LOCATIONS ->
    let icon := fallback_icon_of unicode_digit int_max_str_digits response path in
    url icon = final_url response
    /\ width icon = height icon
    /\ In (width icon) [0; 180; 512]
    /\ In (format icon) [lit "svg"; lit "png"; lit "ico"]
    /\ alt_text icon = [] /\ css_classes icon = []
    /\ element_id icon = [] /\ parent_classes icon = [].
Proof.
  intros response path Hin; unfold FALLBACK_LOCATIONS in Hin.
  cbn [In] in Hin.
  destruct Hin as [<- | [<- | [<- | [<- | [<- | [<- | [<- | []]]]]]]];
    vm_compute; intuition congruence.
Qed.

(** X16: when [urljoin] accepts the base URL, [_get_fallback_icons]
    returns at most seven candidates, each made of a fallback location
    whose HEAD request answered 200: its URL is the one the request
    ended at, it is square with side 0, 180 or 512, its format is
    [svg], [png] or [ico], and it carries no markup context.  A request
    that fails or answers another status only leaves its location out. *)
Theorem _get_fallback_icons_shape :
  forall domain : str,
    (forall path,
        In path FALLBACK_LOCATIONS ->
        exists u, urljoin (lit "https://" ++ domain) path = Ok u) ->
    exists icons,
      _get_fallback_icons unicode_digit int_max_str_digits urljoin client_head
        domain = Ok icons
      /\ (List.length icons <= 7)%nat
      /\ Forall (fun icon =>
                   (exists path u response,
                       In path FALLBACK_LOCATIONS
                       /\ urljoin (lit "https://" ++ domain) path = Ok u
                       /\ client_head u = Ok response
                       /\ status_code response = 200
                       /\ url icon = final_url response)
                   /\ width icon = height icon
                   /\ In (width icon) [0; 180; 512]
                   /\ In (format icon) [lit "svg"; lit "png"; lit "ico"]
                   /\ alt_text icon = [] /\ css_classes icon = []
                   /\ element_id icon = [] /\ parent_classes icon = [])
                icons.
Proof.
  intros domain Hjoin; unfold _get_fallback_icons.
  destruct (fallback_loop_joined (lit "https://" ++ domain)
              FALLBACK_LOCATIONS [] Hjoin) as [added [Hloop [Hlen Hall]]].
  exists added; split; [exact Hloop |]; split; [exact Hlen |].
  eapply Forall_impl; [| exact Hall].
  intros icon [path [u [response [Hin [Hu [Hhead [Hstatus ->]]]]]]].
  destruct (fallback_icon_of_shape response path Hin) as [Hurl Hrest].
  split; [| exact Hrest].
  exists path, u, response; auto.
Qed.

(** X17: when [urljoin] raises on the base URL for one of the fallback
    locations, the exception is not contained: the handler of the loop
    joins the URL again for its log line, so [_get_fallback_icons]
    raises. *)
Theorem _get_fallback_icons_urljoin_error :
  forall (domain path : str) (e : exn),
    In path FALLBACK_LOCATIONS ->
    urljoin (lit "https://" ++ domain) path = Raise e ->
    exists e',
      _get_fallback_icons unicode_digit int_max_str_digits urljoin client_head
        domain = Raise e'.
Proof.
  intros domain path e Hin He; unfold _get_fallback_icons.
  exact (fallback_loop_not_joined _ _ [] path e Hin He).
Qed.

End FallbackFacts.

Lemma _get_fallback_icons_shape_witness :
  exists icons,
    Discovery._get_fallback_icons ExamplesMore.ascii_digits 4300
      ExamplesMore.join ExamplesMore.head_ok (Py.lit "example.com") = Py.Ok icons
    /\ (List.length icons <= 7)%nat
    /\ Forall (fun icon =>
                 (exists path u response,
                     In path Discovery.FALLBACK_LOCATIONS
                     /\ ExamplesMore.join
                          (Py.lit "https://" ++ Py.lit "example.com") path = Py.Ok u
                     /\ ExamplesMore.head_ok u = Py.Ok response
                     /\ Discovery.status_code response = 200
                     /\ Hunter.url icon = Discovery.final_url response)
                 /\ Hunter.width icon = Hunter.height icon
                 /\ In (Hunter.width icon) [0; 180; 512]
                 /\ In (Hunter.format icon)
                      [Py.lit "svg"; Py.lit "png"; Py.lit "ico"]
                 /\ Hunter.alt_text icon = [] /\ Hunter.css_classes icon = []
                 /\ Hunter.element_id icon = []
                 /\ Hunter.parent_classes icon = [])
              icons.
Proof.
  apply (_get_fallback_icons_shape ExamplesMore.ascii_digits 4300
           ExamplesMore.join ExamplesMore.head_ok (Py.lit "example.com")).
  intros path _; eexists; reflexivity.
Defined.

Lemma _get_fallback_icons_urljoin_error_witness :
  exists e',
    Discovery._get_fallback_icons ExamplesMore.ascii_digits 4300
      ExamplesMore.join_fails ExamplesMore.head_ok (Py.lit "[") = Py.Raise e'.
Proof.
  apply (_get_fallback_icons_urljoin_error ExamplesMore.ascii_digits 4300
           ExamplesMore.join_fails ExamplesMore.head_ok
           (Py.lit "[") (Py.lit "/favicon.ico") Py.ValueError).
  - vm_compute; tauto.
  - reflexivity.
Defined.

Section MarkupFacts.
Import Py Hunter Discovery Scoring HtmlRules Spec SpecMore.

Variable url_path : str -> str.

Lemma _get_parent_classes_loop_eq :
  forall (ancestors : list Node) (acc : list str),
    exists added,
      _get_parent_classes_loop ancestors acc = acc ++ added
      /\ List.length added = List.length (filter has_class ancestors)
      /\ Forall (fun s => s <> []) added.
Proof.
  induction ancestors as [| current above IH]; intros acc.
  - exists []; cbn; rewrite app_nil_r; auto.
  - cbn [_get_parent_classes_loop filter].
    unfold has_class at 1, dict_get.
    destruct (attributes current) as [| a attrs] eqn:Hattrs.
    + cbn [dict_lookup]; apply IH.
    + rewrite <- Hattrs.
      destruct (dict_lookup (lit "class") (attributes current))
        as [[[| c cs] |] |]; try apply IH.
      destruct (IH (acc ++ [c :: cs])) as [added [Heq [Hlen Hall]]].
      exists ((c :: cs) :: added); rewrite Heq, <- app_assoc.
      split; [reflexivity |]; split; [cbn [List.length]; lia |].
      constructor; [discriminate | exact Hall].
Qed.

(** X18: the depth the markup rules see is the number of ancestors
    with a class attribute that is not empty, not the number of
    ancestors: a candidate none of whose ancestors has a class gets the
    full [header_proximity] answer and no [deep_dom_nesting] answer,
    however deep it stands. *)
Theorem _get_parent_classes_depth :
  forall (ancestors : list Node) (c : Context),
    parent_classes c = _get_parent_classes ancestors ->
    List.length (parent_classes c) = List.length (filter has_class ancestors)
    /\ (List.length (parent_classes c) <= List.length ancestors)%nat
    /\ Forall (fun s => s <> []) (parent_classes c)
    /\ (Forall (fun element => has_class element = false) ancestors ->
        header_proximity c = Ok (VFloat (float_lit 1 1))
        /\ deep_dom_nesting c = Ok (VBool false)).
Proof.
  intros ancestors c Hc.
  destruct (_get_parent_classes_loop_eq ancestors []) as [added [Heq [Hlen Hall]]].
  unfold _get_parent_classes in Hc; rewrite Heq in Hc; cbn [app] in Hc.
  rewrite Hc; split; [exact Hlen |].
  split; [rewrite Hlen; apply filter_length_le |].
  split; [exact Hall |].
  intros Hnone.
  assert (Hf : filter has_class ancestors = []).
  { clear - Hnone; induction Hnone as [| x l Hx _ IH]; [reflexivity |].
    cbn [filter]; now rewrite Hx. }
  rewrite Hf in Hlen; destruct added; [| discriminate].
  unfold header_proximity, deep_dom_nesting; rewrite Hc; split; reflexivity.
Qed.

(** X19: [header_proximity] answers 0 exactly from depth 9 on and
    [deep_dom_nesting] answers [False] exactly up to depth 10: no
    candidate gets both the bonus and the penalty, and one at depth 9
    or 10 gets neither. *)
Theorem header_proximity_or_deep_dom_nesting :
  forall c : Context,
    let depth := Z.of_nat (List.length (parent_classes c)) in
    (header_proximity c = Ok (VInt 0) <-> 8 < depth)
    /\ (deep_dom_nesting c = Ok (VBool false) <-> depth <= 10)
    /\ (header_proximity c = Ok (VInt 0)
        \/ deep_dom_nesting c = Ok (VBool false)).
Proof.
  intros c depth; unfold header_proximity, deep_dom_nesting; fold depth.
  destruct (Z.leb_spec depth 3); [| destruct (Z.leb_spec depth 5);
    [| destruct (Z.leb_spec depth 8)]];
  destruct (Z.ltb_spec 15 depth); try lia;
  try (destruct (Z.ltb_spec 12 depth); try lia);
  try (destruct (Z.ltb_spec 10 depth); try lia);
  (split; [split; [try discriminate; intros; lia | intros; try lia; reflexivity]
          | split; [split; [try discriminate; intros; lia
                           | intros; try lia; reflexivity]
                   | try (now left); try (now right)]]).
Qed.

Lemma contains_lower_nonempty :
  forall s keyword : str,
    keyword <> [] -> contains (lower s) keyword = true -> s <> [].
Proof.
  intros s keyword Hk H ->; destruct keyword; [congruence | discriminate].
Qed.

Lemma parent_matches_intro :
  forall (patterns : list str) (p pattern : str),
    In pattern patterns ->
    pattern <> [] ->
    contains (lower p) pattern = true ->
    parent_matches patterns p = true.
Proof.
  intros patterns p pattern Hin Hne Hc; unfold parent_matches.
  destruct p as [| ch p]; [now apply contains_lower_nonempty in Hc |].
  unfold any_keyword; apply existsb_exists; eauto.
Qed.

(** X20: the pattern [banner] stands in the list of the bonus
    [parent_logo_context] and in the list of the penalty
    [advertisement_context]: a candidate with a parent class holding
    [banner], in any letter case, gets both. *)
Theorem banner_parent_gets_bonus_and_penalty :
  forall (c : Context) (p : str),
    In p (parent_classes c) ->
    contains (lower p) (lit "banner") = true ->
    parent_logo_context c = Ok (VBool true)
    /\ advertisement_context url_path c = Ok (VBool true).
Proof.
  intros c p Hin Hc.
  assert (Hlogo : existsb (parent_matches logo_patterns) (parent_classes c) = true).
  { apply existsb_exists; exists p; split; [exact Hin |].
    apply (parent_matches_intro _ _ (lit "banner")); auto;
      [unfold logo_patterns; cbn; tauto | discriminate]. }
  assert (Had : existsb (parent_matches ad_patterns) (parent_classes c) = true).
  { apply existsb_exists; exists p; split; [exact Hin |].
    apply (parent_matches_intro _ _ (lit "banner")); auto;
      [unfold ad_patterns; cbn; tauto | discriminate]. }
  unfold parent_logo_context, advertisement_context; rewrite Hlogo, Had.
  split; [reflexivity |].
  repeat match goal with
         | |- (if ?b then _ else _) = _ => destruct b; [reflexivity |]
         end.
  reflexivity.
Qed.

Lemma and_keyword_contribution :
  forall (rule : rule_func) (field : Context -> str) (c : Context)
         (label : str) (weight : Z),
    rule c = Ok (and_keyword (field c) (lit "logo")) ->
    contribution_of c (rule, label, weight)
    = if contains (lower (field c)) (lit "logo") then weight else 0.
Proof.
  intros rule field c label weight H; unfold contribution_of; rewrite H.
  destruct (field c) as [| ch s]; [reflexivity |].
  cbn [and_keyword bind score_contribution value_or]; reflexivity.
Qed.

(** X21: the rules [logo_in_alt_text], [logo_in_css_classes] and
    [logo_in_element_id] answer the empty string, no boolean, for an
    empty attribute; the engine counts that as nothing, so each
    contributes its weight when its attribute holds [logo] in any
    letter case and nothing otherwise. *)
Theorem logo_in_attribute_contribution :
  forall (c : Context) (label : str) (weight : Z),
    contribution_of c (logo_in_alt_text, label, weight)
    = (if contains (lower (alt_text c)) (lit "logo") then weight else 0)
    /\ contribution_of c (logo_in_css_classes, label, weight)
       = (if contains (lower (css_classes c)) (lit "logo") then weight else 0)
    /\ contribution_of c (logo_in_element_id, label, weight)
       = (if contains (lower (element_id c)) (lit "logo") then weight else 0).
Proof.
  intros c label weight; repeat split.
  - now apply (and_keyword_contribution logo_in_alt_text alt_text).
  - now apply (and_keyword_contribution logo_in_css_classes css_classes).
  - now apply (and_keyword_contribution logo_in_element_id element_id).
Qed.

End MarkupFacts.

Lemma _get_parent_classes_depth_witness :
  List.length
    (Discovery._get_parent_classes
       [Examples.link [("rel", "icon")]%string; ExamplesMore.div "";
        ExamplesMore.div "nav top"])
  = List.length
      (filter SpecMore.has_class
         [Examples.link [("rel", "icon")]%string; ExamplesMore.div "";
          ExamplesMore.div "nav top"]).
Proof.
  apply (_get_parent_classes_depth
           [Examples.link [("rel", "icon")]%string; ExamplesMore.div "";
            ExamplesMore.div "nav top"]
           (ExamplesMore.ctx_of_parents
              (Discovery._get_parent_classes
                 [Examples.link [("rel", "icon")]%string; ExamplesMore.div "";
                  ExamplesMore.div "nav top"]))).
  reflexivity.
Defined.

Lemma banner_parent_gets_bonus_and_penalty_witness :
  HtmlRules.parent_logo_context
    (ExamplesMore.ctx_of_parents [Py.lit "row"; Py.lit "Top-Banner wide"])
  = Py.Ok (Scoring.VBool true)
  /\ HtmlRules.advertisement_context ExamplesMore.whole_url
       (ExamplesMore.ctx_of_parents [Py.lit "row"; Py.lit "Top-Banner wide"])
     = Py.Ok (Scoring.VBool true).
Proof.
  apply (banner_parent_gets_bonus_and_penalty ExamplesMore.whole_url
           (ExamplesMore.ctx_of_parents [Py.lit "row"; Py.lit "Top-Banner wide"])
           (Py.lit "Top-Banner wide")).
  - right; left; reflexivity.
  - vm_compute; reflexivity.
Defined.

(* ===================================================================== *)
(** * Further properties of float division and comparison                 *)
(* ===================================================================== *)

Section FloatThresholdFacts.
Import Py.

Lemma float_ltb_finite :
  forall (K m : positive) (t e : Z),
    float_ltb (S754_finite false K t) (S754_finite false m e) = true <->
    t < e \/ (t = e /\ Zpos K < Zpos m).
Proof.
  intros K m t e; unfold float_ltb, SFltb, SFcompare.
  destruct (Z.compare_spec t e) as [He | He | He].
  - subst e.
    change (Pos.compare_cont Eq K m) with (Pos.compare K m).
    destruct (Pos.compare_spec K m) as [Hm | Hm | Hm].
    + subst m; split; [discriminate | intros [H | [_ H]]; lia].
    + split; [intros _; right; split; [reflexivity | lia] | reflexivity].
    + split; [discriminate | intros [H | [_ H]]; lia].
  - split; [intros _; now left | reflexivity].
  - split; [discriminate | intros [H | [H _]]; lia].
Qed.

Lemma pow2_double :
  forall d t : Z, 0 <= d -> d < t -> 2 * 2 ^ d <= 2 ^ t.
Proof.
  intros d t Hd Hlt.
  rewrite <- Z.pow_succ_r by lia.
  apply Z.pow_le_mono_r; lia.
Qed.

Lemma int_true_div_gt :
  forall (K : positive) (t a b : Z),
    2 ^ 52 <= Zpos K < 2 ^ 53 ->
    0 <= t ->
    0 < b -> b <= a -> a < 2 ^ 52 ->
    (Zpos K * b < a * 2 ^ t -> (Zpos K + 1) * b <= a * 2 ^ t) ->
    exists r,
      int_true_div a b = Ok r
      /\ (float_ltb (S754_finite false K (- t)) r = true <->
          Zpos K * b < a * 2 ^ t).
Proof.
  intros K t a b HK Ht Hb Hle Hlt Hgap.
  destruct a as [| pa | pa]; try lia.
  destruct b as [| pb | pb]; try lia.
  destruct (SFdiv_core_small pa pb Hle Hlt) as [s [Hs [Hq Hcore]]].
  set (q := Zpos pa * 2 ^ s / Zpos pb) in *.
  set (loc := new_location (Zpos pb) (Zpos pa * 2 ^ s mod Zpos pb)) in *.
  destruct (binary_round_aux_normal q (- s) loc Hq ltac:(lia))
    as [n [m1 [m2 [Hn [Hm1 [Hm1b [Hm2 [Hexact Hround]]]]]]]].
  assert (Hdiv : int_true_div (Zpos pa) (Zpos pb) =
                 Ok (if m2 <? 2 ^ 53 then S754_finite false (Z.to_pos m2) (- s + n)
                     else S754_finite false (2 ^ 52)%positive (- s + n + 1))).
  { unfold int_true_div, SFdiv; cbn [Z.eqb int_exact xorb].
    rewrite Hcore, Hround.
    destruct (m2 <? 2 ^ 53); reflexivity. }
  eexists; split; [exact Hdiv |].
  set (d := s - n).
  set (T := 2 ^ d).
  assert (Hd : 1 <= d <= 53) by (unfold d; lia).
  assert (HT : 0 < T) by (apply Z.pow_pos_nonneg; lia).
  assert (HP : 2 ^ s = T * 2 ^ n).
  { unfold T, d; rewrite <- Z.pow_add_r by lia. f_equal; lia. }
  assert (Hn2 : 0 < 2 ^ n) by (apply Z.pow_pos_nonneg; lia).
  assert (Hm1' : m1 = Zpos pa * T / Zpos pb).
  { rewrite Hm1; unfold q; rewrite HP.
    rewrite Z.div_div by lia.
    rewrite Z.mul_assoc, Z.div_mul_cancel_r by lia. reflexivity. }
  assert (Hfloor : m1 * Zpos pb <= Zpos pa * T < (m1 + 1) * Zpos pb).
  { rewrite Hm1'.
    pose proof (Z.div_mod (Zpos pa * T) (Zpos pb) ltac:(lia)) as Hdm.
    pose proof (Z.mod_pos_bound (Zpos pa * T) (Zpos pb) ltac:(lia)) as Hmb.
    rewrite Z.mul_add_distr_r, (Z.mul_comm (Zpos pa * T / Zpos pb)).
    lia. }
  assert (Hex : Zpos pa * T = m1 * Zpos pb -> m2 = m1).
  { intros Heq.
    assert (Hqe : Zpos pa * 2 ^ s = (m1 * 2 ^ n) * Zpos pb).
    { rewrite HP, Z.mul_assoc, Heq; ring. }
    apply Hexact.
    - unfold loc; rewrite Hqe, Z.mod_mul by lia. apply new_location_zero.
    - unfold q; rewrite Hqe, Z.div_mul by lia. apply Z.mod_mul; lia. }
  set (U := 2 ^ t).
  assert (HU : 0 < U) by (apply Z.pow_pos_nonneg; lia).
  assert (Hlt_dt : d < t -> Zpos pa * (2 * T) <= Zpos pa * U).
  { intros H; apply Z.mul_le_mono_nonneg_l; [lia |].
    apply pow2_double; lia. }
  assert (Hgt_dt : t < d -> Zpos pa * (2 * U) <= Zpos pa * T).
  { intros H; apply Z.mul_le_mono_nonneg_l; [lia |].
    apply pow2_double; lia. }
  assert (Heq_dt : d = t -> T = U) by (intros H; unfold T, U; now rewrite H).
  fold U in Hgap |- *.
  replace (- s + n) with (- d) by (unfold d; lia).
  (* the products the comparisons go through *)
  assert (PK : Zpos K * Zpos pb < 2 ^ 53 * Zpos pb)
    by (apply Z.mul_lt_mono_pos_r; lia).
  assert (PK' : 2 ^ 52 * Zpos pb <= Zpos K * Zpos pb)
    by (apply Z.mul_le_mono_nonneg_r; lia).
  assert (Pm1 : 2 ^ 52 * Zpos pb <= m1 * Zpos pb)
    by (apply Z.mul_le_mono_nonneg_r; lia).
  assert (Pm1' : (m1 + 1) * Zpos pb <= 2 ^ 53 * Zpos pb)
    by (apply Z.mul_le_mono_nonneg_r; lia).
  clearbody T U q loc.
  clear Hcore Hround Hdiv Hexact Hm1 Hm1' Hq HP.
  destruct (m2 <? 2 ^ 53) eqn:Hm2lt.
  - apply Z.ltb_lt in Hm2lt.
    rewrite float_ltb_finite, Z2Pos.id by lia.
    split.
    + intros [He | [He Hm]].
      * assert (Zpos pa * (2 * T) <= Zpos pa * U) by (apply Hlt_dt; lia).
        lia.
      * assert (HTe : T = U) by (apply Heq_dt; lia).
        destruct (Z.lt_ge_cases (Zpos K * Zpos pb) (Zpos pa * U)) as [|Hge];
          [assumption | exfalso].
        rewrite <- HTe in Hge.
        assert (Hle1 : m1 <= Zpos K).
        { apply (Z.mul_le_mono_pos_r _ _ (Zpos pb)); lia. }
        assert (Hm1K : m1 = Zpos K) by lia.
        rewrite <- Hm1K in Hge.
        assert (Heq : Zpos pa * T = m1 * Zpos pb) by lia.
        specialize (Hex Heq). lia.
    + intros Hgt.
      destruct (Z.lt_trichotomy d t) as [Hc | [Hc | Hc]].
      * left; lia.
      * right; split; [lia |].
        assert (HTe : T = U) by (apply Heq_dt; lia).
        specialize (Hgap Hgt). rewrite <- HTe in Hgap.
        assert (Zpos K + 1 < m1 + 1).
        { apply (Z.mul_lt_mono_pos_r (Zpos pb)); lia. }
        lia.
      * exfalso.
        assert (Zpos pa * (2 * U) <= Zpos pa * T) by (apply Hgt_dt; lia).
        lia.
  - apply Z.ltb_ge in Hm2lt.
    rewrite float_ltb_finite.
    change (Zpos (2 ^ 52)) with (2 ^ 52).
    assert (Hm1v : m1 = 2 ^ 53 - 1) by lia.
    split.
    + intros [He | [_ Hm]]; [| lia].
      destruct (Z.lt_ge_cases (Zpos K * Zpos pb) (Zpos pa * U)) as [|Hge];
        [assumption | exfalso].
      destruct (Z.lt_trichotomy d t) as [Hc | [Hc | Hc]]; [| | lia].
      * assert (Zpos pa * (2 * T) <= Zpos pa * U) by (apply Hlt_dt; lia).
        rewrite Hm1v in Hfloor. lia.
      * assert (HTe : T = U) by (apply Heq_dt; lia).
        rewrite <- HTe in Hge.
        assert (PKm : Zpos K * Zpos pb <= m1 * Zpos pb)
          by (apply Z.mul_le_mono_nonneg_r; lia).
        assert (Heq : Zpos pa * T = m1 * Zpos pb) by lia.
        specialize (Hex Heq). lia.
    + intros Hgt; left.
      destruct (Z.lt_trichotomy d t) as [Hc | [Hc | Hc]]; [lia | lia | exfalso].
      assert (Zpos pa * (2 * U) <= Zpos pa * T) by (apply Hgt_dt; lia).
      lia.
Qed.

Lemma float_lit_5 : float_lit 5 1 = S754_finite false 5629499534213120 (-50).
Proof. vm_compute; reflexivity. Qed.
Lemma float_lit_6 : float_lit 6 1 = S754_finite false 6755399441055744 (-50).
Proof. vm_compute; reflexivity. Qed.
Lemma float_lit_8 : float_lit 8 1 = S754_finite false 4503599627370496 (-49).
Proof. vm_compute; reflexivity. Qed.
Lemma float_lit_15 : float_lit 15 10 = S754_finite false 6755399441055744 (-52).
Proof. vm_compute; reflexivity. Qed.

(** For sides below 2^51 the quotient the rules compare with 8.0, 6.0,
    5.0 and 1.5 exceeds the threshold exactly when the integers say so. *)
Lemma int_true_div_thresholds :
  forall a b : Z,
    0 < b -> b <= a -> a < 2 ^ 51 ->
    exists r,
      int_true_div a b = Ok r
      /\ float_ltb (float_lit 8 1) r = (8 * b <? a)
      /\ float_ltb (float_lit 6 1) r = (6 * b <? a)
      /\ float_ltb (float_lit 5 1) r = (5 * b <? a)
      /\ float_ltb (float_lit 15 10) r = (3 * b <? 2 * a).
Proof.
  intros a b Hb Hle Hlt.
  assert (H52 : a < 2 ^ 52) by lia.
  assert (Hbool : forall (x y : bool) (P : Prop), (x = true <-> P) ->
                    (y = true <-> P) -> x = y).
  { intros x y P H1 H2; destruct x, y; try reflexivity.
    - assert (false = true) by (apply H2, H1; reflexivity); discriminate.
    - assert (false = true) by (apply H1, H2; reflexivity); discriminate. }
  destruct (int_true_div_gt 4503599627370496 49 a b) as [r [Hr H8]];
    try lia.
  exists r; split; [exact Hr |].
  destruct (int_true_div_gt 6755399441055744 50 a b) as [r6 [Hr6 H6]];
    try lia.
  destruct (int_true_div_gt 5629499534213120 50 a b) as [r5 [Hr5 H5]];
    try lia.
  destruct (int_true_div_gt 6755399441055744 52 a b) as [r15 [Hr15 H15]];
    try lia.
  assert (r6 = r) by congruence; assert (r5 = r) by congruence;
    assert (r15 = r) by congruence; subst r6 r5 r15.
  rewrite float_lit_8, float_lit_6, float_lit_5, float_lit_15.
  change (-49) with (- 49); change (-50) with (- 50); change (-52) with (- 52).
  repeat split.
  - eapply Hbool; [exact H8 |].
    rewrite Z.ltb_lt. change (Zpos 4503599627370496) with (8 * 2 ^ 49). nia.
  - eapply Hbool; [exact H6 |].
    rewrite Z.ltb_lt. change (Zpos 6755399441055744) with (6 * 2 ^ 50). nia.
  - eapply Hbool; [exact H5 |].
    rewrite Z.ltb_lt. change (Zpos 5629499534213120) with (5 * 2 ^ 50). nia.
  - eapply Hbool; [exact H15 |].
    rewrite Z.ltb_lt. change (Zpos 6755399441055744) with (3 * 2 ^ 51).
    change (2 ^ 52) with (2 * 2 ^ 51). nia.
Qed.

Lemma int_le_float_neg_exp :
  forall (z : Z) (m p : positive),
    int_le_float z (S754_finite false m (Zneg p)) = (z <=? Zpos m / 2 ^ Zpos p).
Proof.
  intros z m p; unfold int_le_float, int_compare_float; cbn [cond_Zopp].
  assert (Hq : 0 < 2 ^ Zpos p) by (apply Z.pow_pos_nonneg; lia).
  destruct (Z.compare_spec (z * 2 ^ Zpos p) (Zpos m)) as [H | H | H];
    symmetry.
  - apply Z.leb_le, Z.div_le_lower_bound; lia.
  - apply Z.leb_le, Z.div_le_lower_bound; lia.
  - apply Z.leb_gt, Z.div_lt_upper_bound; lia.
Qed.

End FloatThresholdFacts.

(* ===================================================================== *)
(** * Properties of the dimension rules in integer arithmetic             *)
(* ===================================================================== *)

Section DimensionRuleFacts.
Import Py Scoring DimensionsPenalty DimensionsBonus SpecMore.

(** Solves: the float tolerance of a table entry allows the integers up
    to the integer tolerance. *)
Ltac banner_tolerance :=
  match goal with
  | |- exists f, int_mul_float ?b ?x = Ok f /\ _ =>
      let r := eval vm_compute in (int_mul_float b x) in
      match r with
      | Ok ?f =>
          exists f; split; [vm_compute; reflexivity |];
          let z := fresh "z" in
          intros z;
          let t := eval vm_compute in (max_int_float 5 f) in
          change (max_int_float 5 f) with t;
          cbn [int_le_num];
          try rewrite int_le_float_neg_exp;
          reflexivity
      end
  end.

Ltac social_tolerance :=
  match goal with
  | |- exists f, int_mul_float ?b ?x = Ok f /\ _ =>
      let r := eval vm_compute in (int_mul_float b x) in
      match r with
      | Ok ?f =>
          exists f; split; [vm_compute; reflexivity |];
          let z := fresh "z" in
          intros z; rewrite int_le_float_neg_exp; reflexivity
      end
  end.

Lemma banner_tolerances :
  Forall (fun b =>
            (exists f,
                int_mul_float (fst b) (float_lit 1 10) = Ok f
                /\ forall z, int_le_num z (max_int_float 5 f)
                             = (z <=? Z.max 5 (fst b / 10)))
            /\ (exists f,
                   int_mul_float (snd b) (float_lit 1 10) = Ok f
                   /\ forall z, int_le_num z (max_int_float 5 f)
                                = (z <=? Z.max 5 (snd b / 10))))
         banner_dimensions_list.
Proof.
  unfold banner_dimensions_list.
  repeat (apply Forall_cons; [cbn [fst snd]; split; banner_tolerance |]).
  apply Forall_nil.
Qed.

Lemma banner_loop_eq :
  forall (w h : Z) (dims : list (Z * Z)),
    Forall (fun b =>
              (exists f,
                  int_mul_float (fst b) (float_lit 1 10) = Ok f
                  /\ forall z, int_le_num z (max_int_float 5 f)
                               = (z <=? Z.max 5 (fst b / 10)))
              /\ (exists f,
                     int_mul_float (snd b) (float_lit 1 10) = Ok f
                     /\ forall z, int_le_num z (max_int_float 5 f)
                                  = (z <=? Z.max 5 (snd b / 10))))
           dims ->
    banner_loop w h dims
    = Ok (VBool
            (existsb
               (fun b => (Z.abs (w - fst b) <=? Z.max 5 (fst b / 10))
                         && (Z.abs (h - snd b) <=? Z.max 5 (snd b / 10)))
               dims)).
Proof.
  intros w h dims Hall.
  induction Hall as [| [bw bh] rest [[fw [Hfw Hw]] [fh [Hfh Hh]]] _ IH];
    [reflexivity |].
  cbn [fst snd] in *; cbn [banner_loop existsb fst snd].
  rewrite Hfw, Hfh; cbn [bind]; rewrite Hw, Hh.
  destruct ((Z.abs (w - bw) <=? Z.max 5 (bw / 10))
            && (Z.abs (h - bh) <=? Z.max 5 (bh / 10))); [reflexivity |].
  exact IH.
Qed.

(** X24: [banner_dimensions] decides in floats what the integers
    decide: it answers [True] exactly when, for one size of its table,
    each side differs from the table's by at most a tenth of it rounded
    down, and at least 5 is allowed. *)
Theorem banner_dimensions_integer :
  forall c : Context,
    banner_dimensions c
    = Ok (if (width c =? 0) || (height c =? 0) then VInt 0
          else VBool (is_banner_size (width c) (height c))).
Proof.
  intros c; unfold banner_dimensions.
  destruct ((width c =? 0) || (height c =? 0)); [reflexivity |].
  apply banner_loop_eq, banner_tolerances.
Qed.

Lemma social_tolerances :
  Forall (fun s =>
            (exists f,
                int_mul_float (fst s) (float_lit 5 100) = Ok f
                /\ forall z, int_le_float z f = (z <=? fst s / 20))
            /\ (exists f,
                   int_mul_float (snd s) (float_lit 5 100) = Ok f
                   /\ forall z, int_le_float z f = (z <=? snd s / 20))
            /\ 0 < fst s - fst s / 20 /\ fst s + fst s / 20 < 2 ^ 51
            /\ 0 < snd s - snd s / 20 /\ snd s + snd s / 20 < 2 ^ 51)
         social_dimensions.
Proof.
  unfold social_dimensions.
  repeat (apply Forall_cons;
          [cbn [fst snd];
           split; [social_tolerance |];
           split; [social_tolerance |];
           vm_compute; repeat split; reflexivity |]).
  apply Forall_nil.
Qed.

Lemma social_media_loop_eq :
  forall (w h : Z) (dims : list (Z * Z)),
    Forall (fun s =>
              (exists f,
                  int_mul_float (fst s) (float_lit 5 100) = Ok f
                  /\ forall z, int_le_float z f = (z <=? fst s / 20))
              /\ (exists f,
                     int_mul_float (snd s) (float_lit 5 100) = Ok f
                     /\ forall z, int_le_float z f = (z <=? snd s / 20))
              /\ 0 < fst s - fst s / 20 /\ fst s + fst s / 20 < 2 ^ 51
              /\ 0 < snd s - snd s / 20 /\ snd s + snd s / 20 < 2 ^ 51)
           dims ->
    social_media_loop w h dims
    = Ok (if existsb
               (fun s => (Z.abs (w - fst s) <=? fst s / 20)
                         && (Z.abs (h - snd s) <=? snd s / 20))
               dims
          then if 3 * Z.min w h <? 2 * Z.max w h
               then VFloat (float_lit 1 1) else VFloat (float_lit 33 100)
          else VBool false).
Proof.
  intros w h dims Hall.
  induction Hall
    as [| [sw sh] rest [[fw [Hfw Hw]] [[fh [Hfh Hh]] Hbounds]] _ IH];
    [reflexivity |].
  cbn [fst snd] in *; cbn [social_media_loop existsb fst snd].
  rewrite Hfw, Hfh; cbn [bind]; rewrite Hw, Hh.
  destruct ((Z.abs (w - sw) <=? sw / 20) && (Z.abs (h - sh) <=? sh / 20))
    eqn:Hmatch; [| exact IH].
  apply andb_true_iff in Hmatch; destruct Hmatch as [Hmw Hmh].
  apply Z.leb_le in Hmw, Hmh.
  destruct (int_true_div_thresholds (Z.max w h) (Z.min w h))
    as [r [Hr [_ [_ [_ H15]]]]]; try lia.
  rewrite Hr; cbn [bind orb]; rewrite H15.
  destruct (3 * Z.min w h <? 2 * Z.max w h); reflexivity.
Qed.

(** X23: [social_media_dimensions] matches exactly when, for one size of
    its table, each side differs from the table's by at most a twentieth
    of it rounded down; a match answers 1.0 when the longer side is more
    than one and a half times the shorter, and 0.33 otherwise. *)
Theorem social_media_dimensions_integer :
  forall c : Context,
    social_media_dimensions c
    = Ok (if (width c =? 0) || (height c =? 0) then VInt 0
          else if is_social_size (width c) (height c)
               then if 3 * Z.min (width c) (height c)
                       <? 2 * Z.max (width c) (height c)
                    then VFloat (float_lit 1 1) else VFloat (float_lit 33 100)
               else VBool false).
Proof.
  intros c; unfold social_media_dimensions.
  destruct ((width c =? 0) || (height c =? 0)); [reflexivity |].
  apply social_media_loop_eq, social_tolerances.
Qed.

(** X22: for sides below 2^51, [extremely_wide_aspect_ratio] answers by
    the integer comparison of the longer side with 8, 6 and 5 times the
    shorter: the rounding of the float quotient never moves a candidate
    across a threshold. *)
Theorem extremely_wide_aspect_ratio_integer :
  forall c : Context,
    0 < width c < 2 ^ 51 ->
    0 < height c < 2 ^ 51 ->
    let longer := Z.max (width c) (height c) in
    let shorter := Z.min (width c) (height c) in
    extremely_wide_aspect_ratio c
    = Ok (if 8 * shorter <? longer then VFloat (float_lit 1 1)
          else if 6 * shorter <? longer then VFloat (float_lit 75 100)
          else if 5 * shorter <? longer then VFloat (float_lit 5 10)
          else VBool false).
Proof.
  intros c Hw Hh longer shorter; unfold extremely_wide_aspect_ratio.
  replace ((width c =? 0) || (height c =? 0)) with false
    by (symmetry; apply orb_false_iff; split; apply Z.eqb_neq; lia).
  fold longer shorter.
  destruct (int_true_div_thresholds longer shorter)
    as [r [Hr [H8 [H6 [H5 _]]]]]; try (unfold longer, shorter; lia).
  rewrite Hr; cbn [bind]; rewrite H8, H6, H5.
  destruct (8 * shorter <? longer); [reflexivity |].
  destruct (6 * shorter <? longer); [reflexivity |].
  destruct (5 * shorter <? longer); reflexivity.
Qed.

Ltac rule_lia := zify; Z.to_euclidean_division_equations; lia.

Lemma apple_touch_icon_sizes_near :
  forall (c : Context) (v : value),
    apple_touch_icon_sizes c = Ok v ->
    v <> VInt 0 ->
    width c <> 0 /\ height c <> 0
    /\ exists s,
         In s [128; 152; 167; 180; 192; 256; 512]
         /\ Z.abs (width c - s) <= 2 /\ Z.abs (height c - s) <= 2.
Proof.
  intros c v H Hv; unfold apple_touch_icon_sizes in H.
  destruct ((width c =? 0) || (height c =? 0)) eqn:Hz; [congruence |].
  apply orb_false_iff in Hz; destruct Hz as [Hw Hh].
  apply Z.eqb_neq in Hw, Hh; split; [exact Hw |]; split; [exact Hh |].
  assert (Hnear :
            existsb (fun std => (Z.abs (width c - fst std) <=? 2)
                                && (Z.abs (height c - snd std) <=? 2))
                    standard_sizes = true).
  { destruct (existsb (pair_eqb (width c, height c)) standard_sizes) eqn:Hexact.
    - apply existsb_exists in Hexact; destruct Hexact as [std [Hin Heq]].
      apply existsb_exists; exists std; split; [exact Hin |].
      unfold pair_eqb in Heq; cbn [fst snd] in Heq.
      apply andb_true_iff in Heq; destruct Heq as [H1 H2].
      apply Z.eqb_eq in H1, H2; rewrite H1, H2, !Z.sub_diag; reflexivity.
    - match type of H with
      | (if ?b then _ else _) = _ => destruct b; [reflexivity | congruence]
      end. }
  apply existsb_exists in Hnear; destruct Hnear as [[sw sh] [Hin Hnear]].
  cbn [fst snd] in Hnear.
  apply andb_true_iff in Hnear; destruct Hnear as [H1 H2].
  apply Z.leb_le in H1, H2.
  unfold standard_sizes in Hin; cbn [In] in Hin.
  destruct Hin as [E | [E | [E | [E | [E | [E | [E | []]]]]]]];
    inversion E; subst sw sh; eexists; (split; [| split; eassumption]);
    cbn [In]; tauto.
Qed.

(** X25: a candidate that earns the bonus of [apple_touch_icon_sizes]
    gets none of the penalties for very small images, extreme aspect
    ratios, social media sizes and banner sizes. *)
Theorem apple_touch_icon_sizes_excludes_penalties :
  forall (c : Context) (v : value),
    apple_touch_icon_sizes c = Ok v ->
    v <> VInt 0 ->
    very_small_images c = Ok (VBool false)
    /\ extremely_wide_aspect_ratio c = Ok (VBool false)
    /\ social_media_dimensions c = Ok (VBool false)
    /\ banner_dimensions c = Ok (VBool false).
Proof.
  intros c v H Hv.
  destruct (apple_touch_icon_sizes_near c v H Hv)
    as [Hw [Hh [s [Hin [Hsw Hsh]]]]].
  assert (Hguard : (width c =? 0) || (height c =? 0) = false)
    by (apply orb_false_iff; split; now apply Z.eqb_neq).
  assert (Hs : 128 <= s <= 512) by (cbn [In] in Hin; lia).
  split; [| split; [| split]].
  - unfold very_small_images; rewrite Hguard.
    repeat match goal with
           | |- context [?a <? ?b] => destruct (Z.ltb_spec a b); [lia |]
           end.
    reflexivity.
  - unfold extremely_wide_aspect_ratio; rewrite Hguard.
    destruct (int_true_div_thresholds
                (Z.max (width c) (height c)) (Z.min (width c) (height c)))
      as [r [Hr [H8 [H6 [H5 _]]]]]; try lia.
    rewrite Hr; cbn [bind]; rewrite H8, H6, H5.
    repeat match goal with
           | |- context [?a <? ?b] => destruct (Z.ltb_spec a b); [lia |]
           end.
    reflexivity.
  - unfold social_media_dimensions; rewrite Hguard.
    rewrite (social_media_loop_eq _ _ _ social_tolerances).
    fold (is_social_size (width c) (height c)).
    replace (is_social_size (width c) (height c)) with false; [reflexivity |].
    symmetry; apply not_true_is_false; intros Hm.
    unfold is_social_size, social_dimensions in Hm.
    cbn [existsb fst snd] in Hm.
    repeat (apply orb_true_iff in Hm; destruct Hm as [Hm | Hm]);
      try discriminate;
      apply andb_true_iff in Hm; destruct Hm as [H1 H2];
      apply Z.leb_le in H1, H2; rule_lia.
  - unfold banner_dimensions; rewrite Hguard.
    rewrite (banner_loop_eq _ _ _ banner_tolerances).
    fold (is_banner_size (width c) (height c)).
    replace (is_banner_size (width c) (height c)) with false; [reflexivity |].
    symmetry; apply not_true_is_false; intros Hm.
    unfold is_banner_size, banner_dimensions_list in Hm.
    cbn [existsb fst snd] in Hm.
    cbn [In] in Hin.
    repeat (apply orb_true_iff in Hm; destruct Hm as [Hm | Hm]);
      try discriminate;
      apply andb_true_iff in Hm; destruct Hm as [H1 H2];
      apply Z.leb_le in H1, H2; rule_lia.
Qed.

Lemma In_range :
  forall a b i : Z, In i (range a b) <-> a <= i < b.
Proof.
  intros a b i; unfold range; rewrite in_map_iff; split.
  - intros [k [<- Hk]]; apply in_seq in Hk; lia.
  - intros H; exists (Z.to_nat (i - a)); split; [lia |].
    apply in_seq; lia.
Qed.

Lemma trial_division :
  forall n : Z,
    1 < n ->
    (forallb (fun i => negb (n mod i =? 0)) (range 2 (Z.sqrt n + 1)) = true
     <-> is_prime n).
Proof.
  intros n Hn.
  pose proof (Z.sqrt_spec n ltac:(lia)) as [Hlo Hhi].
  set (k := Z.sqrt n) in *.
  assert (Hk : 0 <= k) by apply Z.sqrt_nonneg.
  rewrite forallb_forall; split.
  - intros Hall; split; [exact Hn |].
    assert (Hno : forall i, 2 <= i <= k -> n mod i <> 0).
    { intros i Hi; specialize (Hall i (proj2 (In_range 2 (k + 1) i) ltac:(lia))).
      apply negb_true_iff, Z.eqb_neq in Hall; exact Hall. }
    intros d Hd Hmod.
    destruct (Z.le_gt_cases d k) as [Hle | Hgt]; [apply (Hno d); [lia | exact Hmod] |].
    pose proof (Z.div_mod n d ltac:(lia)) as Hdm; rewrite Hmod, Z.add_0_r in Hdm.
    set (q := n / d) in *.
    assert (Hq : 2 <= q <= k) by nia.
    apply (Hno q Hq).
    apply Z.mod_divide; [lia |]; exists d; exact Hdm.
  - intros [_ Hp] i Hi; apply In_range in Hi.
    apply negb_true_iff, Z.eqb_neq, Hp; nia.
Qed.

Lemma sqrt_table :
  forallb (fun n => match (root <- int_pow_half n ;; int_of_float root)%exc with
                    | Ok k => k =? Z.sqrt n
                    | Raise _ => false
                    end) (range 101 4097) = true.
Proof. vm_compute; reflexivity. Qed.

Lemma is_odd_dimension_prime :
  forall n : Z,
    n <= 4096 ->
    exists odd,
      is_odd_dimension n = Ok odd
      /\ (odd = true <-> 100 < n /\ is_prime n).
Proof.
  intros n Hn; unfold is_odd_dimension.
  destruct (Z.ltb_spec 100 n) as [H100 | H100];
    [| exists false; split; [reflexivity | split; [discriminate | lia]]].
  pose proof sqrt_table as Htab; rewrite forallb_forall in Htab.
  specialize (Htab n (proj2 (In_range 101 4097 n) ltac:(lia))).
  destruct (int_pow_half n) as [root | e]; cbn [bind] in *; [| discriminate].
  destruct (int_of_float root) as [k | e]; cbn [bind]; [| discriminate].
  apply Z.eqb_eq in Htab; subst k.
  eexists; split; [reflexivity |].
  rewrite trial_division by lia; tauto.
Qed.

(** X26: for sides up to 4096, [odd_dimensions] answers 0.5 exactly
    when the width or the height is a prime above 100: the float square
    root that bounds the trial division loses no divisor.  The sizes it
    penalises by name are no primes, so its penalties never add up. *)
Theorem odd_dimensions_primes :
  forall c : Context,
    0 < width c <= 4096 ->
    0 < height c <= 4096 ->
    ((100 < width c /\ is_prime (width c))
     \/ (100 < height c /\ is_prime (height c)) ->
     odd_dimensions c = Ok (VFloat (float_lit 5 10)))
    /\ (~ ((100 < width c /\ is_prime (width c))
           \/ (100 < height c /\ is_prime (height c))) ->
        odd_dimensions c
        = Ok (if (width c =? 150) && (height c =? 150)
              then VFloat (float_lit 1 1)
              else if existsb (pair_eqb (width c, height c))
                        [(120, 120); (240, 240); (360, 360)]
                   then VFloat (float_lit 75 100)
                   else VBool false)).
Proof.
  intros c Hw Hh; unfold odd_dimensions.
  replace ((width c =? 0) || (height c =? 0)) with false
    by (symmetry; apply orb_false_iff; split; apply Z.eqb_neq; lia).
  destruct (is_odd_dimension_prime (width c) ltac:(lia)) as [ow [How Hpw]].
  destruct (is_odd_dimension_prime (height c) ltac:(lia)) as [oh [Hoh Hph]].
  rewrite How; cbn [bind].
  assert (Hnot150 : ~ is_prime 150).
  { intros [_ Hp]; apply (Hp 2); [lia | reflexivity]. }
  assert (Hnot120 : ~ is_prime 120).
  { intros [_ Hp]; apply (Hp 2); [lia | reflexivity]. }
  assert (Hnot240 : ~ is_prime 240).
  { intros [_ Hp]; apply (Hp 2); [lia | reflexivity]. }
  assert (Hnot360 : ~ is_prime 360).
  { intros [_ Hp]; apply (Hp 2); [lia | reflexivity]. }
  assert (Hodd :
            (if ow then Ok true else is_odd_dimension (height c))
            = Ok (ow || oh)).
  { destruct ow; [reflexivity | exact Hoh]. }
  rewrite Hodd; cbn [bind].
  assert (Hiff : ow || oh = true <->
                 (100 < width c /\ is_prime (width c))
                 \/ (100 < height c /\ is_prime (height c))).
  { rewrite orb_true_iff, Hpw, Hph; tauto. }
  split.
  - intros Hany; apply Hiff in Hany; rewrite Hany; cbn [bind].
    assert (H150 : (width c =? 150) && (height c =? 150) = false).
    { apply not_true_is_false; intros E.
      apply andb_true_iff in E; destruct E as [E1 E2].
      apply Z.eqb_eq in E1, E2; apply Hiff in Hany.
      rewrite E1, E2 in Hany; tauto. }
    assert (Hlist : existsb (pair_eqb (width c, height c))
                      [(120, 120); (240, 240); (360, 360)] = false).
    { apply not_true_is_false; intros E.
      apply existsb_exists in E; destruct E as [p [Hin E]].
      unfold pair_eqb in E; cbn [fst snd] in E.
      apply andb_true_iff in E; destruct E as [E1 E2].
      apply Z.eqb_eq in E1, E2; apply Hiff in Hany.
      rewrite E1, E2 in Hany.
      cbn [In] in Hin; destruct Hin as [<- | [<- | [<- | []]]];
        cbn [fst snd] in Hany; tauto. }
    rewrite H150, Hlist; reflexivity.
  - intros Hnone.
    assert (Hf : ow || oh = false).
    { apply not_true_is_false; intros E; apply Hnone, Hiff, E. }
    rewrite Hf; cbn [bind].
    destruct ((width c =? 150) && (height c =? 150)); [reflexivity |].
    destruct (existsb (pair_eqb (width c, height c))
                [(120, 120); (240, 240); (360, 360)]); reflexivity.
Qed.

End DimensionRuleFacts.

Lemma extremely_wide_aspect_ratio_integer_witness :
  DimensionsPenalty.extremely_wide_aspect_ratio (Examples.ctx_of_size 700 100)
  = Py.Ok (Scoring.VFloat (Py.float_lit 75 100)).
Proof.
  apply (extremely_wide_aspect_ratio_integer (Examples.ctx_of_size 700 100));
    simpl; lia.
Defined.

Lemma apple_touch_icon_sizes_excludes_penalties_witness :
  DimensionsPenalty.very_small_images (Examples.ctx_of_size 180 180)
    = Py.Ok (Scoring.VBool false)
  /\ DimensionsPenalty.extremely_wide_aspect_ratio (Examples.ctx_of_size 180 180)
     = Py.Ok (Scoring.VBool false)
  /\ DimensionsPenalty.social_media_dimensions (Examples.ctx_of_size 180 180)
     = Py.Ok (Scoring.VBool false)
  /\ DimensionsPenalty.banner_dimensions (Examples.ctx_of_size 180 180)
     = Py.Ok (Scoring.VBool false).
Proof.
  apply (apple_touch_icon_sizes_excludes_penalties
           (Examples.ctx_of_size 180 180) (Scoring.VFloat (Py.float_lit 1 1))).
  - vm_compute; reflexivity.
  - discriminate.
Defined.

Lemma odd_dimensions_primes_witness :
  DimensionsPenalty.odd_dimensions (Examples.ctx_of_size 167 167)
  = Py.Ok (Scoring.VFloat (Py.float_lit 5 10)).
Proof.
  apply (odd_dimensions_primes (Examples.ctx_of_size 167 167)).
  - simpl; lia.
  - simpl; lia.
  - left; split; [simpl; lia |].
    apply trial_division; [simpl; lia | vm_compute; reflexivity].
Defined.

(* ===================================================================== *)
(** * Further properties of dimension extraction and of the displayed URLs *)
(* ===================================================================== *)

Section HrefFacts.
Import Py Hunter Spec.

Variable unicode_digit : N -> option (option Z).
Variable int_max_str_digits : nat.

Hypothesis digit_values :
  forall c d, unicode_digit c = Some (Some d) -> 0 <= d <= 9.

Lemma decimal_value_bounds :
  forall c d, decimal_value unicode_digit c = Some d -> 0 <= d <= 9.
Proof.
  intros c d; unfold decimal_value.
  destruct (c <? 128)%N.
  - destruct ((48 <=? c) && (c <=? 57))%N eqn:E; [| discriminate].
    apply andb_true_iff in E; destruct E as [E1 E2].
    apply N.leb_le in E1, E2; intros H; inversion H; lia.
  - destruct (unicode_digit c) as [[d' |] |] eqn:E; try discriminate.
    intros H; inversion H; subst; eauto.
Qed.

Lemma int_of_digits_bounds :
  forall (s : str) (acc z : Z),
    0 <= acc ->
    int_of_digits unicode_digit acc s = Ok z ->
    acc * 10 ^ Z.of_nat (List.length s) <= z
    < (acc + 1) * 10 ^ Z.of_nat (List.length s).
Proof.
  induction s as [| c s IH]; intros acc z Hacc H; cbn [int_of_digits] in H.
  - inversion H; subst; cbn [List.length]; cbn; lia.
  - destruct (decimal_value unicode_digit c) as [d |] eqn:Hd; [| discriminate].
    apply decimal_value_bounds in Hd.
    apply IH in H; [| lia].
    cbn [List.length]; rewrite Nat2Z.inj_succ, Z.pow_succ_r by lia.
    assert (0 < 10 ^ Z.of_nat (List.length s)) by (apply Z.pow_pos_nonneg; lia).
    nia.
Qed.

Lemma int_of_str_bounds :
  forall (s : str) (z : Z),
    (List.length s <= 4)%nat ->
    int_of_str unicode_digit int_max_str_digits s = Ok z ->
    0 <= z <= 9999.
Proof.
  intros s z Hlen H; unfold int_of_str in H.
  destruct s as [| c s]; [discriminate |].
  destruct ((640 <? List.length (c :: s)) && (0 <? int_max_str_digits)
            && (int_max_str_digits <? List.length (c :: s)))%nat;
    [discriminate |].
  apply int_of_digits_bounds in H; [| lia].
  assert (10 ^ Z.of_nat (List.length (c :: s)) <= 10 ^ 4)
    by (apply Z.pow_le_mono_r; lia).
  change (10 ^ 4) with 10000 in *; lia.
Qed.

(** X27: when the digit table gives every decimal digit a value from 0
    to 9, the dimensions read from the href or content of an element
    without a [sizes] attribute lie between 0 and 9999: the pattern
    takes at most four digits a side. *)
Theorem href_dimensions_bounds :
  forall (element : Node) (w h : Z),
    dict_lookup (lit "sizes") (attributes element) = None ->
    _extract_dimensions unicode_digit int_max_str_digits element = (w, h) ->
    0 <= w <= 9999 /\ 0 <= h <= 9999.
Proof.
  intros element w h Hnone H.
  rewrite (no_sizes_attribute unicode_digit int_max_str_digits element Hnone) in H.
  unfold dimensions_from_href in H.
  destruct (href_or_content element) as [href |];
    [| inversion H; lia].
  destruct (truthy (Some href)); [| inversion H; lia].
  destruct (SIZE_REGEX_search unicode_digit href) as [[wd hd] |] eqn:Hs;
    [| inversion H; lia].
  apply SIZE_REGEX_search_spec in Hs.
  destruct Hs as [before [c [after [_ [_ [Hlw [Hlh _]]]]]]].
  destruct (int_of_str unicode_digit int_max_str_digits wd) as [w' | e] eqn:Hw;
    cbn [bind value_or] in H; [| inversion H; lia].
  destruct (int_of_str unicode_digit int_max_str_digits hd) as [h' | e] eqn:Hh;
    cbn [bind value_or] in H; [| inversion H; lia].
  inversion H; subst w' h'.
  apply int_of_str_bounds in Hw, Hh; lia.
Qed.

End HrefFacts.

Section CliFacts.
Import Py Cli.

Lemma truncated_length :
  forall (n m limit : nat) (s : str),
    (limit < List.length s)%nat ->
    (n <= limit)%nat -> (m <= limit)%nat ->
    List.length (first_chars n s ++ lit "..." ++ last_chars m s) = (n + 3 + m)%nat
    /\ firstn n (first_chars n s ++ lit "..." ++ last_chars m s) = firstn n s
    /\ skipn (n + 3) (first_chars n s ++ lit "..." ++ last_chars m s)
       = skipn (List.length s - m) s.
Proof.
  intros n m limit s Hlen Hn Hm; unfold first_chars, last_chars.
  assert (Hf : List.length (firstn n s) = n) by (apply firstn_length_le; lia).
  split; [| split].
  - rewrite !length_app, Hf, length_skipn; cbn [lit List.length list_ascii_of_string List.map]; lia.
  - rewrite firstn_app, Hf, Nat.sub_diag, firstn_O, app_nil_r.
    apply firstn_firstn_min || (rewrite firstn_firstn; f_equal; lia).
  - rewrite app_assoc, skipn_app.
    assert (Hl : List.length (firstn n s ++ lit "...") = (n + 3)%nat)
      by (rewrite length_app, Hf; reflexivity).
    rewrite Hl, Nat.sub_diag, skipn_O.
    rewrite <- Hl, skipn_all; reflexivity.
Qed.

(** X28: the URLs the command-line tool shows never exceed 80
    characters in a candidate panel and 60 in a scoring title; a shorter
    URL is shown whole, a longer one keeps its first 40 (30) and its
    last 37 (27) characters around three dots. *)
Theorem displayed_urls_fit :
  forall url : str,
    (List.length (candidate_panel_url url) <= 80)%nat
    /\ (List.length (detailed_scoring_url url) <= 60)%nat
    /\ ((List.length url <= 80)%nat -> candidate_panel_url url = url)
    /\ ((List.length url <= 60)%nat -> detailed_scoring_url url = url)
    /\ ((80 < List.length url)%nat ->
        List.length (candidate_panel_url url) = 80%nat
        /\ firstn 40 (candidate_panel_url url) = firstn 40 url
        /\ skipn 43 (candidate_panel_url url) = skipn (List.length url - 37) url)
    /\ ((60 < List.length url)%nat ->
        List.length (detailed_scoring_url url) = 60%nat
        /\ firstn 30 (detailed_scoring_url url) = firstn 30 url
        /\ skipn 33 (detailed_scoring_url url) = skipn (List.length url - 27) url).
Proof.
  intros url; unfold candidate_panel_url, detailed_scoring_url.
  destruct (Nat.ltb_spec 80 (List.length url)) as [H80 | H80];
    destruct (Nat.ltb_spec 60 (List.length url)) as [H60 | H60]; try lia.
  - destruct (truncated_length 40 37 80 url H80) as [L1 [F1 S1]]; try lia.
    destruct (truncated_length 30 27 60 url H60) as [L2 [F2 S2]]; try lia.
    rewrite L1, L2; repeat split; auto; lia.
  - destruct (truncated_length 30 27 60 url H60) as [L2 [F2 S2]]; try lia.
    rewrite L2; repeat split; auto; lia.
  - repeat split; auto; lia.
Qed.

End CliFacts.

Lemma href_dimensions_bounds_witness :
  0 <= 2345 <= 9999 /\ 0 <= 6789 <= 9999.
Proof.
  apply (href_dimensions_bounds ExamplesMore.ascii_digits 4300
           ltac:(intros c d H; discriminate H)
           ExamplesMore.link_long_numbers 2345 6789).
  - reflexivity.
  - vm_compute; reflexivity.
Defined.

(* ===================================================================== *)
(** * Properties of the keyword lists and of the SVG colour rule          *)
(* ===================================================================== *)

Section KeywordFacts.
Import Py Scoring HtmlRules Spec.

Variable url_path : str -> str.

Lemma startswith_app :
  forall s p rest : str, startswith (p ++ rest) p = true.
Proof.
  intros s p rest; induction p as [| x p IH]; [destruct rest; reflexivity |].
  cbn [app startswith]; now rewrite N.eqb_refl, IH.
Qed.

Lemma startswith_split :
  forall s p : str, startswith s p = true -> exists rest, s = p ++ rest.
Proof.
  intros s p; revert s; induction p as [| x p IH]; intros s H;
    [exists s; reflexivity |].
  destruct s as [| y s]; [discriminate |].
  cbn [startswith] in H; apply andb_true_iff in H; destruct H as [Hxy H].
  apply N.eqb_eq in Hxy; subst y.
  destruct (IH s H) as [rest ->]; exists rest; reflexivity.
Qed.

Lemma startswith_prefix :
  forall s p q : str, startswith s (p ++ q) = true -> startswith s p = true.
Proof.
  intros s p q H; apply startswith_split in H; destruct H as [rest ->].
  rewrite <- app_assoc; apply (startswith_app []).
Qed.

Lemma contains_intro :
  forall pre sub post : str, contains (pre ++ sub ++ post) sub = true.
Proof.
  intros pre sub post; induction pre as [| x pre IH].
  - cbn [app].
    destruct (sub ++ post) eqn:E; cbn [contains];
      rewrite <- E, (startswith_app [] sub post); reflexivity.
  - cbn [app contains]; rewrite IH; apply orb_true_r.
Qed.

Lemma contains_split :
  forall s sub : str,
    contains s sub = true -> exists pre post, s = pre ++ sub ++ post.
Proof.
  induction s as [| x s IH]; intros sub H; cbn [contains] in H.
  - rewrite orb_false_r in H; apply startswith_split in H.
    destruct H as [rest H]; exists [], rest; exact H.
  - apply orb_true_iff in H; destruct H as [H | H].
    + apply startswith_split in H; destruct H as [rest H].
      exists [], rest; exact H.
    + destruct (IH sub H) as [pre [post ->]].
      exists (x :: pre), post; reflexivity.
Qed.

(** A string that holds a keyword holds every part of it. *)
Lemma contains_part :
  forall s a sub b : str,
    contains s (a ++ sub ++ b) = true -> contains s sub = true.
Proof.
  intros s a sub b H; apply contains_split in H.
  destruct H as [pre [post ->]].
  replace (pre ++ (a ++ sub ++ b) ++ post)
    with ((pre ++ a) ++ sub ++ (b ++ post))
    by (rewrite <- !app_assoc; reflexivity).
  apply contains_intro.
Qed.

Lemma any_keyword_without :
  forall (s long short : str) (before after : list str) (a b : str),
    long = a ++ short ++ b ->
    In short (before ++ after) ->
    any_keyword (before ++ long :: after) s = any_keyword (before ++ after) s.
Proof.
  intros s long short before after a b Hlong Hin; unfold any_keyword.
  rewrite !existsb_app; cbn [existsb].
  destruct (contains s long) eqn:Hc; [| reflexivity].
  rewrite Hlong in Hc; apply contains_part in Hc.
  assert (H : existsb (fun keyword => contains s keyword) (before ++ after) = true)
    by (apply existsb_exists; eauto).
  rewrite existsb_app in H; rewrite H.
  cbn [orb]; now rewrite orb_true_r.
Qed.

Lemma parent_matches_without :
  forall (long short : str) (before after : list str) (a b p : str),
    long = a ++ short ++ b ->
    In short (before ++ after) ->
    parent_matches (before ++ long :: after) p
    = parent_matches (before ++ after) p.
Proof.
  intros long short before after a b p Hlong Hin; unfold parent_matches.
  destruct p as [| ch p]; [reflexivity |].
  now apply (any_keyword_without _ long short before after a b).
Qed.

Lemma existsb_pointwise :
  forall (A : Type) (f g : A -> bool) (l : list A),
    (forall x, f x = g x) -> existsb f l = existsb g l.
Proof.
  intros A f g l H; induction l as [| x l IH]; [reflexivity |].
  cbn [existsb]; now rewrite H, IH.
Qed.

(** X30: two keywords are shadowed by shorter ones of their own lists:
    [generic_image_names] answers as it would without [picture], which
    holds [pic], and [parent_logo_context] as it would without
    [navbar], which holds [nav]. *)
Theorem shadowed_keywords :
  forall c : Context,
    generic_image_names url_path c
    = Ok (VBool (any_keyword
                   [lit "pic"; lit "photo"; lit "default"; lit "placeholder"]
                   (lower (url_path (url c)))))
    /\ parent_logo_context c
       = Ok (VBool (existsb
                      (parent_matches
                         [lit "logo"; lit "brand"; lit "header"; lit "nav";
                          lit "masthead"; lit "banner"])
                      (parent_classes c))).
Proof.
  intros c; split.
  - unfold generic_image_names, generic_names.
    rewrite (any_keyword_without _ (lit "picture") (lit "pic")
               [lit "pic"; lit "photo"] [lit "default"; lit "placeholder"]
               [] (lit "ture")); [reflexivity | reflexivity | cbn; tauto].
  - unfold parent_logo_context, logo_patterns.
    f_equal; f_equal; apply existsb_pointwise; intros p.
    apply (parent_matches_without (lit "navbar") (lit "nav")
             [lit "logo"; lit "brand"; lit "header"]
             [lit "nav"; lit "masthead"; lit "banner"]
             [] (lit "bar") p); [reflexivity | cbn; tauto].
Qed.

End KeywordFacts.

Section SvgRuleFacts.
Import Py Hunter Spec SpecMore.

Variable client_get : str -> Exc Response.
Variable image_open : bytes -> Exc PIL.Image.
Variable color_verdict : str -> Exc Scoring.value.

Lemma endswith_contains :
  forall u : str,
    HtmlRules.endswith u (lit ".svg") = true -> contains u (lit "svg") = true.
Proof.
  intros u H; unfold HtmlRules.endswith in H.
  apply startswith_split in H; destruct H as [rest H].
  apply (f_equal (@rev N)) in H.
  rewrite rev_involutive, rev_app_distr, rev_involutive in H; subst u.
  change (lit ".svg") with ([46%N] ++ lit "svg" ++ []).
  rewrite app_assoc; apply contains_intro.
Qed.

(** The rule answers [False] when the URL does not hold [svg] and when
    no SVG text came with the candidate. *)
Lemma single_color_svg_skips :
  forall c : Scoring.Context,
    contains (lower (Scoring.url c)) (lit "svg") = false
    \/ dict_get (lit "svg_content") [] (Scoring.kwargs c) = [] ->
    HtmlRules.single_color_svg color_verdict c = Ok (Scoring.VBool false).
Proof.
  intros c H; unfold HtmlRules.single_color_svg.
  destruct (HtmlRules.endswith (lower (Scoring.url c)) (lit ".svg")) eqn:He.
  - apply endswith_contains in He.
    destruct H as [H | H]; [congruence |].
    cbn [negb andb]; now rewrite H.
  - destruct (contains (lower (Scoring.url c)) (lit "svg")) eqn:Hc.
    + destruct H as [H | H]; [discriminate |].
      cbn [negb andb]; now rewrite H.
    + reflexivity.
Qed.

(** X29: [single_color_svg] can only count for a candidate whose URL
    holds [svg] and whose response was served with a content type
    holding [svg]: for a URL without [svg], a failed fetch or another
    content type, the candidate scores as if the rule were not in the
    table. *)
Theorem single_color_svg_needs_svg :
  forall (before after : list Scoring.rule_entry) (label : str) (weight : Z)
         (icon : Icon),
    contains (lower (url icon)) (lit "svg") = false
    \/ (forall response,
           client_get (url icon) = Ok response ->
           contains (content_type response) (lit "svg") = false) ->
    _calculate_score_with_rules client_get image_open
      (before ++ (HtmlRules.single_color_svg color_verdict, label, weight) :: after)
      icon
    = _calculate_score_with_rules client_get image_open (before ++ after) icon.
Proof.
  intros before after label weight icon H.
  assert (Hskip : forall ctx,
             Scoring.url ctx = url icon ->
             contains (lower (url icon)) (lit "svg") = false
             \/ Scoring.kwargs ctx = [(lit "svg_content", [])] ->
             Scoring.calculate_score
               (before ++ (HtmlRules.single_color_svg color_verdict, label, weight)
                          :: after) ctx
             = Scoring.calculate_score (before ++ after) ctx).
  { intros ctx Hurl Hctx.
    rewrite !calculate_score_eq.
    change ((HtmlRules.single_color_svg color_verdict, label, weight) :: after)
      with ([(HtmlRules.single_color_svg color_verdict, label, weight)] ++ after).
    assert (Hzero : contribution_of ctx
                      (HtmlRules.single_color_svg color_verdict, label, weight) = 0).
    { unfold contribution_of.
      rewrite single_color_svg_skips; [reflexivity |].
      rewrite Hurl; destruct Hctx as [Hc | Hk]; [now left | right].
      rewrite Hk; reflexivity. }
    rewrite !details_of_app, details_of_single, Hzero; reflexivity. }
  unfold _calculate_score_with_rules.
  destruct (client_get (url icon)) as [response | e] eqn:Hget;
    cbn [bind try_except].
  - destruct (contains (content_type response) (lit "svg")) eqn:Hsvg.
    + destruct H as [H | H]; [| rewrite (H response eq_refl) in Hsvg; discriminate].
      destruct (decode_utf8 (content response)) as [text | e];
        cbn [bind try_except].
      * rewrite Hskip; [| reflexivity | now left].
        rewrite calculate_score_eq; reflexivity.
      * apply Hskip; [reflexivity | now left].
    + destruct (image_open (content response)) as [image | e];
        cbn [bind try_except].
      * rewrite Hskip; [| reflexivity | now right].
        rewrite calculate_score_eq; reflexivity.
      * apply Hskip; [reflexivity | now right].
  - apply Hskip; [reflexivity | now right].
Qed.

End SvgRuleFacts.

Lemma single_color_svg_needs_svg_witness :
  Hunter._calculate_score_with_rules
    ExamplesMore.serve_png ExamplesMore.decoder_48
    ([] ++ (HtmlRules.single_color_svg ExamplesMore.always_single,
            Examples.label_broken, -50) :: ExamplesMore.two_rules)
    (Examples.icon_of "https://example.com/logo.svg" 0 0 "")
  = Hunter._calculate_score_with_rules
      ExamplesMore.serve_png ExamplesMore.decoder_48
      ([] ++ ExamplesMore.two_rules)
      (Examples.icon_of "https://example.com/logo.svg" 0 0 "").
Proof.
  apply (single_color_svg_needs_svg
           ExamplesMore.serve_png ExamplesMore.decoder_48
           ExamplesMore.always_single [] ExamplesMore.two_rules
           Examples.label_broken (-50)
           (Examples.icon_of "https://example.com/logo.svg" 0 0 "")).
  right; intros response H; inversion H; vm_compute; reflexivity.
Defined.
